(** * HTMLHustler: the website cloner ([src/website_cloner.py])

    A shallow embedding of [WebsiteCloner] and the properties of its URL
    handling, resource de-duplication and crawl loop.

    Layout:
    - [Py]      : the Python [str] methods the cloner calls;
    - [Urllib]  : [urllib.parse] ([urlsplit], [urlparse], [urlunparse],
                  [urljoin]) after CPython 3.11, on 8-bit strings;
    - the cloner itself: state record, the exception/state monad, the
      download functions, [scrape_page], [find_internal_links] and
      [scrape_full_site];
    - the theorems.

    Scope.  The network, the file system, the markup parser and
    [set.pop()] are oracles of the [world]: a request, a write, the
    parser and [mkdir] can fail.  Two effects are left out of every
    method: the progress messages ([print]) and the pause between two
    turns of the crawl ([time.sleep(delay)]).  The model therefore
    describes the runs in which every message can be written to the
    console and the delay is one that [time.sleep] accepts; a statement
    that an operation returns a value is to be read under this
    proviso. *)

From Stdlib Require Import String Ascii List ZArith Lia Bool.
From stdpp Require Import gmap strings list.

Set Default Proof Using "Type".

(* ===================================================================== *)
(** * Python strings *)
(* ===================================================================== *)

(** Python [str] values are modelled as [string] (sequences of 8-bit
    characters).  Case mapping and character classes are the ASCII ones. *)
Module Py.

Definition is_empty (s : string) : bool :=
  match s with EmptyString => true | String _ _ => false end.

(** [p] is a prefix of [s] *)
Fixpoint has_prefix (p s : string) : bool :=
  match p with
  | EmptyString => true
  | String a p' =>
      match s with
      | EmptyString => false
      | String b s' => Ascii.eqb a b && has_prefix p' s'
      end
  end.

(** [s.startswith(p)] *)
Definition startswith (s p : string) : bool := has_prefix p s.

(** [sub in s] *)
Fixpoint contains (s sub : string) : bool :=
  has_prefix sub s ||
  match s with
  | EmptyString => false
  | String _ s' => contains s' sub
  end.

(** [c in s] for a one-character [c] *)
Fixpoint contains_char (s : string) (c : ascii) : bool :=
  match s with
  | EmptyString => false
  | String a s' => Ascii.eqb a c || contains_char s' c
  end.

Fixpoint forallb (p : ascii → bool) (s : string) : bool :=
  match s with
  | EmptyString => true
  | String a s' => p a && forallb p s'
  end.

(** [s.endswith(p)] *)
Fixpoint endswith (s p : string) : bool :=
  String.eqb s p ||
  match s with
  | EmptyString => false
  | String _ s' => endswith s' p
  end.

Definition is_upper (c : ascii) : bool :=
  (65 <=? nat_of_ascii c) && (nat_of_ascii c <=? 90).
Definition is_lower (c : ascii) : bool :=
  (97 <=? nat_of_ascii c) && (nat_of_ascii c <=? 122).
Definition is_digit (c : ascii) : bool :=
  (48 <=? nat_of_ascii c) && (nat_of_ascii c <=? 57).
Definition is_alpha (c : ascii) : bool := is_upper c || is_lower c.

Definition lower_char (c : ascii) : ascii :=
  if is_upper c then ascii_of_nat (nat_of_ascii c + 32) else c.

(** [s.lower()] *)
Fixpoint lower (s : string) : string :=
  match s with
  | EmptyString => EmptyString
  | String a s' => String (lower_char a) (lower s')
  end.

(** [s.lstrip(chars)], the character set given as a predicate *)
Fixpoint lstrip (p : ascii → bool) (s : string) : string :=
  match s with
  | EmptyString => EmptyString
  | String a s' => if p a then lstrip p s' else s
  end.

(** [s.rstrip(chars)] *)
Fixpoint rstrip (p : ascii → bool) (s : string) : string :=
  match s with
  | EmptyString => EmptyString
  | String a s' =>
      let r := rstrip p s' in
      if is_empty r && p a then EmptyString else String a r
  end.

(** [s.strip(chars)] *)
Definition strip (p : ascii → bool) (s : string) : string :=
  rstrip p (lstrip p s).

Definition is_char (c : ascii) : ascii → bool := fun a => Ascii.eqb a c.

(** [s[n:]] *)
Fixpoint drop (n : nat) (s : string) : string :=
  match n, s with
  | O, _ => s
  | S _, EmptyString => EmptyString
  | S k, String _ s' => drop k s'
  end.

(** [s[:n]] *)
Fixpoint take (n : nat) (s : string) : string :=
  match n, s with
  | O, _ => EmptyString
  | S _, EmptyString => EmptyString
  | S k, String a s' => String a (take k s')
  end.

(** The longest prefix of [s] whose characters all satisfy [p], and
    what follows it. *)
Fixpoint span (p : ascii → bool) (s : string) : string * string :=
  match s with
  | EmptyString => (EmptyString, EmptyString)
  | String a s' =>
      if p a then let '(l, r) := span p s' in (String a l, r)
      else (EmptyString, s)
  end.

(** [s.partition(c)] when [c] occurs in [s]: the text before and after
    the first [c]; [None] when [c] does not occur (Python then returns
    [(s, '', '')]). The same split is [s.split(c, 1)] and is what
    [i = s.find(c); s[:i], s[i+1:]] computes. *)
Fixpoint partition (c : ascii) (s : string) : option (string * string) :=
  match s with
  | EmptyString => None
  | String a s' =>
      if Ascii.eqb a c then Some (EmptyString, s')
      else match partition c s' with
           | Some (l, r) => Some (String a l, r)
           | None => None
           end
  end.

(** [s.rpartition(c)] when [c] occurs: split at the last [c]. *)
Fixpoint rpartition (c : ascii) (s : string) : option (string * string) :=
  match s with
  | EmptyString => None
  | String a s' =>
      match rpartition c s' with
      | Some (l, r) => Some (String a l, r)
      | None => if Ascii.eqb a c then Some (EmptyString, s') else None
      end
  end.

(** [s.split(c)]: never the empty list. *)
Fixpoint split (c : ascii) (s : string) : list string :=
  match s with
  | EmptyString => [EmptyString]
  | String a s' =>
      if Ascii.eqb a c then EmptyString :: split c s'
      else match split c s' with
           | x :: xs => String a x :: xs
           | [] => [String a EmptyString]
           end
  end.

(** [sep.join(l)] *)
Definition join (sep : string) (l : list string) : string :=
  String.concat sep l.

(** [s.replace(old, new)] for a non-empty [old]: occurrences are
    replaced left to right without overlap.  [skip] counts the
    characters of the occurrence just replaced that are still to be
    passed over. *)
Fixpoint replace_from (old new : string) (skip : nat) (s : string) : string :=
  match s with
  | EmptyString => EmptyString
  | String a s' =>
      match skip with
      | S k => replace_from old new k s'
      | O =>
          if has_prefix old s
          then new +:+ replace_from old new (String.length old - 1) s'
          else String a (replace_from old new 0 s')
      end
  end.

Definition replace (s old new : string) : string := replace_from old new 0 s.

(** [x in l] for a list of strings *)
Definition in_list (x : string) (l : list string) : bool :=
  existsb (String.eqb x) l.

End Py.

(* ===================================================================== *)
(** * Exceptions *)
(* ===================================================================== *)

(** The exceptions that the cloner can meet.  [ValueError] comes from
    [urllib.parse]; [RequestException] stands for every failure of
    [requests.get] and [raise_for_status] (timeout, transport error,
    non-2xx status); [OSError] for a failed file write or [mkdir];
    [ParserRejectedMarkup] is what [BeautifulSoup] raises on markup that
    its parser cannot handle. *)
Inductive exn := ValueError | RequestException | OSError | ParserRejectedMarkup.

Inductive result (A : Type) : Type :=
| Ok (a : A)
| Raise (e : exn).
Arguments Ok {A} a.
Arguments Raise {A} e.

Definition rbind {A B} (r : result A) (f : A → result B) : result B :=
  match r with
  | Ok a => f a
  | Raise e => Raise e
  end.

Notation "'let?' x := r 'in' k" := (rbind r (fun x => k))
  (at level 10, x binder, k at level 200, only parsing).

(* ===================================================================== *)
(** * urllib.parse *)
(* ===================================================================== *)

Module Urllib.
Import Py.

Definition uses_relative : list string :=
  [""; "ftp"; "http"; "gopher"; "nntp"; "imap";
   "wais"; "file"; "https"; "shttp"; "mms";
   "prospero"; "rtsp"; "rtspu"; "sftp";
   "svn"; "svn+ssh"; "ws"; "wss"].

Definition uses_netloc : list string :=
  [""; "ftp"; "http"; "gopher"; "nntp"; "telnet";
   "imap"; "wais"; "file"; "mms"; "https"; "shttp";
   "snews"; "prospero"; "rtsp"; "rtspu"; "rsync";
   "svn"; "svn+ssh"; "sftp"; "nfs"; "git"; "git+ssh";
   "ws"; "wss"].

Definition uses_params : list string :=
  [""; "ftp"; "hdl"; "prospero"; "http"; "imap";
   "https"; "shttp"; "rtsp"; "rtspu"; "sip"; "sips";
   "mms"; "sftp"; "tel"].

(** [c in scheme_chars] *)
Definition scheme_char (c : ascii) : bool :=
  is_alpha c || is_digit c ||
  Ascii.eqb c "+" || Ascii.eqb c "-" || Ascii.eqb c ".".

(** [c in _WHATWG_C0_CONTROL_OR_SPACE] *)
Definition c0_control_or_space (c : ascii) : bool := nat_of_ascii c <=? 32.

(** The loop over [_UNSAFE_URL_BYTES_TO_REMOVE]. *)
Definition remove_unsafe (s : string) : string :=
  let tab := String "009" EmptyString in
  let cr := String "013" EmptyString in
  let lf := String "010" EmptyString in
  replace (replace (replace s tab "") cr "") lf "".

Record SplitResult := mkSplit {
  ss_scheme : string; ss_netloc : string; ss_path : string;
  ss_query : string; ss_fragment : string }.

Record ParseResult := mkParse {
  scheme : string; netloc : string; path : string;
  params : string; query : string; fragment : string }.

(** [_splitnetloc(url, start)]: the text from [start] up to the first of
    [/], [?], [#], and the rest. *)
Definition netloc_char (c : ascii) : bool :=
  negb (Ascii.eqb c "/" || Ascii.eqb c "?" || Ascii.eqb c "#").

Definition _splitnetloc (url : string) (start : nat) : string * string :=
  span netloc_char (drop start url).

Section WithHostCheck.
(** [_check_bracketed_host] validates the text between [[ ]] with the
    [ipaddress] module (or as an IPvFuture literal).  That test is a
    parameter: [true] when the host is accepted. *)
Variable bracketed_host_ok : string → bool.

Definition _check_bracketed_netloc (nl : string) : result unit :=
  let hostname_and_port :=
    match rpartition "@" nl with Some (_, r) => r | None => nl end in
  match partition "[" hostname_and_port with
  | Some (before_bracket, bracketed) =>
      if negb (is_empty before_bracket) then Raise ValueError
      else
        let '(hostname, port) :=
          match partition "]" bracketed with
          | Some (h, p) => (h, p)
          | None => (bracketed, EmptyString)
          end in
        if negb (is_empty port) && negb (startswith port ":")
        then Raise ValueError
        else if bracketed_host_ok hostname then Ok () else Raise ValueError
  | None =>
      let hostname :=
        match partition ":" hostname_and_port with
        | Some (h, _) => h
        | None => hostname_and_port
        end in
      if bracketed_host_ok hostname then Ok () else Raise ValueError
  end.

(** [urlsplit(url, scheme)], with [allow_fragments] at its default.
    [_checknetloc] only inspects non-ASCII network locations and is
    left out. *)
Definition urlsplit (url scheme : string) : result SplitResult :=
  let url := lstrip c0_control_or_space url in
  let scheme := strip c0_control_or_space scheme in
  let url := remove_unsafe url in
  let scheme := remove_unsafe scheme in
  let '(scheme, url) :=
    match partition ":" url with
    | Some (String c0 pre' as pre, rest) =>
        if is_alpha c0 && forallb scheme_char pre
        then (lower pre, rest) else (scheme, url)
    | _ => (scheme, url)
    end in
  let? nu :=
         (if has_prefix "//" url then
           let '(nl, url) := _splitnetloc url 2 in
           if (contains_char nl "[" && negb (contains_char nl "]")) ||
              (contains_char nl "]" && negb (contains_char nl "["))
           then Raise ValueError
           else if contains_char nl "[" && contains_char nl "]"
           then (let? _ := _check_bracketed_netloc nl in Ok (nl, url))
           else Ok (nl, url)
         else Ok (EmptyString, url)) in
   let '(nl, url) := nu in
   let '(url, fragment) :=
     match partition "#" url with
     | Some (u, f) => (u, f)
     | None => (url, EmptyString)
     end in
   let '(url, query) :=
     match partition "?" url with
     | Some (u, q) => (u, q)
     | None => (url, EmptyString)
     end in
   Ok (mkSplit scheme nl url query fragment).

(** [_splitparams(url)]: split at the first [;] that follows the last
    [/] ([url.find(';', url.rfind('/'))]). *)
Definition _splitparams (url : string) : string * string :=
  match rpartition "/" url with
  | Some (dir, last) =>
      match partition ";" last with
      | Some (l, p) => (dir +:+ "/" +:+ l, p)
      | None => (url, EmptyString)
      end
  | None =>
      match partition ";" url with
      | Some (l, p) => (l, p)
      | None => (url, EmptyString)
      end
  end.

(** [urlparse(url, scheme)] *)
Definition urlparse (url scheme : string) : result ParseResult :=
  let? sr := urlsplit url scheme in
   let '(url, params) :=
     if in_list (ss_scheme sr) uses_params && contains_char (ss_path sr) ";"
     then _splitparams (ss_path sr)
     else (ss_path sr, EmptyString) in
   Ok (mkParse (ss_scheme sr) (ss_netloc sr) url params
               (ss_query sr) (ss_fragment sr)).

End WithHostCheck.

(** [urlunsplit((scheme, netloc, url, query, fragment))] *)
Definition urlunsplit (scheme netloc url query fragment : string) : string :=
  let url :=
    if negb (is_empty netloc) ||
       (negb (is_empty scheme) && in_list scheme uses_netloc &&
        negb (String.eqb (take 2 url) "//"))
    then
      let url :=
        if negb (is_empty url) && negb (String.eqb (take 1 url) "/")
        then "/" +:+ url else url in
      "//" +:+ netloc +:+ url
    else url in
  let url := if negb (is_empty scheme) then scheme +:+ ":" +:+ url else url in
  let url := if negb (is_empty query) then url +:+ "?" +:+ query else url in
  let url := if negb (is_empty fragment) then url +:+ "#" +:+ fragment else url in
  url.

(** [urlunparse(components)] *)
Definition urlunparse (p : ParseResult) : string :=
  let url :=
    if negb (is_empty (params p)) then path p +:+ ";" +:+ params p
    else path p in
  urlunsplit (scheme p) (netloc p) url (query p) (fragment p).

(** [parsed._replace(fragment=f)] *)
Definition replace_fragment (p : ParseResult) (f : string) : ParseResult :=
  mkParse (scheme p) (netloc p) (path p) (params p) (query p) f.

(** [segments[1:-1] = filter(None, segments[1:-1])] *)
Definition filter_middle (segments : list string) : list string :=
  match segments with
  | first :: (_ :: _) as rest =>
      first :: List.filter (fun s => negb (is_empty s)) (removelast rest)
            ++ [List.last rest EmptyString]
  | _ => segments
  end.

(** The loop of [urljoin] that resolves [.] and [..]; [resolved] is
    kept in reverse. *)
Fixpoint resolve_segments (segments resolved : list string) : list string :=
  match segments with
  | [] => rev resolved
  | seg :: segs =>
      if String.eqb seg ".." then resolve_segments segs (tl resolved)
      else if String.eqb seg "." then resolve_segments segs resolved
      else resolve_segments segs (seg :: resolved)
  end.

Section WithHostCheck.
Variable bracketed_host_ok : string → bool.

(** [urljoin(base, url)] *)
Definition urljoin (base url : string) : result string :=
  if is_empty base then Ok url
  else if is_empty url then Ok base
  else
    let? b := urlparse bracketed_host_ok base "" in
    let? u := urlparse bracketed_host_ok url (scheme b) in
     if negb (String.eqb (scheme u) (scheme b)) ||
        negb (in_list (scheme u) uses_relative)
     then Ok url
     else if in_list (scheme u) uses_netloc && negb (is_empty (netloc u))
     then Ok (urlunparse u)
     else
       let nl := if in_list (scheme u) uses_netloc then netloc b else netloc u in
       if is_empty (path u) && is_empty (params u) then
         let q := if is_empty (query u) then query b else query u in
         Ok (urlunparse (mkParse (scheme u) nl (path b) (params b) q (fragment u)))
       else
         let base_parts := split "/" (path b) in
         let base_parts :=
           if negb (String.eqb (List.last base_parts EmptyString) EmptyString)
           then removelast base_parts else base_parts in
         let segments :=
           if String.eqb (take 1 (path u)) "/" then split "/" (path u)
           else filter_middle (base_parts ++ split "/" (path u)) in
         let resolved_path := resolve_segments segments [] in
         let resolved_path :=
           if in_list (List.last segments EmptyString) ["."; ".."]
           then resolved_path ++ [EmptyString] else resolved_path in
         let joined := join "/" resolved_path in
         Ok (urlunparse (mkParse (scheme u) nl
                (if is_empty joined then "/" else joined)
                (params u) (query u) (fragment u))).
End WithHostCheck.

End Urllib.

(* ===================================================================== *)
(** * The cloner: data *)
(* ===================================================================== *)

Import Py Urllib.

(** What a request is made for; kept in the request log only. *)
Inductive kind := Page | Image | Stylesheet | Script | Font.

(** ** The parsed page

    BeautifulSoup is an external collaborator.  A parsed document is the
    list of its elements in document order, which is the order in which
    [find_all] yields them.  [el_rel] is the multi-valued [rel]
    attribute as bs4 keeps it (a list of tokens); [el_string] is
    [tag.string]. *)
Record element := mkElement {
  el_tag : string;
  el_rel : list string;
  el_attrs : gmap string string;
  el_string : option string }.

Definition soup := list element.

(** [tag.get(name)] *)
Definition el_get (e : element) (name : string) : option string :=
  el_attrs e !! name.

(** [tag[name] = value] *)
Definition el_set (e : element) (name value : string) : element :=
  mkElement (el_tag e) (el_rel e) (<[name := value]> (el_attrs e)) (el_string e).

(** ** Files *)

(** The record that [_save_summary] hands to [json.dump]. *)
Record summary := mkSummary {
  sum_base_url : string;
  sum_pages_scraped : nat;
  sum_visited_pages : list string;
  sum_images_downloaded : nat;
  sum_image_urls : list string;
  sum_css_files_downloaded : nat;
  sum_css_urls : list string;
  sum_js_files_downloaded : nat;
  sum_js_urls : list string;
  sum_inline_styles_count : nat }.

Inductive content :=
| Data (s : string)
| Json (s : summary).

(** ** The outside world

    Everything the cloner does not decide itself: the answers of the
    network, whether a file can be written, the markup parser and
    serializer, which element [set.pop()] yields, and the host test of
    [urllib.parse].  The request log so far is passed along so that an
    answer may change during a run.  [parser_ok] tells whether
    [BeautifulSoup] accepts a markup ([html_parser] is the document it
    then builds); [mkdir_ok] whether [Path(d).mkdir(parents=True,
    exist_ok=True)] succeeds on a directory. *)
Record world := mkWorld {
  http_get : list (kind * string) → string → option string;
  file_write_ok : list (kind * string) → string → bool;
  html_parser : string → soup;
  prettify : soup → string;
  set_choice : list (kind * string) → gset string → string;
  bracketed_host_ok : string → bool;
  parser_ok : string → bool;
  mkdir_ok : string → bool }.

(** ** The object *)
Record cloner := mkCloner {
  base_url : string;
  domain : string;
  output_dir : string;
  downloaded_images : gset string;
  downloaded_css : gset string;
  downloaded_js : gset string;
  visited_pages : gset string;
  all_css_rules : gmap string (list string);
  inline_styles : list string;
  (** the file system below [output_dir] and the requests issued so far *)
  files : gmap string content;
  requests_log : list (kind * string) }.

Definition set_downloaded_images (f : gset string → gset string) (c : cloner) :=
  mkCloner (base_url c) (domain c) (output_dir c) (f (downloaded_images c))
    (downloaded_css c) (downloaded_js c) (visited_pages c) (all_css_rules c)
    (inline_styles c) (files c) (requests_log c).
Definition set_downloaded_css (f : gset string → gset string) (c : cloner) :=
  mkCloner (base_url c) (domain c) (output_dir c) (downloaded_images c)
    (f (downloaded_css c)) (downloaded_js c) (visited_pages c) (all_css_rules c)
    (inline_styles c) (files c) (requests_log c).
Definition set_downloaded_js (f : gset string → gset string) (c : cloner) :=
  mkCloner (base_url c) (domain c) (output_dir c) (downloaded_images c)
    (downloaded_css c) (f (downloaded_js c)) (visited_pages c) (all_css_rules c)
    (inline_styles c) (files c) (requests_log c).
Definition set_visited_pages (f : gset string → gset string) (c : cloner) :=
  mkCloner (base_url c) (domain c) (output_dir c) (downloaded_images c)
    (downloaded_css c) (downloaded_js c) (f (visited_pages c)) (all_css_rules c)
    (inline_styles c) (files c) (requests_log c).
Definition set_all_css_rules
    (f : gmap string (list string) → gmap string (list string)) (c : cloner) :=
  mkCloner (base_url c) (domain c) (output_dir c) (downloaded_images c)
    (downloaded_css c) (downloaded_js c) (visited_pages c) (f (all_css_rules c))
    (inline_styles c) (files c) (requests_log c).
Definition set_inline_styles (f : list string → list string) (c : cloner) :=
  mkCloner (base_url c) (domain c) (output_dir c) (downloaded_images c)
    (downloaded_css c) (downloaded_js c) (visited_pages c) (all_css_rules c)
    (f (inline_styles c)) (files c) (requests_log c).
Definition set_files (f : gmap string content → gmap string content) (c : cloner) :=
  mkCloner (base_url c) (domain c) (output_dir c) (downloaded_images c)
    (downloaded_css c) (downloaded_js c) (visited_pages c) (all_css_rules c)
    (inline_styles c) (f (files c)) (requests_log c).
Definition set_requests_log
    (f : list (kind * string) → list (kind * string)) (c : cloner) :=
  mkCloner (base_url c) (domain c) (output_dir c) (downloaded_images c)
    (downloaded_css c) (downloaded_js c) (visited_pages c) (all_css_rules c)
    (inline_styles c) (files c) (f (requests_log c)).

(** ** Methods run on the object and may raise *)
Definition M (A : Type) : Type := cloner → result A * cloner.

Definition ret {A} (a : A) : M A := fun st => (Ok a, st).

Definition bind {A B} (m : M A) (f : A → M B) : M B :=
  fun st =>
    match m st with
    | (Ok a, st') => f a st'
    | (Raise e, st') => (Raise e, st')
    end.

Notation "'let*' x := m 'in' k" := (bind m (fun x => k))
  (at level 10, x binder, k at level 200, only parsing).

Definition raise {A} (e : exn) : M A := fun st => (Raise e, st).

(** a value or exception computed without touching the object *)
Definition lift {A} (r : result A) : M A := fun st => (r, st).

(** read the object *)
Definition gets {A} (f : cloner → A) : M A := fun st => (Ok (f st), st).

Definition modify (f : cloner → cloner) : M unit := fun st => (Ok (), f st).

(** [try: m  except Exception: h] *)
Definition try_except {A} (m : M A) (h : M A) : M A :=
  fun st =>
    match m st with
    | (Ok a, st') => (Ok a, st')
    | (Raise _, st') => h st'
    end.

(** a [for] loop over a list that rebuilds the list *)
Fixpoint mapM {A B} (f : A → M B) (l : list A) : M (list B) :=
  match l with
  | [] => ret []
  | x :: xs => let* y := f x in let* ys := mapM f xs in ret (y :: ys)
  end.

(** [os.path.join] (POSIX) *)
Definition path_join2 (a b : string) : string :=
  if startswith b "/" then b
  else if is_empty a || endswith a "/" then a +:+ b
  else a +:+ "/" +:+ b.

Definition path_join (a : string) (ps : list string) : string :=
  fold_left path_join2 ps a.

(* ===================================================================== *)
(** * The cloner: methods *)
(* ===================================================================== *)

Definition image_exts : list string :=
  [".png"; ".jpg"; ".jpeg"; ".gif"; ".svg"; ".webp"; ".ico"].
Definition font_exts : list string :=
  [".woff"; ".woff2"; ".ttf"; ".eot"; ".otf"].
Definition non_html_exts : list string :=
  [".pdf"; ".zip"; ".doc"; ".xls"].

(** [any(ext in s for ext in exts)] *)
Definition any_ext_in (exts : list string) (s : string) : bool :=
  existsb (contains s) exts.

(** ** The pattern of [_process_css_urls]

    The pattern reads: the text [url(], an optional quote (double or
    single), a non-empty run of characters that are neither quotes nor
    parentheses (the group), an optional quote, a closing parenthesis.
    Every part is decided by the next character, so a match at a
    position is found without backtracking and the group is the longest
    such run. *)
Definition is_quote (c : ascii) : bool :=
  Ascii.eqb c "034" || Ascii.eqb c "039".

Definition url_body_char (c : ascii) : bool :=
  negb (is_quote c || Ascii.eqb c "(" || Ascii.eqb c ")").

Definition opt_quote (s : string) : string * string :=
  match s with
  | String c s' => if is_quote c then (String c EmptyString, s') else (EmptyString, s)
  | EmptyString => (EmptyString, EmptyString)
  end.

(** [match.group(0)] and [match.group(1)] of a match at the start of [s] *)
Definition match_url (s : string) : option (string * string) :=
  if has_prefix "url(" s then
    let '(q1, r) := opt_quote (drop 4 s) in
    let '(g, r) := span url_body_char r in
    if is_empty g then None
    else
      let '(q2, r) := opt_quote r in
      if has_prefix ")" r
      then Some ("url(" +:+ q1 +:+ g +:+ q2 +:+ ")", g)
      else None
  else None.

Definition newline : string := String "010" EmptyString.

(** The list [directories] of [_create_directories], in the order of the
    source. *)
Definition directories (self : cloner) : list string :=
  [ output_dir self;
    path_join (output_dir self) ["images"];
    path_join (output_dir self) ["css"];
    path_join (output_dir self) ["js"];
    path_join (output_dir self) ["html"];
    path_join (output_dir self) ["fonts"];
    path_join (output_dir self) ["assets"] ].

(** How a turn of the crawl loop ends. *)
Inductive turn :=
| Stop (r : result unit) (self : cloner)
| Next (pages_to_visit : gset string) (self : cloner).

Section Cloner.
Variable w : world.

Definition url_parse (url : string) : result ParseResult :=
  urlparse (bracketed_host_ok w) url "".

(** [for directory in directories: Path(directory).mkdir(parents=True,
    exist_ok=True)]: the first directory that cannot be made ends the
    loop with its exception. *)
Fixpoint mkdirs (ds : list string) : result unit :=
  match ds with
  | [] => Ok ()
  | d :: ds' => if mkdir_ok w d then mkdirs ds' else Raise OSError
  end.

Definition _create_directories (self : cloner) : result unit :=
  mkdirs (directories self).

(** [__init__]: the object is filled in, then the output tree is made.
    The directories themselves are not part of [files], which holds
    regular files only. *)
Definition new_cloner (base_url output_dir : string) : result cloner :=
  let? parsed := url_parse base_url in
  let self := mkCloner (rstrip (is_char "/") base_url) (netloc parsed) output_dir
                       ∅ ∅ ∅ ∅ ∅ [] ∅ [] in
  let? _ := _create_directories self in
  Ok self.

Definition _is_same_domain (self : cloner) (url : string) : result bool :=
  let? parsed := url_parse url in
  Ok (String.eqb (netloc parsed) (domain self)
      || String.eqb (netloc parsed) ""
      || String.eqb (netloc parsed) ("www." +:+ domain self)
      || String.eqb (netloc parsed) (replace (domain self) "www." "")).

Definition _normalize_url (self : cloner) (url : string) (base : option string)
    : result string :=
  if is_empty url || startswith url "data:" || startswith url "javascript:"
  then Ok ""
  else
    let base :=
      match base with
      | Some b => if is_empty b then base_url self else b
      | None => base_url self
      end in
    let? absolute_url := urljoin (bracketed_host_ok w) base url in
    let? parsed := url_parse absolute_url in
    Ok (urlunparse (replace_fragment parsed "")).

Definition _get_filename_from_url (url prefix : string) : result string :=
  let? parsed := url_parse url in
  let path := strip (is_char "/") (path parsed) in
  let path := if is_empty path || endswith path "/" then "index.html" else path in
  let filename := replace (replace path "/" "_") "\" "_" in
  let filename :=
    if contains_char filename "?" then hd EmptyString (split "?" filename)
    else filename in
  let filename :=
    if negb (contains_char filename ".") then filename +:+ ".html"
    else filename in
  Ok (prefix +:+ filename).

(** [requests.get(url, ...)] followed by [raise_for_status()] *)
Definition requests_get (k : kind) (url : string) : M string :=
  fun st =>
    let st' := set_requests_log (fun l => l ++ [(k, url)]) st in
    match http_get w (requests_log st) url with
    | Some body => (Ok body, st')
    | None => (Raise RequestException, st')
    end.

(** [with open(filepath, ...) as f: f.write(c)] *)
Definition write_file (filepath : string) (c : content) : M unit :=
  fun st =>
    if file_write_ok w (requests_log st) filepath
    then (Ok (), set_files (insert filepath c) st)
    else (Raise OSError, st).

Definition normalize (url : string) (base : option string) : M string :=
  fun self => (_normalize_url self url base, self).

Definition download_image (img_url : string) : M string :=
  let* known := gets (fun self => bool_decide (img_url ∈ downloaded_images self)) in
  if known then lift (_get_filename_from_url img_url "img_")
  else
    try_except
      (let* response := requests_get Image img_url in
       let* filename := lift (_get_filename_from_url img_url "img_") in
       let* out := gets output_dir in
       let filepath := path_join out ["images"; filename] in
       let* _ := write_file filepath (Data response) in
       let* _ := modify (set_downloaded_images (fun s => s ∪ {[img_url]})) in
       ret filename)
      (ret "").

Definition _download_font (font_url : string) : M string :=
  try_except
    (let* response := requests_get Font font_url in
     let* filename := lift (_get_filename_from_url font_url "font_") in
     let* out := gets output_dir in
     let filepath := path_join out ["fonts"; filename] in
     let* _ := write_file filepath (Data response) in
     ret filename)
    (ret "").

(** [replace_url(match)] inside [_process_css_urls] *)
Definition replace_url (css_url : string) (group0 url : string) : M string :=
  if startswith url "data:" || startswith url "../images/" then ret group0
  else
    let* absolute_url := normalize url (Some css_url) in
    if is_empty absolute_url then ret group0
    else if any_ext_in image_exts (lower absolute_url) then
      let* local_filename := download_image absolute_url in
      if negb (is_empty local_filename)
      then ret ("url(../images/" +:+ local_filename +:+ ")")
      else ret group0
    else if any_ext_in font_exts (lower absolute_url) then
      let* local_filename := _download_font absolute_url in
      if negb (is_empty local_filename)
      then ret ("url(../fonts/" +:+ local_filename +:+ ")")
      else ret group0
    else ret group0.

(** [re.sub(url_pattern, replace_url, s)]: matches are replaced from
    left to right; [skip] counts the characters of the last match that
    are still to be passed over. *)
Fixpoint css_sub (css_url : string) (skip : nat) (s : string) : M string :=
  match s with
  | EmptyString => ret EmptyString
  | String c s' =>
      match skip with
      | S k => css_sub css_url k s'
      | O =>
          match match_url s with
          | Some (group0, g) =>
              let* r := replace_url css_url group0 g in
              let* rest := css_sub css_url (String.length group0 - 1) s' in
              ret (r +:+ rest)
          | None =>
              let* rest := css_sub css_url 0 s' in
              ret (String c rest)
          end
      end
  end.

Definition _process_css_urls (css_content css_url : string) : M string :=
  css_sub css_url 0 css_content.

Definition download_css (css_url : string) : M string :=
  let* known := gets (fun self => bool_decide (css_url ∈ downloaded_css self)) in
  if known then lift (_get_filename_from_url css_url "style_")
  else
    try_except
      (let* response := requests_get Stylesheet css_url in
       let* filename := lift (_get_filename_from_url css_url "style_") in
       let* out := gets output_dir in
       let filepath := path_join out ["css"; filename] in
       let* css_content := _process_css_urls response css_url in
       let* _ := write_file filepath (Data css_content) in
       let* _ := modify (set_all_css_rules (insert css_url [css_content])) in
       let* _ := modify (set_downloaded_css (fun s => s ∪ {[css_url]})) in
       ret filename)
      (ret "").

Definition download_js (js_url : string) : M string :=
  let* known := gets (fun self => bool_decide (js_url ∈ downloaded_js self)) in
  if known then lift (_get_filename_from_url js_url "script_")
  else
    try_except
      (let* response := requests_get Script js_url in
       let* filename := lift (_get_filename_from_url js_url "script_") in
       let* out := gets output_dir in
       let filepath := path_join out ["js"; filename] in
       let* _ := write_file filepath (Data response) in
       let* _ := modify (set_downloaded_js (fun s => s ∪ {[js_url]})) in
       ret filename)
      (ret "").

(** [extract_inline_css]: the texts of the [<style>] elements *)
Definition style_strings (sp : soup) : list string :=
  omap (fun e =>
          if String.eqb (el_tag e) "style" then
            match el_string e with
            | Some s => if is_empty s then None else Some s
            | None => None
            end
          else None) sp.

Definition extract_inline_css (sp : soup) : M unit :=
  modify (set_inline_styles (fun l => l ++ style_strings sp)).

(** ** The loops of [scrape_page], one element at a time *)

(** [soup.find_all('link', rel='stylesheet')] selects [e] *)
Definition is_stylesheet_link (e : element) : bool :=
  String.eqb (el_tag e) "link" && in_list "stylesheet" (el_rel e).

(** [soup.find_all('link', rel=lambda x: x and 'icon' in x.lower())] *)
Definition is_icon_link (e : element) : bool :=
  String.eqb (el_tag e) "link" &&
  existsb (fun x => contains (lower x) "icon") (el_rel e).

Definition css_step (url : string) (link : element) : M element :=
  if is_stylesheet_link link then
    match el_get link "href" with
    | Some css_url =>
        if is_empty css_url then ret link
        else
          let* css_url := normalize css_url (Some url) in
          if is_empty css_url then ret link
          else
            let* local_css := download_css css_url in
            if is_empty local_css then ret link
            else ret (el_set link "href" ("../css/" +:+ local_css))
    | None => ret link
    end
  else ret link.

(** [img.get('src') or img.get('data-src')] *)
Definition img_source (img : element) : option string :=
  match el_get img "src" with
  | Some s => if is_empty s then el_get img "data-src" else Some s
  | None => el_get img "data-src"
  end.

Definition img_step (url : string) (img : element) : M element :=
  if String.eqb (el_tag img) "img" then
    match img_source img with
    | Some img_url =>
        if is_empty img_url then ret img
        else
          let* img_url := normalize img_url (Some url) in
          if negb (is_empty img_url) && negb (startswith img_url "data:") then
            let* local_img := download_image img_url in
            if is_empty local_img then ret img
            else ret (el_set img "src" ("../images/" +:+ local_img))
          else ret img
    | None => ret img
    end
  else ret img.

Definition style_step (url : string) (elem : element) : M element :=
  match el_get elem "style" with
  | Some style =>
      if contains style "background-image" || contains style "background:" then
        let* style' := _process_css_urls style url in
        ret (el_set elem "style" style')
      else ret elem
  | None => ret elem
  end.

Definition script_step (url : string) (script : element) : M element :=
  if String.eqb (el_tag script) "script" then
    match el_get script "src" with
    | Some js_url =>
        if is_empty js_url then ret script
        else
          let* js_url := normalize js_url (Some url) in
          if is_empty js_url then ret script
          else
            let* local_js := download_js js_url in
            if is_empty local_js then ret script
            else ret (el_set script "src" ("../js/" +:+ local_js))
    | None => ret script
    end
  else ret script.

Definition icon_step (url : string) (link : element) : M element :=
  if is_icon_link link then
    match el_get link "href" with
    | Some icon_url =>
        if is_empty icon_url then ret link
        else
          let* icon_url := normalize icon_url (Some url) in
          if is_empty icon_url then ret link
          else
            let* local_icon := download_image icon_url in
            if is_empty local_icon then ret link
            else ret (el_set link "href" ("../images/" +:+ local_icon))
    | None => ret link
    end
  else ret link.

(** [BeautifulSoup(markup, 'html.parser')] *)
Definition parse (markup : string) : M soup :=
  if parser_ok w markup then ret (html_parser w markup)
  else raise ParserRejectedMarkup.

(** the body of the [try] in [scrape_page] *)
Definition scrape_page_try (url : string) (save_html : bool) : M soup :=
  let* response := requests_get Page url in
  let* sp := parse response in
  let* _ := modify (set_visited_pages (fun s => s ∪ {[url]})) in
  let* _ := extract_inline_css sp in
  let* sp := mapM (css_step url) sp in
  let* sp := mapM (img_step url) sp in
  let* sp := mapM (style_step url) sp in
  let* sp := mapM (script_step url) sp in
  let* sp := mapM (icon_step url) sp in
  let* _ :=
    (if save_html then
       let* filename := lift (_get_filename_from_url url "page_") in
       let* out := gets output_dir in
       write_file (path_join out ["html"; filename]) (Data (prettify w sp))
     else ret ()) in
  ret sp.

(** [scrape_page]: [None] is Python's [None]. *)
Definition scrape_page (url : string) (save_html : bool) : M (option soup) :=
  let* seen := gets (fun self => bool_decide (url ∈ visited_pages self)) in
  if seen then ret None
  else
    try_except
      (let* sp := scrape_page_try url save_html in ret (Some sp))
      (ret None).

(** one turn of the loop of [find_internal_links] *)
Definition internal_link (self : cloner) (base_url : string) (link : element)
    : result (option string) :=
  if String.eqb (el_tag link) "a" then
    match el_get link "href" with
    | Some href =>
        let? absolute_url := _normalize_url self href (Some base_url) in
        if is_empty absolute_url then Ok None
        else
          let? same := _is_same_domain self absolute_url in
          if same && negb (any_ext_in non_html_exts (lower absolute_url))
          then Ok (Some absolute_url)
          else Ok None
    | None => Ok None
    end
  else Ok None.

Fixpoint find_internal_links (self : cloner) (sp : soup) (base_url : string)
    : result (gset string) :=
  match sp with
  | [] => Ok ∅
  | link :: rest =>
      let? l := internal_link self base_url link in
      let? ls := find_internal_links self rest base_url in
      Ok (match l with Some u => {[u]} ∪ ls | None => ls end)
  end.

(** [pages_to_visit.pop()]: some element of the set, the one the world
    names when it names a member. *)
Definition set_pop (log : list (kind * string)) (s : gset string) : option string :=
  match elements s with
  | [] => None
  | x :: _ =>
      let y := set_choice w log s in
      Some (if bool_decide (y ∈ s) then y else x)
  end.

(** One turn of the [while] loop of [scrape_full_site]: the loop test
    and, when it holds, the loop body.  [Stop] leaves the loop (the
    test failed, or an exception escaped), [Next] goes round again.
    [time.sleep] is not modelled, and the parameter [delay], which only
    feeds it, is left out with it. *)
Definition crawl_turn (max_pages : Z) (pages_to_visit : gset string)
    (self : cloner) : turn :=
  match set_pop (requests_log self) pages_to_visit with
  | None => Stop (Ok ()) self
  | Some url =>
      if negb (Z.of_nat (size (visited_pages self)) <? max_pages)%Z
      then Stop (Ok ()) self
      else
        let pages_to_visit := pages_to_visit ∖ {[url]} in
        if bool_decide (url ∈ visited_pages self)
        then Next pages_to_visit self
        else
          match scrape_page url true self with
          | (Ok (Some sp), self') =>
              match find_internal_links self' sp url with
              | Ok new_links =>
                  Next (pages_to_visit ∪ (new_links ∖ visited_pages self')) self'
              | Raise e => Stop (Raise e) self'
              end
          | (Ok None, self') => Next pages_to_visit self'
          | (Raise e, self') => Stop (Raise e) self'
          end
  end.

(** The loop itself.  [fuel] bounds the number of turns; [None] means
    that the bound was reached before the loop ended. *)
Fixpoint crawl (fuel : nat) (max_pages : Z) (pages_to_visit : gset string)
    (self : cloner) : option (result unit * cloner) :=
  match crawl_turn max_pages pages_to_visit self with
  | Stop r self' => Some (r, self')
  | Next pages_to_visit' self' =>
      match fuel with
      | O => None
      | S fuel' => crawl fuel' max_pages pages_to_visit' self'
      end
  end.

Definition inline_separator : string :=
  newline +:+ newline +:+ "/* ========================================= */"
  +:+ newline +:+ newline.

Definition make_summary (self : cloner) : summary :=
  mkSummary (base_url self)
    (size (visited_pages self)) (elements (visited_pages self))
    (size (downloaded_images self)) (elements (downloaded_images self))
    (size (downloaded_css self)) (elements (downloaded_css self))
    (size (downloaded_js self)) (elements (downloaded_js self))
    (length (inline_styles self)).

Definition _save_summary : M unit :=
  let* summary := gets make_summary in
  let* out := gets output_dir in
  let* _ := write_file (path_join out ["scrape_summary.json"]) (Json summary) in
  let* styles := gets inline_styles in
  match styles with
  | [] => ret ()
  | _ :: _ =>
      write_file (path_join out ["css"; "inline_styles.css"])
                 (Data (join inline_separator styles))
  end.

Definition scrape_full_site (fuel : nat) (max_pages : Z) (self : cloner)
    : option (result unit * cloner) :=
  match crawl fuel max_pages {[base_url self]} self with
  | Some (Ok _, self') => Some (_save_summary self')
  | other => other
  end.

End Cloner.

(* ===================================================================== *)
(** * Scenarios and vocabulary of the statements *)
(* ===================================================================== *)

(** Concrete worlds and pages on which the statements below are run, and
    the notions in which they are worded. *)

(** [count_requests k url log]: how often [url] was requested as a [k]. *)
Definition same_kind (a b : kind) : bool :=
  match a, b with
  | Page, Page | Image, Image | Stylesheet, Stylesheet
  | Script, Script | Font, Font => true
  | _, _ => false
  end.

Definition count_requests (k : kind) (url : string) (log : list (kind * string)) : nat :=
  length (List.filter (fun r => same_kind (fst r) k && String.eqb (snd r) url) log).

(** A world without network: every request fails, every write succeeds. *)
Definition offline : world :=
  mkWorld (fun _ _ => None) (fun _ _ => true) (fun _ => []) (fun _ => "")
          (fun _ _ => "") (fun _ => false) (fun _ => true) (fun _ => true).

(** The object that [WebsiteCloner(base_url, output_dir)] builds. *)
Definition cloner_for (w : world) (base_url output_dir : string) : cloner :=
  match new_cloner w base_url output_dir with
  | Ok c => c
  | Raise _ => mkCloner "" "" output_dir ∅ ∅ ∅ ∅ ∅ [] ∅ []
  end.

(** An anchor, an image, a stylesheet link. *)
Definition anchor (href : string) : element :=
  mkElement "a" [] {[ "href" := href ]} None.
Definition img (src : string) : element :=
  mkElement "img" [] {[ "src" := src ]} None.
Definition stylesheet_link (href : string) : element :=
  mkElement "link" ["stylesheet"] {[ "href" := href ]} None.

(** A site given as a table from URL to the anchors of its page; a URL
    outside the table fails.  The body of a page is its own URL. *)
Fixpoint lookup_page (site : list (string * list string)) (url : string)
    : option (list string) :=
  match site with
  | [] => None
  | (u, links) :: rest => if String.eqb u url then Some links else lookup_page rest url
  end.

Definition site_world (site : list (string * list string))
    (choice : list (kind * string) → gset string → string) : world :=
  mkWorld
    (fun _ url => match lookup_page site url with Some _ => Some url | None => None end)
    (fun _ _ => true)
    (fun body => match lookup_page site body with
                 | Some links => map anchor links
                 | None => []
                 end)
    (fun _ => "")
    choice
    (fun _ => false)
    (fun _ => true)
    (fun _ => true).

(** The home page of [example.com] holds one [mailto:] link. *)
Definition mailto_site : list (string * list string) :=
  [("https://example.com", ["mailto:someone@example.com"])].
Definition mailto_world : world := site_world mailto_site (fun _ _ => "").

(** Kinds of request: those that [_process_css_urls] can issue, and those
    issued for anything but a page. *)
Definition nested_kind (k : kind) : bool :=
  match k with Image | Font => true | _ => false end.

Definition asset_kind (k : kind) : bool :=
  match k with Page => false | _ => true end.

(** The part of [scrape_page] that runs once the page has been fetched,
    parsed and marked as visited. *)
Definition after_visit (w : world) (url : string) (save_html : bool) (sp : soup)
    : M soup :=
  let* _ := extract_inline_css sp in
  let* sp := mapM (css_step w url) sp in
  let* sp := mapM (img_step w url) sp in
  let* sp := mapM (style_step w url) sp in
  let* sp := mapM (script_step w url) sp in
  let* sp := mapM (icon_step w url) sp in
  let* _ :=
    (if save_html then
       let* filename := lift (_get_filename_from_url w url "page_") in
       let* out := gets output_dir in
       write_file w (path_join out ["html"; filename]) (Data (prettify w sp))
     else ret ()) in
  ret sp.

(** The state in which that part starts. *)
Definition visit (url : string) (st : cloner) : cloner :=
  set_visited_pages (fun s => s ∪ {[url]})
    (set_requests_log (fun l => l ++ [(Page, url)]) st).

(** What [find_internal_links] reads of an element: the [href] of an
    anchor. *)
Definition anchor_view (e : element) : option (option string) :=
  if String.eqb (el_tag e) "a" then Some (el_get e "href") else None.

(** The loop states that the crawl passes through: [crawl_reaches w m
    todo self todo' self'] when, started with the frontier [todo] on
    [self], the loop is at the head of a turn with [todo'] on [self']. *)
Inductive crawl_reaches (w : world) (max_pages : Z)
    : gset string → cloner → gset string → cloner → Prop :=
| reach_here todo self : crawl_reaches w max_pages todo self todo self
| reach_next todo self todo1 self1 todo2 self2 :
    crawl_turn w max_pages todo self = Next todo1 self1 →
    crawl_reaches w max_pages todo1 self1 todo2 self2 →
    crawl_reaches w max_pages todo self todo2 self2.

(** A site whose page [/f] cannot be fetched: the home page links to
    [/f] and [/g], and [/g] links to [/f] again.  [set.pop()] yields
    [/f] whenever it is in the frontier. *)
Definition broken_link_site : list (string * list string) :=
  [("https://example.com", ["/f"; "/g"]);
   ("https://example.com/g", ["/f"])].
Definition broken_link_world : world :=
  site_world broken_link_site (fun _ _ => "https://example.com/f").

(** A world given by a table from URL to body and a table from body to
    parsed page; a URL outside the first table fails. *)
Fixpoint table_get {A} (t : list (string * A)) (key : string) : option A :=
  match t with
  | [] => None
  | (k, v) :: rest => if String.eqb k key then Some v else table_get rest key
  end.

Definition table_world (bodies : list (string * string))
    (pages : list (string * soup)) : world :=
  mkWorld
    (fun _ url => table_get bodies url)
    (fun _ _ => true)
    (fun body => match table_get pages body with Some sp => sp | None => [] end)
    (fun _ => "")
    (fun _ _ => "")
    (fun _ => false)
    (fun _ => true)
    (fun _ => true).

(** [fetched_once w k downloaded download]: once [download] has fetched
    a URL with success, the URL is in the set [downloaded], it has been
    requested once more than before, and any later call made while it is
    in the set returns the same file name and leaves the object as it
    is, so issues no request. *)
Definition fetched_once (k : kind) (downloaded : cloner → gset string)
    (download : string → M string) : Prop :=
  ∀ url self f self1,
    url ∉ downloaded self →
    download url self = (Ok f, self1) →
    f ≠ "" →
    url ∈ downloaded self1 ∧
    count_requests k url (requests_log self1)
      = S (count_requests k url (requests_log self)) ∧
    ∀ self2, url ∈ downloaded self2 → download url self2 = (Ok f, self2).

(** A stylesheet that names the same font twice, on a site where
    [/missing.png] cannot be fetched. *)
Definition font_css : string :=
  "@font-face{src:url(a.woff)} h1{src:url(a.woff)}".
Definition font_world : world :=
  table_world
    [("https://example.com/site.css", font_css);
     ("https://example.com/a.woff", "WOFF")]
    [].

(** Two parsed URLs that differ only in their query string. *)
Definition differ_only_in_query (p1 p2 : ParseResult) : Prop :=
  scheme p1 = scheme p2 ∧ netloc p1 = netloc p2 ∧ path p1 = path p2 ∧
  params p1 = params p2 ∧ fragment p1 = fragment p2 ∧ query p1 ≠ query p2.

(** One picture served under two query strings. *)
Definition versioned_image_world : world :=
  table_world
    [("https://example.com/pic.png?v=1", "first");
     ("https://example.com/pic.png?v=2", "second")]
    [].

(** The home page of [example.test] links [styles.css], which names
    [../img/bg.png]; [png] is the content of the picture. *)
Definition stylesheet_scenario (png : string) : world :=
  table_world
    [("https://example.test", "<html>");
     ("https://example.test/styles.css", "body{background:url(../img/bg.png)}");
     ("https://example.test/img/bg.png", png)]
    [("<html>", [stylesheet_link "styles.css"])].

(** The page [/shop/] of [example.test] links a style sheet kept in
    [/static/css/], which names [../img/bg.png]: resolved against the
    style sheet the picture is [/static/img/bg.png], resolved against
    the page or against the site it would be [/img/bg.png], which is
    not served. *)
Definition nested_stylesheet_world (png : string) : world :=
  table_world
    [("https://example.test/shop/", "<html>");
     ("https://example.test/static/css/styles.css",
      "body{background:url(../img/bg.png)}");
     ("https://example.test/static/img/bg.png", png)]
    [("<html>", [stylesheet_link "../static/css/styles.css"])].

(** A page with one picture that cannot be fetched. *)
Definition broken_image_world : world :=
  table_world
    [("https://example.com", "<html>")]
    [("<html>", [img "logo.png"])].

(** [passes_over step k url e abs st]: run on [st], the turn of the loop
    [step] of the page [url] for the element [e] requests [abs] as a
    [k] and does nothing else; it gives back [e] itself, and the loop
    goes on with the elements that follow. *)
Definition passes_over (step : string → element → M element) (k : kind)
    (url : string) (e : element) (abs : string) (st : cloner) : Prop :=
  let st' := set_requests_log (fun l => l ++ [(k, abs)]) st in
  step url e st = (Ok e, st') ∧
  ∀ rest,
    mapM (step url) (e :: rest) st
      = (let* ys := mapM (step url) rest in ret (e :: ys)) st'.

(** ** Breadth-first order, as the specification words it

    A frontier that is a first-in-first-out queue: the URL at the head
    is visited, and the links of its page that have not been seen are
    appended in the order of the page.  [links] gives the internal links
    of a page. *)
Fixpoint fifo_order (fuel : nat) (links : string → list string)
    (queue seen : list string) : list string :=
  match fuel with
  | O => []
  | S fuel' =>
      match queue with
      | [] => []
      | url :: rest =>
          let fresh :=
            List.filter (fun v => negb (in_list v (url :: seen ++ rest)))
                        (links url) in
          url :: fifo_order fuel' links (rest ++ fresh) (url :: seen)
      end
  end.

(** A site of depth two: the home page links to [/p1] and [/p2], and
    [/p1] links to [/p3].  [set.pop()] yields [/p1] when it can, then
    [/p3]. *)
Definition two_level_site : list (string * list string) :=
  [("https://example.com",
      ["https://example.com/p1"; "https://example.com/p2"]);
   ("https://example.com/p1", ["https://example.com/p3"]);
   ("https://example.com/p2", []);
   ("https://example.com/p3", [])].

Definition two_level_links (url : string) : list string :=
  match lookup_page two_level_site url with
  | Some l => l
  | None => []
  end.

Definition deep_first_choice (_ : list (kind * string)) (s : gset string) : string :=
  if bool_decide ("https://example.com/p1" ∈ s) then "https://example.com/p1"
  else "https://example.com/p3".

Definition two_level_world : world := site_world two_level_site deep_first_choice.

(** The URLs that a crawl started on [self] can discover: the start URL,
    and the internal links of any page that a discovered URL has served
    (at some moment of the run) and that the parser accepts. *)
Inductive discoverable (w : world) (self : cloner) : string → Prop :=
| disc_start : discoverable w self (base_url self)
| disc_link url log body links target :
    discoverable w self url →
    http_get w log url = Some body →
    parser_ok w body = true →
    find_internal_links w self (html_parser w body) url = Ok links →
    target ∈ links →
    discoverable w self target.

(** ** The steps of [urlsplit]

    [urlsplit] is one function in the source; its three steps are named
    here so that each can be described on its own ([urlsplit_steps]
    below states that they make up [urlsplit]). *)

(** the scheme, when the text before the first [:] is one *)
Definition split_scheme (url scheme : string) : string * string :=
  match partition ":" url with
  | Some (String c0 pre' as pre, rest) =>
      if is_alpha c0 && forallb scheme_char pre
      then (lower pre, rest) else (scheme, url)
  | _ => (scheme, url)
  end.

(** the tests that [urlsplit] makes on the network location *)
Definition netloc_check (host_ok : string → bool) (nl : string) : result unit :=
  if (contains_char nl "[" && negb (contains_char nl "]")) ||
     (contains_char nl "]" && negb (contains_char nl "["))
  then Raise ValueError
  else if contains_char nl "[" && contains_char nl "]"
  then _check_bracketed_netloc host_ok nl
  else Ok ().

(** the network location, when the text begins with [//] *)
Definition split_netloc (host_ok : string → bool) (url : string)
    : result (string * string) :=
  if has_prefix "//" url then
    let '(nl, url) := _splitnetloc url 2 in
    let? _ := netloc_check host_ok nl in Ok (nl, url)
  else Ok (EmptyString, url).

(** the fragment and the query *)
Definition split_tail (scheme nl url : string) : SplitResult :=
  let '(url, fragment) :=
    match partition "#" url with
    | Some (u, f) => (u, f)
    | None => (url, EmptyString)
    end in
  let '(url, query) :=
    match partition "?" url with
    | Some (u, q) => (u, q)
    | None => (url, EmptyString)
    end in
  mkSplit scheme nl url query fragment.

(** Character classes of the parts of a URL. *)
Definition safe_char (c : ascii) : bool :=
  negb (Ascii.eqb c "009" || Ascii.eqb c "013" || Ascii.eqb c "010").

Definition path_char (c : ascii) : bool :=
  safe_char c && negb (Ascii.eqb c "?") && negb (Ascii.eqb c "#").

Definition query_char (c : ascii) : bool :=
  safe_char c && negb (Ascii.eqb c "#").

Definition host_char (c : ascii) : bool := safe_char c && netloc_char c.

(** A scheme as [urlsplit] returns it when it finds one. *)
Definition valid_scheme (s : string) : Prop :=
  match s with
  | EmptyString => False
  | String c _ => is_alpha c = true
  end ∧ forallb scheme_char s = true ∧ lower s = s.

(** [s] is empty or begins with a character that [p] rejects. *)
Definition stops (p : ascii → bool) (s : string) : Prop :=
  match s with
  | EmptyString => True
  | String c _ => p c = false
  end.

(** The path with its parameters, as [urlunparse] joins them. *)
Definition path_with_params (path params : string) : string :=
  if negb (is_empty params) then path +:+ ";" +:+ params else path.


(** The base against which [_normalize_url] resolves ([base or
    self.base_url]). *)
Definition effective_base (self : cloner) (base : option string) : string :=
  match base with
  | Some b => if is_empty b then base_url self else b
  | None => base_url self
  end.


(** ** How the methods change the object *)

(** [frame K s s']: between [s] and [s'] the configuration and the set
    of visited pages are unchanged, the download sets have only grown,
    and the requests issued are all of a kind accepted by [K]. *)
Record frame (K : kind → bool) (s s' : cloner) : Prop := mkFrame {
  fr_base_url : base_url s' = base_url s;
  fr_domain : domain s' = domain s;
  fr_output_dir : output_dir s' = output_dir s;
  fr_images : downloaded_images s ⊆ downloaded_images s';
  fr_css : downloaded_css s ⊆ downloaded_css s';
  fr_js : downloaded_js s ⊆ downloaded_js s';
  fr_visited : visited_pages s' = visited_pages s;
  fr_log : ∃ l, requests_log s' = requests_log s ++ l ∧
                Forall (fun r => K (fst r) = true) l }.

(** [keeps K m]: running [m] changes the object within [frame K]. *)
Definition keeps {A} (K : kind → bool) (m : M A) : Prop :=
  ∀ st r st', m st = (r, st') → frame K st st'.

(** The invariant of the crawl loop started on [self0]: the frontier
    holds discoverable URLs only, and so do the page requests issued
    since the start. *)
Definition crawl_inv (w : world) (self0 : cloner) (todo : gset string)
    (st : cloner) : Prop :=
  base_url st = base_url self0 ∧
  domain st = domain self0 ∧
  (∀ u, u ∈ todo → discoverable w self0 u) ∧
  (∀ u, (Page, u) ∈ requests_log st →
        (Page, u) ∈ requests_log self0 ∨ discoverable w self0 u).

(** ** The output tree *)

(** [path] names a file that lies directly in one of the [directories]
    of the object. *)
Definition in_output_tree (self : cloner) (path : string) : Prop :=
  ∃ dir name,
    dir ∈ directories self ∧
    path = path_join dir [name] ∧
    name ≠ "" ∧ contains_char name "/" = false.

(** [writes_in_tree s s']: between [s] and [s'] the output directory is
    the same, no file has been removed, and every file that has been
    written lies in the output tree. *)
Record writes_in_tree (s s' : cloner) : Prop := mkWritesInTree {
  wt_out : output_dir s' = output_dir s;
  wt_files : ∀ path,
    files s' !! path = files s !! path ∨
    (in_output_tree s path ∧ is_Some (files s' !! path)) }.

(** [within R m]: running [m] takes the object from a state to one
    related to it by [R], whatever the outcome. *)
Definition within {A} (R : cloner → cloner → Prop) (m : M A) : Prop :=
  ∀ st r st', m st = (r, st') → R st st'.

(** The URLs of [urls] have a file in the directory [sub], under the
    name that [_get_filename_from_url] gives them with [prefix]. *)
Definition on_disk (w : world) (st : cloner) (prefix sub : string)
    (urls : gset string) : Prop :=
  ∀ u, u ∈ urls →
    ∃ f, _get_filename_from_url w u prefix = Ok f ∧
         is_Some (files st !! path_join (output_dir st) [sub; f]).

(** The download sets agree with the disk and with [all_css_rules]:
    every URL recorded as downloaded has its file, and the style sheets
    recorded are those for which [all_css_rules] keeps a text, exactly
    one for each. *)
Record mirrored (w : world) (st : cloner) : Prop := mkMirrored {
  mi_images : on_disk w st "img_" "images" (downloaded_images st);
  mi_css : on_disk w st "style_" "css" (downloaded_css st);
  mi_js : on_disk w st "script_" "js" (downloaded_js st);
  mi_rules : ∀ u, u ∈ downloaded_css st ↔ is_Some (all_css_rules st !! u);
  mi_single : ∀ u l, all_css_rules st !! u = Some l → length l = 1 }.

(** The relation that an operation keeping [mirrored] maintains. *)
Definition keeps_mirrored (w : world) (s s' : cloner) : Prop :=
  mirrored w s → mirrored w s'.

(** The list of inline styles is the same in [s] and [s']. *)
Definition same_styles (s s' : cloner) : Prop :=
  inline_styles s' = inline_styles s.

(** The loops of [scrape_page] over the elements of the page, and the
    saving of the page: what [after_visit] runs once the inline styles
    have been collected. *)
Definition page_assets (w : world) (url : string) (save_html : bool) (sp : soup)
    : M soup :=
  let* sp := mapM (css_step w url) sp in
  let* sp := mapM (img_step w url) sp in
  let* sp := mapM (style_step w url) sp in
  let* sp := mapM (script_step w url) sp in
  let* sp := mapM (icon_step w url) sp in
  let* _ :=
    (if save_html then
       let* filename := lift (_get_filename_from_url w url "page_") in
       let* out := gets output_dir in
       write_file w (path_join out ["html"; filename]) (Data (prettify w sp))
     else ret ()) in
  ret sp.

(** The saving of the page in [scrape_page]. *)
Definition save_page (w : world) (url : string) (save_html : bool) (sp : soup)
    : M unit :=
  if save_html then
    let* filename := lift (_get_filename_from_url w url "page_") in
    let* out := gets output_dir in
    write_file w (path_join out ["html"; filename]) (Data (prettify w sp))
  else ret ().

(** ** What [scrape_page] changes in a page *)

(** A reference to a local copy, as [scrape_page] writes them. *)
Definition local_ref (v : string) : bool :=
  startswith v "../css/" || startswith v "../images/" || startswith v "../js/".

(** [rewritten e b]: [b] is [e] but for its [style] attribute and for
    [href] and [src], each of which is as in [e] or is a reference to a
    local copy. *)
Definition rewritten (e b : element) : Prop :=
  el_tag b = el_tag e ∧ el_rel b = el_rel e ∧ el_string b = el_string e ∧
  (∀ name, name ≠ "href" → name ≠ "src" → name ≠ "style" →
     el_get b name = el_get e name) ∧
  (∀ name, name = "href" ∨ name = "src" →
     el_get b name = el_get e name ∨
     ∃ v, el_get b name = Some v ∧ local_ref v = true).

(** The requests of [s'] are those of [s] followed by others. *)
Definition log_extends (s s' : cloner) : Prop :=
  ∃ l, requests_log s' = requests_log s ++ l.

(** ** Fragments *)

(** Two outcomes of [urlparse] that agree but for the fragment. *)
Definition same_but_fragment (r r' : result ParseResult) : Prop :=
  match r, r' with
  | Ok p, Ok p' => replace_fragment p "" = replace_fragment p' ""
  | Raise e, Raise e' => e = e'
  | _, _ => False
  end.

(** Two texts that are one text followed, each, by nothing or by a [#]
    and a fragment. *)
Definition same_before_fragment (j j' : string) : Prop :=
  ∃ core t t',
    j = core +:+ t ∧ j' = core +:+ t' ∧
    stops (fun c => negb (Ascii.eqb c "#")) t ∧
    stops (fun c => negb (Ascii.eqb c "#")) t'.

(** ** More scenarios *)

(** The home page of [example.com] holds three [<style>] elements, the
    second one empty, and a paragraph. *)
Definition styled_world : world :=
  table_world
    [("https://example.com", "<html>")]
    [("<html>",
      [ mkElement "style" [] ∅ (Some "h1{color:red}");
        mkElement "style" [] ∅ None;
        mkElement "p" [] ∅ (Some "text");
        mkElement "style" [] ∅ (Some "p{margin:0}") ])].

(** The home page of [example.com] holds a link that [urllib.parse]
    rejects (an unclosed bracket in the host). *)
Definition bad_href_world : world :=
  site_world [("https://example.com", ["/about"; "http://["])] (fun _ _ => "").

(** [only_adds s s']: from [s] to [s'] the configuration is unchanged
    and nothing has been forgotten: the sets have only grown, no file
    and no entry of [all_css_rules] has been removed, and the inline
    styles and the requests of [s] begin those of [s']. *)
Record only_adds (s s' : cloner) : Prop := mkOnlyAdds {
  oa_base_url : base_url s' = base_url s;
  oa_domain : domain s' = domain s;
  oa_output_dir : output_dir s' = output_dir s;
  oa_visited : visited_pages s ⊆ visited_pages s';
  oa_images : downloaded_images s ⊆ downloaded_images s';
  oa_css : downloaded_css s ⊆ downloaded_css s';
  oa_js : downloaded_js s ⊆ downloaded_js s';
  oa_rules : ∀ u, is_Some (all_css_rules s !! u) → is_Some (all_css_rules s' !! u);
  oa_styles : ∃ l, inline_styles s' = inline_styles s ++ l;
  oa_files : ∀ p, is_Some (files s !! p) → is_Some (files s' !! p);
  oa_log : ∃ l, requests_log s' = requests_log s ++ l }.

(** ** The entry point *)

(** [main()]: the cloner of [https://ox-fleetcare.com/] into [output],
    run on at most 50 pages.  The outer result is that of the
    constructor; [fuel] bounds the turns of the crawl. *)
Definition main (w : world) (fuel : nat) : result (option (result unit * cloner)) :=
  let target_url := "https://ox-fleetcare.com/" in
  let? cloner := new_cloner w target_url "output" in
  Ok (scrape_full_site w fuel 50 cloner).

(* ===================================================================== *)
(** * Facts about the string primitives *)
(* ===================================================================== *)

Lemma is_empty_true (s : string) : is_empty s = true ↔ s = EmptyString.
Proof. destruct s; simpl; split; congruence. Qed.

Lemma is_empty_false (s : string) : is_empty s = false ↔ s ≠ EmptyString.
Proof. destruct s; simpl; split; congruence. Qed.

Lemma string_eqb_true (a b : string) : String.eqb a b = true ↔ a = b.
Proof. apply String.eqb_eq. Qed.

Lemma string_eqb_false (a b : string) : String.eqb a b = false ↔ a ≠ b.
Proof. apply String.eqb_neq. Qed.

(** Replacing a text that does not occur changes nothing. *)
Lemma replace_absent (s old new : string) :
  contains s old = false → replace s old new = s.
Proof.
  unfold replace. induction s as [|a s IH]; intros H; [reflexivity|].
  cbn [contains] in H. apply orb_false_iff in H as [Hp Hc].
  cbn [replace_from]. rewrite Hp. f_equal. auto.
Qed.



(* ===================================================================== *)
(** * The same-domain test *)
(* ===================================================================== *)

Section SameDomain.
Variable w : world.

Lemma same_domain_of_netloc (self : cloner) (url : string) (p : ParseResult) :
  url_parse w url = Ok p →
  _is_same_domain w self url =
    Ok (String.eqb (netloc p) (domain self)
        || String.eqb (netloc p) ""
        || String.eqb (netloc p) ("www." +:+ domain self)
        || String.eqb (netloc p) (replace (domain self) "www." "")).
Proof. intros H. unfold _is_same_domain. rewrite H. reflexivity. Qed.



(** [replace] also removes a [www.] inside the bare domain: with the
    site [www.mywww.com], the host [mywww.com] is not internal. *)
Lemma same_domain_inner_www (self : cloner) :
  domain self = "www.mywww.com" →
  _is_same_domain w self "https://mywww.com/" = Ok false.
Proof. intros H. unfold _is_same_domain. rewrite H. vm_compute. reflexivity. Qed.

(** The network location is empty: the URL counts as internal. *)
Lemma same_domain_empty_netloc (self : cloner) (url : string) (p : ParseResult) :
  url_parse w url = Ok p →
  netloc p = "" →
  _is_same_domain w self url = Ok true.
Proof.
  intros H Hn. rewrite (same_domain_of_netloc _ _ _ H), Hn.
  cbn [String.eqb]. rewrite orb_true_r. reflexivity.
Qed.

End SameDomain.



(* ===================================================================== *)
(** * Links without a network location *)
(* ===================================================================== *)

Lemma find_internal_links_cons (w : world) (self : cloner) (e : element)
    (rest : soup) (base : string) :
  find_internal_links w self (e :: rest) base =
    (let? l := internal_link w self base e in
     let? ls := find_internal_links w self rest base in
     Ok (match l with Some u => {[u]} ∪ ls | None => ls end)).
Proof. reflexivity. Qed.

(** An anchor whose normalized target has no network location and none
    of the excluded extensions is an internal link. *)
Lemma internal_link_empty_netloc (w : world) (self : cloner)
    (base href target : string) (p : ParseResult) :
  _normalize_url w self href (Some base) = Ok target →
  target ≠ "" →
  url_parse w target = Ok p →
  netloc p = "" →
  any_ext_in non_html_exts (lower target) = false →
  internal_link w self base (anchor href) = Ok (Some target).
Proof.
  intros Hn Ht Hp Hnl Hext. unfold internal_link.
  change (String.eqb (el_tag (anchor href)) "a") with true. cbv iota.
  replace (el_get (anchor href) "href") with (Some href)
    by (symmetry; apply lookup_singleton_eq).
  rewrite Hn. cbn [rbind]. apply is_empty_false in Ht. rewrite Ht.
  rewrite (same_domain_empty_netloc w self target p Hp Hnl).
  cbn [rbind]. rewrite Hext. reflexivity.
Qed.

(** C10. [_is_same_domain] returns [True] for every URL whose parsed
    network location is empty; so a [mailto:] link is classified as
    internal by [find_internal_links], and the crawl puts it in the
    frontier and requests it as a page. *)
Theorem empty_netloc_is_internal (w : world) :
  (∀ self url p, url_parse w url = Ok p → netloc p = "" →
     _is_same_domain w self url = Ok true) ∧
  (∀ self,
     find_internal_links w self [anchor "mailto:someone@example.com"]
       "https://example.com/contact" = Ok {[ "mailto:someone@example.com" ]}) ∧
  (∃ self',
     scrape_full_site mailto_world 2 50
       (cloner_for mailto_world "https://example.com/" "output") = Some (Ok (), self') ∧
     requests_log self' =
       [(Page, "https://example.com"); (Page, "mailto:someone@example.com")]).
Proof.
  split; [|split].
  - apply same_domain_empty_netloc.
  - intros self. rewrite find_internal_links_cons.
    rewrite (internal_link_empty_netloc w self _ _ "mailto:someone@example.com"
               (mkParse "mailto" "" "someone@example.com" "" "" ""));
      try (vm_compute; reflexivity).
    discriminate.
  - eexists. split; vm_compute; reflexivity.
Qed.

Lemma empty_netloc_is_internal_witness :
  _is_same_domain offline (cloner_for offline "https://example.com" "output")
    "mailto:someone@example.com" = Ok true.
Proof.
  apply (proj1 (empty_netloc_is_internal offline) _ _
           (mkParse "mailto" "" "someone@example.com" "" "" ""));
    vm_compute; reflexivity.
Defined.

(* ===================================================================== *)
(** * How the methods change the object *)
(* ===================================================================== *)

Lemma frame_refl K s : frame K s s.
Proof.
  split; try reflexivity. exists []. split; [by rewrite app_nil_r | constructor].
Qed.

Lemma frame_trans K s1 s2 s3 : frame K s1 s2 → frame K s2 s3 → frame K s1 s3.
Proof.
  intros [b1 d1 o1 i1 c1 j1 v1 (l1 & e1 & f1)] [b2 d2 o2 i2 c2 j2 v2 (l2 & e2 & f2)].
  split; try congruence; try (etrans; eassumption).
  exists (l1 ++ l2). split.
  - rewrite e2, e1, app_assoc. reflexivity.
  - apply Forall_app; auto.
Qed.

Lemma frame_weaken (K K' : kind → bool) s s' :
  (∀ k, K k = true → K' k = true) → frame K s s' → frame K' s s'.
Proof.
  intros HK [b d o i c j v (l & e & f)]. split; try assumption.
  exists l. split; [assumption|]. eapply Forall_impl; [exact f|].
  intros r. apply HK.
Qed.

Lemma keeps_ret {A} K (a : A) : keeps K (ret a).
Proof. intros st r st' [= <- <-]. apply frame_refl. Qed.

Lemma keeps_lift {A} K (x : result A) : keeps K (lift x).
Proof. intros st r st' [= <- <-]. apply frame_refl. Qed.

Lemma keeps_gets {A} K (f : cloner → A) : keeps K (gets f).
Proof. intros st r st' [= <- <-]. apply frame_refl. Qed.

Lemma keeps_bind {A B} K (m : M A) (f : A → M B) :
  keeps K m → (∀ a, keeps K (f a)) → keeps K (bind m f).
Proof.
  intros Hm Hf st r st'. unfold bind.
  destruct (m st) as [[a|e] st1] eqn:E; intros H.
  - eapply frame_trans; [eapply Hm, E | eapply Hf, H].
  - injection H as <- <-. eapply Hm, E.
Qed.

Lemma keeps_try {A} K (m h : M A) : keeps K m → keeps K h → keeps K (try_except m h).
Proof.
  intros Hm Hh st r st'. unfold try_except.
  destruct (m st) as [[a|e] st1] eqn:E; intros H.
  - injection H as <- <-. eapply Hm, E.
  - eapply frame_trans; [eapply Hm, E | eapply Hh, H].
Qed.

Lemma keeps_mapM {A B} K (f : A → M B) (l : list A) :
  (∀ a, keeps K (f a)) → keeps K (mapM f l).
Proof.
  intros Hf. induction l as [|x xs IH]; cbn [mapM].
  - apply keeps_ret.
  - apply keeps_bind; [apply Hf|]. intros y.
    apply keeps_bind; [apply IH|]. intros ys. apply keeps_ret.
Qed.

Lemma keeps_if {A} K (b : bool) (m1 m2 : M A) :
  keeps K m1 → keeps K m2 → keeps K (if b then m1 else m2).
Proof. destruct b; auto. Qed.

Lemma keeps_weaken {A} (K K' : kind → bool) (m : M A) :
  (∀ k, K k = true → K' k = true) → keeps K m → keeps K' m.
Proof. intros HK Hm st r st' H. eapply frame_weaken; [exact HK | eapply Hm, H]. Qed.

Section Frames.
Variable w : world.

Lemma keeps_requests_get K k url : K k = true → keeps K (requests_get w k url).
Proof.
  intros HK st r st' H. unfold requests_get in H.
  assert (st' = set_requests_log (fun l => l ++ [(k, url)]) st) as ->
    by (destruct (http_get w (requests_log st) url); congruence).
  split; try reflexivity. exists [(k, url)]. split; [reflexivity|].
  constructor; [exact HK | constructor].
Qed.

Lemma keeps_write_file K path c : keeps K (write_file w path c).
Proof.
  intros st r st' H. unfold write_file in H.
  destruct (file_write_ok w (requests_log st) path); injection H as <- <-.
  - split; try reflexivity. exists []. split; [by rewrite app_nil_r | constructor].
  - apply frame_refl.
Qed.

Lemma keeps_normalize K url base : keeps K (normalize w url base).
Proof. intros st r st' [= <- <-]. apply frame_refl. Qed.

Lemma keeps_add_image K url :
  keeps K (modify (set_downloaded_images (fun s => s ∪ {[url]}))).
Proof.
  intros st r st' [= <- <-]. split; try reflexivity.
  - cbn. set_solver.
  - exists []. split; [by rewrite app_nil_r | constructor].
Qed.

Lemma keeps_add_css K url :
  keeps K (modify (set_downloaded_css (fun s => s ∪ {[url]}))).
Proof.
  intros st r st' [= <- <-]. split; try reflexivity.
  - cbn. set_solver.
  - exists []. split; [by rewrite app_nil_r | constructor].
Qed.

Lemma keeps_add_js K url :
  keeps K (modify (set_downloaded_js (fun s => s ∪ {[url]}))).
Proof.
  intros st r st' [= <- <-]. split; try reflexivity.
  - cbn. set_solver.
  - exists []. split; [by rewrite app_nil_r | constructor].
Qed.

Lemma keeps_set_rules K f : keeps K (modify (set_all_css_rules f)).
Proof.
  intros st r st' [= <- <-]. split; try reflexivity.
  exists []. split; [by rewrite app_nil_r | constructor].
Qed.

Lemma keeps_set_styles K f : keeps K (modify (set_inline_styles f)).
Proof.
  intros st r st' [= <- <-]. split; try reflexivity.
  exists []. split; [by rewrite app_nil_r | constructor].
Qed.

End Frames.

Section DownloadFrames.
Variable w : world.

Ltac keeps_step :=
  first
    [ apply keeps_ret | apply keeps_lift | apply keeps_gets
    | apply keeps_normalize | apply keeps_write_file
    | apply keeps_add_image | apply keeps_add_css | apply keeps_add_js
    | apply keeps_set_rules | apply keeps_set_styles
    | apply keeps_requests_get; reflexivity
    | apply keeps_try
    | apply keeps_if
    | apply keeps_bind; [|intros ?] ].

Lemma keeps_download_image url : keeps nested_kind (download_image w url).
Proof. unfold download_image. repeat keeps_step. Qed.

Lemma keeps_download_font url : keeps nested_kind (_download_font w url).
Proof. unfold _download_font. repeat keeps_step. Qed.

Lemma keeps_replace_url css_url g0 url : keeps nested_kind (replace_url w css_url g0 url).
Proof.
  unfold replace_url.
  repeat first [ apply keeps_download_image | apply keeps_download_font | keeps_step ].
Qed.

Lemma keeps_css_sub css_url s : ∀ skip, keeps nested_kind (css_sub w css_url skip s).
Proof.
  induction s as [|c s IH]; intros skip; cbn [css_sub]; [apply keeps_ret|].
  destruct skip as [|k]; [|apply IH].
  destruct (match_url (String c s)) as [[g0 g]|].
  - apply keeps_bind; [apply keeps_replace_url|]. intros r.
    apply keeps_bind; [apply IH|]. intros rest. apply keeps_ret.
  - apply keeps_bind; [apply IH|]. intros rest. apply keeps_ret.
Qed.

Lemma keeps_process_css css url : keeps nested_kind (_process_css_urls w css url).
Proof. apply keeps_css_sub. Qed.

Lemma keeps_download_css url : keeps asset_kind (download_css w url).
Proof.
  unfold download_css.
  repeat first
    [ apply (keeps_weaken nested_kind asset_kind);
        [intros []; simpl; congruence | apply keeps_process_css]
    | keeps_step ].
Qed.

Lemma keeps_download_js url : keeps asset_kind (download_js w url).
Proof. unfold download_js. repeat keeps_step. Qed.

Lemma keeps_download_image' url : keeps asset_kind (download_image w url).
Proof.
  apply (keeps_weaken nested_kind asset_kind);
    [intros []; simpl; congruence | apply keeps_download_image].
Qed.

Lemma keeps_css_step url e : keeps asset_kind (css_step w url e).
Proof.
  unfold css_step. destruct (is_stylesheet_link e); [|apply keeps_ret].
  destruct (el_get e "href"); [|apply keeps_ret].
  repeat first [ apply keeps_download_css | keeps_step ].
Qed.

Lemma keeps_img_step url e : keeps asset_kind (img_step w url e).
Proof.
  unfold img_step. destruct (String.eqb (el_tag e) "img"); [|apply keeps_ret].
  destruct (img_source e); [|apply keeps_ret].
  repeat first [ apply keeps_download_image' | keeps_step ].
Qed.

Lemma keeps_style_step url e : keeps asset_kind (style_step w url e).
Proof.
  unfold style_step. destruct (el_get e "style"); [|apply keeps_ret].
  repeat first
    [ apply (keeps_weaken nested_kind asset_kind);
        [intros []; simpl; congruence | apply keeps_process_css]
    | keeps_step ].
Qed.

Lemma keeps_script_step url e : keeps asset_kind (script_step w url e).
Proof.
  unfold script_step. destruct (String.eqb (el_tag e) "script"); [|apply keeps_ret].
  destruct (el_get e "src"); [|apply keeps_ret].
  repeat first [ apply keeps_download_js | keeps_step ].
Qed.

Lemma keeps_icon_step url e : keeps asset_kind (icon_step w url e).
Proof.
  unfold icon_step. destruct (is_icon_link e); [|apply keeps_ret].
  destruct (el_get e "href"); [|apply keeps_ret].
  repeat first [ apply keeps_download_image' | keeps_step ].
Qed.

End DownloadFrames.

(* ===================================================================== *)
(** * The constructor *)
(* ===================================================================== *)

(** An object that [__init__] has built: the URL has been parsed, the
    object is the initial one and its directories have been made. *)
Lemma new_cloner_inv (w : world) (b out : string) (self : cloner) :
  new_cloner w b out = Ok self →
  ∃ p, url_parse w b = Ok p ∧
       self = mkCloner (rstrip (is_char "/") b) (netloc p) out ∅ ∅ ∅ ∅ ∅ [] ∅ [] ∧
       _create_directories w self = Ok ().
Proof.
  unfold new_cloner. destruct (url_parse w b) as [p|e]; [|discriminate].
  cbn [rbind].
  destruct (_create_directories w _) as [[]|e] eqn:E; [|discriminate].
  cbn [rbind]. intros [= <-]. exists p. auto.
Qed.

(* ===================================================================== *)
(** * One page *)
(* ===================================================================== *)

Section ScrapePage.
Variable w : world.

Lemma scrape_page_try_unfold url b st :
  scrape_page_try w url b st =
    match http_get w (requests_log st) url with
    | Some body =>
        if parser_ok w body
        then after_visit w url b (html_parser w body) (visit url st)
        else (Raise ParserRejectedMarkup,
              set_requests_log (fun l => l ++ [(Page, url)]) st)
    | None => (Raise RequestException,
               set_requests_log (fun l => l ++ [(Page, url)]) st)
    end.
Proof.
  unfold scrape_page_try, after_visit, visit, bind at 1, requests_get.
  destruct (http_get w (requests_log st) url) as [body|]; [|reflexivity].
  unfold bind at 1, parse. destruct (parser_ok w body); reflexivity.
Qed.

Lemma keeps_after_visit url b sp : keeps asset_kind (after_visit w url b sp).
Proof.
  unfold after_visit, extract_inline_css.
  repeat first
    [ apply keeps_set_styles | apply keeps_ret | apply keeps_lift
    | apply keeps_gets | apply keeps_write_file | apply keeps_if
    | apply keeps_mapM; intros ?;
      first [ apply keeps_css_step | apply keeps_img_step
            | apply keeps_style_step | apply keeps_script_step
            | apply keeps_icon_step ]
    | apply keeps_bind; [|intros ?] ].
Qed.

(** A fetch that fails: [scrape_page] returns [None] and the only
    trace is the request. *)
Lemma scrape_page_fetch_failed url b st :
  url ∉ visited_pages st →
  http_get w (requests_log st) url = None →
  scrape_page w url b st =
    (Ok None, set_requests_log (fun l => l ++ [(Page, url)]) st).
Proof.
  intros Hv Hg. unfold scrape_page, bind at 1, gets.
  rewrite (bool_decide_eq_false_2 _ Hv).
  unfold try_except, bind. rewrite scrape_page_try_unfold, Hg. reflexivity.
Qed.

(** A page that the parser rejects: as for a failed fetch. *)
Lemma scrape_page_rejected url b st body :
  url ∉ visited_pages st →
  http_get w (requests_log st) url = Some body →
  parser_ok w body = false →
  scrape_page w url b st =
    (Ok None, set_requests_log (fun l => l ++ [(Page, url)]) st).
Proof.
  intros Hv Hg Hp. unfold scrape_page, bind at 1, gets.
  rewrite (bool_decide_eq_false_2 _ Hv).
  unfold try_except, bind. rewrite scrape_page_try_unfold, Hg, Hp. reflexivity.
Qed.

Lemma scrape_page_seen url b st :
  url ∈ visited_pages st → scrape_page w url b st = (Ok None, st).
Proof.
  intros Hv. unfold scrape_page, bind at 1, gets.
  rewrite (bool_decide_eq_true_2 _ Hv). reflexivity.
Qed.

(** A fetch that succeeds on markup that the parser accepts: whatever
    happens next, the page is marked as visited and only assets are
    requested. *)
Lemma scrape_page_fetched url b st body :
  url ∉ visited_pages st →
  http_get w (requests_log st) url = Some body →
  parser_ok w body = true →
  ∃ o st',
    scrape_page w url b st = (Ok o, st') ∧
    frame asset_kind (visit url st) st' ∧
    (∀ sp, o = Some sp →
       after_visit w url b (html_parser w body) (visit url st) = (Ok sp, st')).
Proof.
  intros Hv Hg Hp. unfold scrape_page, bind at 1, gets.
  rewrite (bool_decide_eq_false_2 _ Hv).
  unfold try_except, bind. rewrite scrape_page_try_unfold, Hg, Hp.
  destruct (after_visit w url b (html_parser w body) (visit url st))
    as [[sp|e] st'] eqn:E.
  - exists (Some sp), st'. split; [reflexivity|]. split.
    + eapply keeps_after_visit, E.
    + intros sp' [= <-]. reflexivity.
  - exists None, st'. split; [reflexivity|]. split.
    + eapply keeps_after_visit, E.
    + intros sp' [=].
Qed.

(** The three ways in which [scrape_page] ends: the URL had been
    visited; the fetch or the parser failed; the page was fetched,
    parsed and marked, and the rest of the function ran. *)
Lemma scrape_page_outcome url b st r st' :
  scrape_page w url b st = (r, st') →
  (url ∈ visited_pages st ∧ r = Ok None ∧ st' = st) ∨
  ((url ∉ visited_pages st) ∧ r = Ok None ∧
   st' = set_requests_log (fun l => l ++ [(Page, url)]) st ∧
   match http_get w (requests_log st) url with
   | Some body => parser_ok w body = false
   | None => True
   end) ∨
  ((url ∉ visited_pages st) ∧
   ∃ body r1,
     http_get w (requests_log st) url = Some body ∧
     parser_ok w body = true ∧
     after_visit w url b (html_parser w body) (visit url st) = (r1, st') ∧
     r = match r1 with Ok sp => Ok (Some sp) | Raise _ => Ok None end).
Proof.
  intros H. destruct (decide (url ∈ visited_pages st)) as [Hv|Hv].
  { rewrite (scrape_page_seen url b st Hv) in H. injection H as <- <-. by left. }
  right. destruct (http_get w (requests_log st) url) as [body|] eqn:Hg.
  - destruct (parser_ok w body) eqn:Hp.
    + right. split; [exact Hv|]. exists body.
      unfold scrape_page, bind at 1, gets in H.
      rewrite (bool_decide_eq_false_2 _ Hv) in H.
      unfold try_except, bind in H. rewrite scrape_page_try_unfold, Hg, Hp in H.
      destruct (after_visit w url b (html_parser w body) (visit url st))
        as [[sp|e] s1] eqn:E; injection H as <- <-.
      * exists (Ok sp). auto.
      * exists (Raise e). auto.
    + left. rewrite (scrape_page_rejected url b st body Hv Hg Hp) in H.
      injection H as <- <-. auto.
  - left. rewrite (scrape_page_fetch_failed url b st Hv Hg) in H.
    injection H as <- <-. auto.
Qed.

End ScrapePage.

(* ===================================================================== *)
(** * The crawl loop: page cap and termination *)
(* ===================================================================== *)

Section CrawlLoop.
Variable w : world.

Lemma set_pop_elem log (s : gset string) url : set_pop w log s = Some url → url ∈ s.
Proof.
  unfold set_pop. destruct (elements s) as [|x xs] eqn:E; [discriminate|].
  intros [= <-]. case_bool_decide; [assumption|].
  apply elem_of_elements. rewrite E. left.
Qed.

Lemma set_pop_none log (s : gset string) : set_pop w log s = None → s = ∅.
Proof.
  unfold set_pop. destruct (elements s) as [|x xs] eqn:E; [|discriminate].
  intros _. apply elements_empty_inv in E. apply leibniz_equiv, E.
Qed.

(** What a turn does to the set of visited pages and to the frontier. *)
Lemma crawl_turn_cases max_pages todo self :
  match crawl_turn w max_pages todo self with
  | Stop r self' =>
      self' = self ∨
      ((Z.of_nat (size (visited_pages self)) < max_pages)%Z ∧
       ∃ url, (url ∉ visited_pages self) ∧
              (visited_pages self' = visited_pages self ∪ {[url]}))
  | Next todo' self' =>
      (Z.of_nat (size (visited_pages self)) < max_pages)%Z ∧
      ∃ url, url ∈ todo ∧
        ((visited_pages self' = visited_pages self ∧ todo' = todo ∖ {[url]}) ∨
         ((url ∉ visited_pages self) ∧
          (visited_pages self' = visited_pages self ∪ {[url]})))
  end.
Proof.
  unfold crawl_turn.
  destruct (set_pop w (requests_log self) todo) as [url|] eqn:Hpop; [|by left].
  apply set_pop_elem in Hpop.
  destruct (Z.ltb_spec (Z.of_nat (size (visited_pages self))) max_pages) as [Hlt|Hge];
    cbn [negb]; [|by left].
  case_bool_decide as Hv.
  { split; [assumption|]. exists url. split; [assumption|]. by left. }
  destruct (http_get w (requests_log self) url) as [body|] eqn:Hg.
  - destruct (parser_ok w body) eqn:Hp.
    2:{ rewrite (scrape_page_rejected w url true self body Hv Hg Hp).
        split; [assumption|]. exists url. split; [assumption|]. by left. }
    destruct (scrape_page_fetched w url true self body Hv Hg Hp)
      as (o & self' & Hs & Hf & _).
    rewrite Hs. pose proof (fr_visited _ _ _ Hf) as Hvis. cbn in Hvis.
    destruct o as [sp|].
    + destruct (find_internal_links w self' sp url).
      * split; [assumption|]. exists url. split; [assumption|]. by right.
      * right. split; [assumption|]. by exists url.
    + split; [assumption|]. exists url. split; [assumption|]. by right.
  - rewrite (scrape_page_fetch_failed w url true self Hv Hg).
    split; [assumption|]. exists url. split; [assumption|]. by left.
Qed.

Lemma size_add_fresh (s : gset string) (url : string) :
  url ∉ s → size (s ∪ {[url]}) = S (size s).
Proof.
  intros H. rewrite size_union by set_solver. rewrite size_singleton. lia.
Qed.

(** A turn keeps the number of visited pages within the cap. *)
Lemma crawl_turn_bound max_pages todo self (b : Z) :
  (Z.of_nat (size (visited_pages self)) ≤ b)%Z → (max_pages ≤ b)%Z →
  match crawl_turn w max_pages todo self with
  | Stop _ self' | Next _ self' => (Z.of_nat (size (visited_pages self')) ≤ b)%Z
  end.
Proof.
  intros Hb Hm. pose proof (crawl_turn_cases max_pages todo self) as H.
  destruct (crawl_turn w max_pages todo self) as [r self'|todo' self'].
  - destruct H as [->|(Hlt & url & Hu & ->)]; [assumption|].
    rewrite size_add_fresh by assumption. lia.
  - destruct H as (Hlt & url & _ & [[-> _]|[Hu ->]]); [assumption|].
    rewrite size_add_fresh by assumption. lia.
Qed.

Lemma crawl_reaches_bound max_pages todo self todo' self' :
  crawl_reaches w max_pages todo self todo' self' →
  (Z.of_nat (size (visited_pages self'))
     ≤ Z.max (Z.of_nat (size (visited_pages self))) max_pages)%Z.
Proof.
  set (b := Z.max (Z.of_nat (size (visited_pages self))) max_pages).
  assert (Hm : (max_pages ≤ b)%Z) by lia.
  assert (Hb : (Z.of_nat (size (visited_pages self)) ≤ b)%Z) by lia.
  clearbody b. intros H. induction H as [|todo self todo1 self1 todo2 self2 Ht _ IH];
    [assumption|].
  apply IH. pose proof (crawl_turn_bound max_pages todo self b Hb Hm) as H1.
  rewrite Ht in H1. exact H1.
Qed.

Lemma crawl_result_bound fuel max_pages : ∀ todo self r self',
  crawl w fuel max_pages todo self = Some (r, self') →
  (Z.of_nat (size (visited_pages self'))
     ≤ Z.max (Z.of_nat (size (visited_pages self))) max_pages)%Z.
Proof.
  induction fuel as [|fuel IH]; intros todo self r self'; cbn [crawl];
    pose proof (crawl_turn_bound max_pages todo self
                  (Z.max (Z.of_nat (size (visited_pages self))) max_pages)
                  (Z.le_max_l _ _) (Z.le_max_r _ _)) as H1;
    destruct (crawl_turn w max_pages todo self) as [r1 s1|todo1 s1];
    try discriminate.
  - intros [= <- <-]. exact H1.
  - intros [= <- <-]. exact H1.
  - intros H. apply IH in H. lia.
Qed.

(** The loop ends: a turn that goes round again either visits a new
    page, of which there can be at most [max_pages], or takes a URL
    out of the frontier without adding any. *)
Lemma crawl_terminates max_pages : ∀ (n m : nat) todo self,
  Z.to_nat (max_pages - Z.of_nat (size (visited_pages self))) ≤ n →
  size todo ≤ m →
  ∃ fuel r self', crawl w fuel max_pages todo self = Some (r, self').
Proof.
  induction n as [|n IHn].
  - intros m todo self Hn _. exists 0. cbn [crawl].
    pose proof (crawl_turn_cases max_pages todo self) as H.
    destruct (crawl_turn w max_pages todo self) as [r s1|todo1 s1]; [eauto|].
    destruct H as [Hlt _]. lia.
  - induction m as [|m IHm]; intros todo self Hn Hm.
    + exists 0. cbn [crawl].
      pose proof (crawl_turn_cases max_pages todo self) as H.
      destruct (crawl_turn w max_pages todo self) as [r s1|todo1 s1]; [eauto|].
      destruct H as (_ & url & Hu & _).
      assert (size todo = 0) as Hz by lia.
      apply size_empty_inv in Hz. set_solver.
    + pose proof (crawl_turn_cases max_pages todo self) as H.
      destruct (crawl_turn w max_pages todo self) as [r s1|todo1 s1] eqn:Ht.
      { exists 0. cbn [crawl]. rewrite Ht. eauto. }
      destruct H as (Hlt & url & Hu & [[Hv Htodo]|[Hu' Hv]]).
      * rewrite Htodo in Ht.
        destruct (IHm (todo ∖ {[url]}) s1) as (fuel & r & s2 & Hc).
        { rewrite Hv. exact Hn. }
        { assert (size todo = S (size (todo ∖ {[url]}))); [|lia].
          rewrite (size_difference todo {[url]})
            by (apply singleton_subseteq_l, Hu).
          rewrite size_singleton.
          assert (size todo ≠ 0) by (intros Hz; apply size_empty_inv in Hz; set_solver).
          lia. }
        exists (S fuel), r, s2. cbn [crawl]. rewrite Ht. exact Hc.
      * destruct (IHn (size todo1) todo1 s1) as (fuel & r & s2 & Hc).
        { rewrite Hv, size_add_fresh by assumption. lia. }
        { lia. }
        exists (S fuel), r, s2. cbn [crawl]. rewrite Ht. exact Hc.
Qed.

End CrawlLoop.

Lemma keeps_save_summary (w : world) : keeps asset_kind (_save_summary w).
Proof.
  unfold _save_summary.
  apply keeps_bind; [apply keeps_gets|]. intros s.
  apply keeps_bind; [apply keeps_gets|]. intros out.
  apply keeps_bind; [apply keeps_write_file|]. intros _.
  apply keeps_bind; [apply keeps_gets|]. intros [|x xs];
    [apply keeps_ret | apply keeps_write_file].
Qed.

Lemma scrape_full_site_result (w : world) fuel max_pages self r self' :
  scrape_full_site w fuel max_pages self = Some (r, self') →
  ∃ r1 self1,
    crawl w fuel max_pages {[base_url self]} self = Some (r1, self1) ∧
    visited_pages self' = visited_pages self1.
Proof.
  unfold scrape_full_site.
  destruct (crawl w fuel max_pages {[base_url self]} self) as [[[[]|e] self1]|];
    [| |discriminate].
  - intros H. exists (Ok ()), self1. split; [reflexivity|].
    injection H as H. eapply fr_visited, keeps_save_summary, H.
  - intros [= <- <-]. eauto.
Qed.

(** C2. For every start URL and page cap, the crawl never lets the set
    of visited pages grow beyond the cap (at no turn of the loop, and so
    not at the end), and [scrape_full_site] ends after finitely many
    turns whatever the link graph is.  An object just built has visited
    nothing. *)
Theorem scrape_full_site_cap_and_termination (w : world) (max_pages : Z) :
  (∀ self todo' self',
     crawl_reaches w max_pages {[base_url self]} self todo' self' →
     (Z.of_nat (size (visited_pages self'))
        ≤ Z.max (Z.of_nat (size (visited_pages self))) max_pages)%Z) ∧
  (∀ self, ∃ fuel r self',
     scrape_full_site w fuel max_pages self = Some (r, self') ∧
     (Z.of_nat (size (visited_pages self'))
        ≤ Z.max (Z.of_nat (size (visited_pages self))) max_pages)%Z) ∧
  (∀ start output self,
     new_cloner w start output = Ok self → size (visited_pages self) = 0).
Proof.
  split; [|split].
  - intros self todo' self'. apply crawl_reaches_bound.
  - intros self.
    destruct (crawl_terminates w max_pages _ _ {[base_url self]} self
                (Nat.le_refl _) (Nat.le_refl _)) as (fuel & r & self1 & Hc).
    destruct (scrape_full_site w fuel max_pages self) as [[r' self']|] eqn:E.
    + exists fuel, r', self'. split; [exact E|].
      destruct (scrape_full_site_result w _ _ _ _ _ E) as (r1 & s1 & Hc1 & ->).
      eapply crawl_result_bound, Hc1.
    + unfold scrape_full_site in E. rewrite Hc in E.
      destruct r as [[]|e]; [|discriminate].
      destruct (_save_summary w self1); discriminate.
  - intros start output self H.
    destruct (new_cloner_inv w _ _ _ H) as (p & _ & -> & _). reflexivity.
Qed.

Lemma scrape_full_site_cap_and_termination_witness :
  ∃ todo' self',
    crawl_reaches mailto_world 1 {[ "https://example.com" ]}
      (cloner_for mailto_world "https://example.com/" "output") todo' self' ∧
    (Z.of_nat (size (visited_pages self')) ≤ Z.max 0 1)%Z.
Proof.
  eexists _, _. split.
  - eapply reach_next; [vm_compute; reflexivity | apply reach_here].
  - eapply (proj1 (scrape_full_site_cap_and_termination mailto_world 1)
              (cloner_for mailto_world "https://example.com/" "output")).
    eapply reach_next; [vm_compute; reflexivity | apply reach_here].
Defined.

(* ===================================================================== *)
(** * A page whose fetch fails *)
(* ===================================================================== *)

(** On [broken_link_world] the page [/f] fails twice in one run: it is
    requested when the home page has been scraped, is not marked as
    visited, and is requested again when [/g] links to it. *)
Lemma failed_page_unvisited_and_refetched :
  ∃ self',
    scrape_full_site broken_link_world 4 50
      (cloner_for broken_link_world "https://example.com/" "output")
      = Some (Ok (), self') ∧
    requests_log self' =
      [(Page, "https://example.com"); (Page, "https://example.com/f");
       (Page, "https://example.com/g"); (Page, "https://example.com/f")] ∧
    visited_pages self' = {[ "https://example.com"; "https://example.com/g" ]} ∧
    ("https://example.com/f" ∉ visited_pages self') ∧
    count_requests Page "https://example.com/f" (requests_log self') = 2.
Proof.
  eexists. split; [vm_compute; reflexivity|].
  split; [vm_compute; reflexivity|].
  split; [vm_compute; reflexivity|].
  split; [|vm_compute; reflexivity].
  apply (bool_decide_eq_false_1 _). vm_compute. reflexivity.
Qed.

(** A turn that takes an unvisited URL from the frontier below the cap
    requests it. *)
Lemma crawl_turn_requests (w : world) (max_pages : Z) (todo : gset string)
    (st : cloner) (url : string) :
  url ∉ visited_pages st →
  set_pop w (requests_log st) todo = Some url →
  (Z.of_nat (size (visited_pages st)) < max_pages)%Z →
  ∃ l, match crawl_turn w max_pages todo st with
       | Stop _ st' | Next _ st' =>
           requests_log st' = requests_log st ++ (Page, url) :: l
       end.
Proof.
  intros Hv Hpop Hlt. unfold crawl_turn. rewrite Hpop.
  apply Z.ltb_lt in Hlt. rewrite Hlt. cbn [negb].
  rewrite (bool_decide_eq_false_2 _ Hv).
  destruct (scrape_page w url true st) as [r st'] eqn:E.
  assert (∃ l, requests_log st' = requests_log st ++ (Page, url) :: l) as [l Hl].
  { destruct (scrape_page_outcome w url true st r st' E)
      as [(Hin & _)|[(_ & _ & -> & _)|(_ & body & r1 & _ & _ & Ha & _)]].
    - contradiction.
    - exists []. reflexivity.
    - destruct (fr_log _ _ _ (keeps_after_visit w url true _ _ _ _ Ha))
        as (l & Hl & _).
      exists l. rewrite Hl. cbn. rewrite <- app_assoc. reflexivity. }
  exists l. destruct r as [[sp|]|e]; try exact Hl.
  destruct (find_internal_links w st' sp url); exact Hl.
Qed.

(** A turn that takes another page from the frontier leaves an unvisited
    URL unvisited. *)
Lemma crawl_turn_other_page (w : world) (max_pages : Z) (todo : gset string)
    (st : cloner) (url page : string) :
  url ∉ visited_pages st →
  set_pop w (requests_log st) todo = Some page →
  page ≠ url →
  match crawl_turn w max_pages todo st with
  | Stop _ st' | Next _ st' => url ∉ visited_pages st'
  end.
Proof.
  intros Hv Hpop Hne. unfold crawl_turn. rewrite Hpop.
  destruct (negb _); [exact Hv|].
  case_bool_decide as Hp; [exact Hv|].
  destruct (scrape_page w page true st) as [r st'] eqn:E.
  assert (Hv' : url ∉ visited_pages st').
  { destruct (scrape_page_outcome w page true st r st' E)
      as [(_ & _ & ->)|[(_ & _ & -> & _)|(_ & body & r1 & _ & _ & Ha & _)]];
      [exact Hv|exact Hv|].
    rewrite (fr_visited _ _ _ (keeps_after_visit w page true _ _ _ _ Ha)). cbn.
    intros [Hin|Hin%elem_of_singleton]%elem_of_union; [exact (Hv Hin)|].
    exact (Hne (eq_sym Hin)). }
  destruct r as [[sp|]|e]; try exact Hv'.
  destruct (find_internal_links w st' sp page); exact Hv'.
Qed.

(** C1 (amended). When fetching a page fails, [scrape_page] returns
    [None] and the only change to the object is the request itself: the
    URL is not added to the visited set and the summary is the one it
    would have been without the failure (nothing records it).  The turn
    of the crawl ends with the URL taken out of the frontier.  The URL
    is not barred from coming back: in any later state in which it is
    still unvisited, a turn on another page leaves it unvisited, a page
    scraped with success that links to it puts it into the frontier
    again, and a turn that takes it from the frontier below the cap
    requests it once more. *)
Theorem failed_fetch_leaves_no_trace (w : world) (url : string)
    (save_html : bool) (self : cloner) :
  url ∉ visited_pages self →
  http_get w (requests_log self) url = None →
  let self' := set_requests_log (fun l => l ++ [(Page, url)]) self in
  scrape_page w url save_html self = (Ok None, self') ∧
  visited_pages self' = visited_pages self ∧
  (url ∉ visited_pages self') ∧
  make_summary self' = make_summary self ∧
  (∀ max_pages todo,
     set_pop w (requests_log self) todo = Some url →
     (Z.of_nat (size (visited_pages self)) < max_pages)%Z →
     crawl_turn w max_pages todo self = Next (todo ∖ {[url]}) self') ∧
  (∀ max_pages todo st page,
     url ∉ visited_pages st →
     set_pop w (requests_log st) todo = Some page →
     page ≠ url →
     match crawl_turn w max_pages todo st with
     | Stop _ st' | Next _ st' => url ∉ visited_pages st'
     end) ∧
  (∀ max_pages todo st page sp st1 links,
     url ∉ visited_pages st →
     set_pop w (requests_log st) todo = Some page →
     page ≠ url →
     (Z.of_nat (size (visited_pages st)) < max_pages)%Z →
     scrape_page w page true st = (Ok (Some sp), st1) →
     find_internal_links w st1 sp page = Ok links →
     url ∈ links →
     ∃ todo', crawl_turn w max_pages todo st = Next todo' st1 ∧ url ∈ todo') ∧
  (∀ max_pages todo st,
     url ∉ visited_pages st →
     set_pop w (requests_log st) todo = Some url →
     (Z.of_nat (size (visited_pages st)) < max_pages)%Z →
     ∃ l, match crawl_turn w max_pages todo st with
          | Stop _ st' | Next _ st' =>
              requests_log st' = requests_log st ++ (Page, url) :: l
          end).
Proof.
  intros Hv Hg self'.
  pose proof (scrape_page_fetch_failed w url save_html self Hv Hg) as Hs.
  split; [exact Hs|]. split; [reflexivity|]. split; [exact Hv|].
  split; [reflexivity|]. split; [|split; [|split]].
  - intros max_pages todo Hpop Hlt. unfold crawl_turn. rewrite Hpop.
    apply Z.ltb_lt in Hlt. rewrite Hlt. cbn [negb].
    rewrite (bool_decide_eq_false_2 _ Hv).
    rewrite (scrape_page_fetch_failed w url true self Hv Hg). reflexivity.
  - intros max_pages todo st page. apply crawl_turn_other_page.
  - intros max_pages todo st page sp st1 links Hu Hpop Hne Hlt Hpage Hlinks Hin.
    pose proof (crawl_turn_other_page w max_pages todo st url page Hu Hpop Hne)
      as Hstay.
    assert (Hp : page ∉ visited_pages st).
    { intros Hp. rewrite (scrape_page_seen w page true st Hp) in Hpage.
      discriminate Hpage. }
    unfold crawl_turn in *. rewrite Hpop in *.
    apply Z.ltb_lt in Hlt. rewrite Hlt in *. cbn [negb] in *.
    rewrite (bool_decide_eq_false_2 _ Hp) in *. rewrite Hpage, Hlinks in *.
    eexists. split; [reflexivity|].
    apply elem_of_union. right. apply elem_of_difference. auto.
  - intros max_pages todo st. apply crawl_turn_requests.
Qed.

Lemma failed_fetch_leaves_no_trace_witness :
  scrape_page offline "https://example.com" true
    (cloner_for offline "https://example.com/" "output")
  = (Ok None,
     set_requests_log (fun l => l ++ [(Page, "https://example.com")])
       (cloner_for offline "https://example.com/" "output")).
Proof.
  apply (failed_fetch_leaves_no_trace offline "https://example.com" true
           (cloner_for offline "https://example.com/" "output")).
  - apply (bool_decide_eq_false_1 _). vm_compute. reflexivity.
  - reflexivity.
Defined.

(* ===================================================================== *)
(** * Downloads *)
(* ===================================================================== *)

Lemma bind_inv {A B} (m : M A) (f : A → M B) st r st' :
  bind m f st = (r, st') →
  (∃ a st1, m st = (Ok a, st1) ∧ f a st1 = (r, st')) ∨
  (∃ e, m st = (Raise e, st') ∧ r = Raise e).
Proof.
  unfold bind. destruct (m st) as [[a|e] st1]; intros H.
  - left. eauto.
  - right. injection H as <- <-. eauto.
Qed.

Lemma try_inv {A} (m h : M A) st r st' :
  try_except m h st = (r, st') →
  (∃ a, m st = (Ok a, st') ∧ r = Ok a) ∨
  (∃ e st1, m st = (Raise e, st1) ∧ h st1 = (r, st')).
Proof.
  unfold try_except. destruct (m st) as [[a|e] st1]; intros H.
  - left. injection H as <- <-. eauto.
  - right. eauto.
Qed.

Lemma count_requests_app k url l1 l2 :
  count_requests k url (l1 ++ l2) = count_requests k url l1 + count_requests k url l2.
Proof. unfold count_requests. rewrite List.filter_app, length_app. reflexivity. Qed.

Lemma count_requests_self k url : count_requests k url [(k, url)] = 1.
Proof.
  unfold count_requests. cbn. rewrite String.eqb_refl.
  destruct k; reflexivity.
Qed.

Lemma count_requests_other_kind K k url l :
  K k = false → Forall (fun r => K (fst r) = true) l → count_requests k url l = 0.
Proof.
  intros Hk. induction 1 as [|[k' u'] l Hx _ IH]; [reflexivity|].
  unfold count_requests in *. cbn in *.
  assert (same_kind k' k = false) as ->
    by (destruct k', k; try reflexivity; congruence).
  exact IH.
Qed.

Lemma filename_nonempty (w : world) url prefix f :
  prefix ≠ "" → _get_filename_from_url w url prefix = Ok f → f ≠ "".
Proof.
  intros Hp. unfold _get_filename_from_url.
  destruct (url_parse w url); [|discriminate]. cbn [rbind]. intros [= <-].
  destruct prefix; [congruence|discriminate].
Qed.

Section Downloads.
Variable w : world.

Lemma download_image_known url st :
  url ∈ downloaded_images st →
  download_image w url st = (_get_filename_from_url w url "img_", st).
Proof.
  intros H. unfold download_image, bind at 1, gets.
  rewrite (bool_decide_eq_true_2 _ H). reflexivity.
Qed.

Lemma download_css_known url st :
  url ∈ downloaded_css st →
  download_css w url st = (_get_filename_from_url w url "style_", st).
Proof.
  intros H. unfold download_css, bind at 1, gets.
  rewrite (bool_decide_eq_true_2 _ H). reflexivity.
Qed.

Lemma download_js_known url st :
  url ∈ downloaded_js st →
  download_js w url st = (_get_filename_from_url w url "script_", st).
Proof.
  intros H. unfold download_js, bind at 1, gets.
  rewrite (bool_decide_eq_true_2 _ H). reflexivity.
Qed.

(** The outcomes of [download_image] on a URL not yet downloaded. *)
Lemma download_image_new url st :
  url ∉ downloaded_images st →
  let st1 := set_requests_log (fun l => l ++ [(Image, url)]) st in
  download_image w url st =
    match http_get w (requests_log st) url,
          _get_filename_from_url w url "img_" with
    | Some body, Ok f =>
        let filepath := path_join (output_dir st) ["images"; f] in
        if file_write_ok w (requests_log st1) filepath
        then (Ok f, set_downloaded_images (fun s => s ∪ {[url]})
                      (set_files (insert filepath (Data body)) st1))
        else (Ok "", st1)
    | _, _ => (Ok "", st1)
    end.
Proof.
  intros H st1. unfold download_image, bind at 1, gets.
  rewrite (bool_decide_eq_false_2 _ H).
  unfold try_except, bind, requests_get, lift, gets, write_file, modify, ret.
  destruct (http_get w (requests_log st) url) as [body|]; [|reflexivity].
  destruct (_get_filename_from_url w url "img_") as [f|e]; [|reflexivity].
  cbn [output_dir set_requests_log requests_log].
  fold st1.
  destruct (file_write_ok w _ _); reflexivity.
Qed.

Lemma download_js_new url st :
  url ∉ downloaded_js st →
  let st1 := set_requests_log (fun l => l ++ [(Script, url)]) st in
  download_js w url st =
    match http_get w (requests_log st) url,
          _get_filename_from_url w url "script_" with
    | Some body, Ok f =>
        let filepath := path_join (output_dir st) ["js"; f] in
        if file_write_ok w (requests_log st1) filepath
        then (Ok f, set_downloaded_js (fun s => s ∪ {[url]})
                      (set_files (insert filepath (Data body)) st1))
        else (Ok "", st1)
    | _, _ => (Ok "", st1)
    end.
Proof.
  intros H st1. unfold download_js, bind at 1, gets.
  rewrite (bool_decide_eq_false_2 _ H).
  unfold try_except, bind, requests_get, lift, gets, write_file, modify, ret.
  destruct (http_get w (requests_log st) url) as [body|]; [|reflexivity].
  destruct (_get_filename_from_url w url "script_") as [f|e]; [|reflexivity].
  cbn [output_dir set_requests_log requests_log].
  fold st1.
  destruct (file_write_ok w _ _); reflexivity.
Qed.

Lemma download_font_outcome url st :
  let st1 := set_requests_log (fun l => l ++ [(Font, url)]) st in
  _download_font w url st =
    match http_get w (requests_log st) url,
          _get_filename_from_url w url "font_" with
    | Some body, Ok f =>
        let filepath := path_join (output_dir st) ["fonts"; f] in
        if file_write_ok w (requests_log st1) filepath
        then (Ok f, set_files (insert filepath (Data body)) st1)
        else (Ok "", st1)
    | _, _ => (Ok "", st1)
    end.
Proof.
  intros st1. unfold _download_font.
  unfold try_except, bind, requests_get, lift, gets, write_file, modify, ret.
  destruct (http_get w (requests_log st) url) as [body|]; [|reflexivity].
  destruct (_get_filename_from_url w url "font_") as [f|e]; [|reflexivity].
  cbn [output_dir set_requests_log requests_log].
  fold st1.
  destruct (file_write_ok w _ _); reflexivity.
Qed.

End Downloads.

Section FetchedOnce.
Variable w : world.

Lemma requests_get_inv k url st r st' :
  requests_get w k url st = (r, st') →
  st' = set_requests_log (fun l => l ++ [(k, url)]) st ∧
  match r with
  | Ok body => http_get w (requests_log st) url = Some body
  | Raise _ => http_get w (requests_log st) url = None
  end.
Proof.
  unfold requests_get. destruct (http_get w (requests_log st) url);
    intros [= <- <-]; auto.
Qed.

Lemma write_file_inv path c st st' :
  write_file w path c st = (Ok (), st') →
  st' = set_files (insert path c) st ∧
  file_write_ok w (requests_log st) path = true.
Proof.
  unfold write_file. destruct (file_write_ok w (requests_log st) path);
    intros [= <-]; auto.
Qed.

Lemma image_fetched_once : fetched_once Image downloaded_images (download_image w).
Proof.
  intros url self f self1 Hn Hd Hf.
  rewrite (download_image_new w url self Hn) in Hd. cbv zeta in Hd.
  destruct (http_get w (requests_log self) url) as [body|]; [|congruence].
  destruct (_get_filename_from_url w url "img_") as [f'|e] eqn:Hfn; [|congruence].
  destruct (file_write_ok w _ _); [|congruence].
  injection Hd as <- <-. split; [cbn; set_solver|]. split.
  - cbn [requests_log set_downloaded_images set_downloaded_js set_files
         set_requests_log].
    rewrite count_requests_app, count_requests_self. lia.
  - intros self2 H2. rewrite (download_image_known w url self2 H2), Hfn.
    reflexivity.
Qed.

Lemma js_fetched_once : fetched_once Script downloaded_js (download_js w).
Proof.
  intros url self f self1 Hn Hd Hf.
  rewrite (download_js_new w url self Hn) in Hd. cbv zeta in Hd.
  destruct (http_get w (requests_log self) url) as [body|]; [|congruence].
  destruct (_get_filename_from_url w url "script_") as [f'|e] eqn:Hfn; [|congruence].
  destruct (file_write_ok w _ _); [|congruence].
  injection Hd as <- <-. split; [cbn; set_solver|]. split.
  - cbn [requests_log set_downloaded_images set_downloaded_js set_files
         set_requests_log].
    rewrite count_requests_app, count_requests_self. lia.
  - intros self2 H2. rewrite (download_js_known w url self2 H2), Hfn.
    reflexivity.
Qed.

(** A stylesheet fetched with success: one request for the sheet,
    then only requests for the images and fonts it names. *)
Lemma download_css_success url st f st1 :
  url ∉ downloaded_css st →
  download_css w url st = (Ok f, st1) →
  f ≠ "" →
  _get_filename_from_url w url "style_" = Ok f ∧
  url ∈ downloaded_css st1 ∧
  ∃ l, requests_log st1 = requests_log st ++ (Stylesheet, url) :: l ∧
       Forall (fun r => nested_kind (fst r) = true) l.
Proof.
  intros Hn Hd Hf. unfold download_css, bind at 1, gets in Hd.
  rewrite (bool_decide_eq_false_2 _ Hn) in Hd.
  apply try_inv in Hd as [(a & Hb & [= <-])|(e & st' & _ & [= <- _])];
    [|congruence].
  apply bind_inv in Hb as [(body & sa & Hget & Hb)|(e & _ & [=])].
  apply requests_get_inv in Hget as [-> Hget].
  apply bind_inv in Hb as [(fn & sb & Hfn & Hb)|(e & _ & [=])].
  injection Hfn as Hfn <-.
  apply bind_inv in Hb as [(out & sc & [= <- <-] & Hb)|(e & _ & [=])].
  apply bind_inv in Hb as [(css & sd & Hproc & Hb)|(e & _ & [=])].
  apply keeps_process_css in Hproc as Hframe.
  apply bind_inv in Hb as [([] & se & Hw & Hb)|(e & _ & [=])].
  apply write_file_inv in Hw as [-> _].
  unfold bind, modify, ret in Hb. injection Hb as <- <-.
  split; [exact Hfn|]. split; [cbn; set_solver|].
  destruct (fr_log _ _ _ Hframe) as (l & Hl & HF). exists l. cbn in *.
  rewrite Hl, <- app_assoc. split; [reflexivity|exact HF].
Qed.

Lemma css_fetched_once : fetched_once Stylesheet downloaded_css (download_css w).
Proof.
  intros url self f self1 Hn Hd Hf.
  destruct (download_css_success url self f self1 Hn Hd Hf)
    as (Hfn & Hin & l & Hl & HF).
  split; [exact Hin|]. split.
  - rewrite Hl. change ((Stylesheet, url) :: l) with ([(Stylesheet, url)] ++ l).
    rewrite !count_requests_app, count_requests_self.
    rewrite (count_requests_other_kind nested_kind Stylesheet url l eq_refl HF).
    lia.
  - intros self2 H2. rewrite (download_css_known w url self2 H2), Hfn.
    reflexivity.
Qed.

End FetchedOnce.

(** On [font_world] the font named twice by the stylesheet is fetched
    twice, by [download_css] and by two calls of [_download_font]: fonts
    have no download set.  An image whose fetch fails is fetched again
    at the next request: only successful downloads are recorded. *)
Lemma font_and_failed_image_fetched_twice :
  let self := cloner_for font_world "https://example.com/" "output" in
  (∃ self1 self2,
     _download_font font_world "https://example.com/a.woff" self
       = (Ok "font_a.woff", self1) ∧
     _download_font font_world "https://example.com/a.woff" self1
       = (Ok "font_a.woff", self2) ∧
     count_requests Font "https://example.com/a.woff" (requests_log self2) = 2) ∧
  (∃ self1,
     download_css font_world "https://example.com/site.css" self
       = (Ok "style_site.css", self1) ∧
     requests_log self1 =
       [(Stylesheet, "https://example.com/site.css");
        (Font, "https://example.com/a.woff");
        (Font, "https://example.com/a.woff")]) ∧
  (∃ self1 self2,
     download_image font_world "https://example.com/missing.png" self
       = (Ok "", self1) ∧
     download_image font_world "https://example.com/missing.png" self1
       = (Ok "", self2) ∧
     count_requests Image "https://example.com/missing.png" (requests_log self2) = 2).
Proof.
  cbv zeta. split; [|split].
  - eexists _, _. split; [vm_compute; reflexivity|].
    split; vm_compute; reflexivity.
  - eexists. split; vm_compute; reflexivity.
  - eexists _, _. split; [vm_compute; reflexivity|].
    split; vm_compute; reflexivity.
Qed.

(** C3 (amended). For every image, stylesheet or script URL whose
    download has succeeded, the URL has been fetched exactly once by
    that download, and every later request for it through the same
    download function returns the same local file name without any
    request. *)
Theorem successful_download_fetched_once (w : world) :
  fetched_once Image downloaded_images (download_image w) ∧
  fetched_once Stylesheet downloaded_css (download_css w) ∧
  fetched_once Script downloaded_js (download_js w).
Proof.
  split; [apply image_fetched_once|].
  split; [apply css_fetched_once | apply js_fetched_once].
Qed.

Lemma successful_download_fetched_once_witness :
  ∃ self1,
    download_css font_world "https://example.com/site.css"
      (cloner_for font_world "https://example.com/" "output")
      = (Ok "style_site.css", self1) ∧
    download_css font_world "https://example.com/site.css" self1
      = (Ok "style_site.css", self1).
Proof.
  eexists. split; [vm_compute; reflexivity|].
  refine (proj2 (proj2
           (proj1 (proj2 (successful_download_fetched_once font_world))
              "https://example.com/site.css"
              (cloner_for font_world "https://example.com/" "output")
              "style_site.css" _ _ _ _)) _ _).
  - apply (bool_decide_eq_false_1 _). vm_compute. reflexivity.
  - vm_compute. reflexivity.
  - discriminate.
  - apply (bool_decide_eq_true_1 _). vm_compute. reflexivity.
Defined.

(* ===================================================================== *)
(** * File names *)
(* ===================================================================== *)

(** The file name is computed from the path of the URL alone. *)
Lemma filename_of_path (w : world) (u1 u2 prefix : string) (p1 p2 : ParseResult) :
  url_parse w u1 = Ok p1 → url_parse w u2 = Ok p2 → path p1 = path p2 →
  _get_filename_from_url w u1 prefix = _get_filename_from_url w u2 prefix.
Proof.
  intros H1 H2 Hp. unfold _get_filename_from_url. rewrite H1, H2. cbn [rbind].
  rewrite Hp. reflexivity.
Qed.

(** C9. Two distinct URLs that differ only in their query string get the
    same local file name from [_get_filename_from_url]; the download set
    holds full URLs, so both are fetched, and the second download
    overwrites the file written by the first. *)
Theorem query_variants_share_a_file (w : world) (u1 u2 : string)
    (p1 p2 : ParseResult) (self : cloner) (body1 body2 : string) :
  url_parse w u1 = Ok p1 →
  url_parse w u2 = Ok p2 →
  differ_only_in_query p1 p2 →
  u1 ∉ downloaded_images self →
  u2 ∉ downloaded_images self →
  http_get w (requests_log self) u1 = Some body1 →
  http_get w (requests_log self ++ [(Image, u1)]) u2 = Some body2 →
  (∀ log path, file_write_ok w log path = true) →
  u1 ≠ u2 ∧
  (∀ prefix,
     _get_filename_from_url w u1 prefix = _get_filename_from_url w u2 prefix) ∧
  ∃ f self1 self2,
    let filepath := path_join (output_dir self) ["images"; f] in
    download_image w u1 self = (Ok f, self1) ∧
    files self1 !! filepath = Some (Data body1) ∧
    download_image w u2 self1 = (Ok f, self2) ∧
    files self2 !! filepath = Some (Data body2) ∧
    requests_log self2 = requests_log self ++ [(Image, u1); (Image, u2)] ∧
    u1 ∈ downloaded_images self2 ∧ u2 ∈ downloaded_images self2.
Proof.
  intros H1 H2 (_ & _ & Hpath & _ & _ & Hq) Hn1 Hn2 Hg1 Hg2 Hw.
  assert (Hne : u1 ≠ u2) by (intros ->; rewrite H1 in H2; congruence).
  split; [exact Hne|].
  assert (Hsame : ∀ prefix,
    _get_filename_from_url w u1 prefix = _get_filename_from_url w u2 prefix)
    by (intros prefix; eapply filename_of_path; eassumption).
  split; [exact Hsame|].
  destruct (_get_filename_from_url w u1 "img_") as [f|e] eqn:Hf.
  2:{ unfold _get_filename_from_url in Hf. rewrite H1 in Hf. discriminate. }
  pose proof (download_image_new w u1 self Hn1) as D1. cbv zeta in D1.
  rewrite Hg1, Hf, Hw in D1.
  set (self1 := set_downloaded_images (fun s => s ∪ {[u1]})
                  (set_files (insert (path_join (output_dir self) ["images"; f])
                                     (Data body1))
                     (set_requests_log (fun l => l ++ [(Image, u1)]) self))) in *.
  assert (Hn2' : u2 ∉ downloaded_images self1).
  { cbn. intros [Hin|Hin%elem_of_singleton]%elem_of_union; [exact (Hn2 Hin)|].
    exact (Hne (eq_sym Hin)). }
  pose proof (download_image_new w u2 self1 Hn2') as D2. cbv zeta in D2.
  change (requests_log self1) with (requests_log self ++ [(Image, u1)]) in D2.
  rewrite Hg2, <- Hsame, Hf, Hw in D2.
  eexists f, self1, _. cbv zeta.
  split; [exact D1|]. split; [apply lookup_insert_eq|].
  split; [exact D2|]. split; [apply lookup_insert_eq|].
  split; [cbn; rewrite <- app_assoc; reflexivity|].
  split; cbn.
  - apply elem_of_union. left. apply elem_of_union. right.
    apply elem_of_singleton. reflexivity.
  - apply elem_of_union. right. apply elem_of_singleton. reflexivity.
Qed.

Lemma query_variants_share_a_file_witness :
  ∃ self1 self2,
    download_image versioned_image_world "https://example.com/pic.png?v=1"
      (cloner_for versioned_image_world "https://example.com/" "output")
      = (Ok "img_pic.png", self1) ∧
    files self1 !! "output/images/img_pic.png" = Some (Data "first") ∧
    download_image versioned_image_world "https://example.com/pic.png?v=2" self1
      = (Ok "img_pic.png", self2) ∧
    files self2 !! "output/images/img_pic.png" = Some (Data "second").
Proof.
  destruct (query_variants_share_a_file versioned_image_world
              "https://example.com/pic.png?v=1" "https://example.com/pic.png?v=2"
              (mkParse "https" "example.com" "/pic.png" "" "v=1" "")
              (mkParse "https" "example.com" "/pic.png" "" "v=2" "")
              (cloner_for versioned_image_world "https://example.com/" "output")
              "first" "second")
    as (_ & Hname & f & self1 & self2 & D1 & F1 & D2 & F2 & _).
  - vm_compute. reflexivity.
  - vm_compute. reflexivity.
  - repeat split. discriminate.
  - apply (bool_decide_eq_false_1 _). vm_compute. reflexivity.
  - apply (bool_decide_eq_false_1 _). vm_compute. reflexivity.
  - reflexivity.
  - reflexivity.
  - reflexivity.
  - assert (Hf : f = "img_pic.png") by (vm_compute in D1; congruence).
    subst f. exists self1, self2. auto.
Defined.

(* ===================================================================== *)
(** * An asset that cannot be downloaded *)
(* ===================================================================== *)

Section FailedAsset.
Variable w : world.

Lemma download_image_failed url st :
  url ∉ downloaded_images st →
  http_get w (requests_log st) url = None →
  download_image w url st =
    (Ok "", set_requests_log (fun l => l ++ [(Image, url)]) st).
Proof.
  intros Hn Hg. rewrite (download_image_new w url st Hn). cbv zeta.
  rewrite Hg. reflexivity.
Qed.

Lemma download_js_failed url st :
  url ∉ downloaded_js st →
  http_get w (requests_log st) url = None →
  download_js w url st =
    (Ok "", set_requests_log (fun l => l ++ [(Script, url)]) st).
Proof.
  intros Hn Hg. rewrite (download_js_new w url st Hn). cbv zeta.
  rewrite Hg. reflexivity.
Qed.

Lemma download_font_failed url st :
  http_get w (requests_log st) url = None →
  _download_font w url st =
    (Ok "", set_requests_log (fun l => l ++ [(Font, url)]) st).
Proof.
  intros Hg. rewrite (download_font_outcome w url st). cbv zeta.
  rewrite Hg. reflexivity.
Qed.

Lemma download_css_failed url st :
  url ∉ downloaded_css st →
  http_get w (requests_log st) url = None →
  download_css w url st =
    (Ok "", set_requests_log (fun l => l ++ [(Stylesheet, url)]) st).
Proof.
  intros Hn Hg. unfold download_css, bind at 1, gets.
  rewrite (bool_decide_eq_false_2 _ Hn).
  unfold try_except, bind, requests_get. rewrite Hg. reflexivity.
Qed.

(** The turns of the loops of [scrape_page] for an element whose
    download gives the empty string. *)
Lemma css_step_failed url e href abs st st' :
  is_stylesheet_link e = true →
  el_get e "href" = Some href →
  href ≠ "" →
  _normalize_url w st href (Some url) = Ok abs →
  abs ≠ "" →
  download_css w abs st = (Ok "", st') →
  css_step w url e st = (Ok e, st').
Proof.
  intros Hl Hh Hhref Hn Habs Hd. unfold css_step. rewrite Hl, Hh.
  apply is_empty_false in Hhref, Habs. rewrite Hhref.
  unfold bind at 1, normalize. rewrite Hn, Habs.
  unfold bind. rewrite Hd. reflexivity.
Qed.

Lemma img_step_failed url e src abs st st' :
  el_tag e = "img" →
  img_source e = Some src →
  src ≠ "" →
  _normalize_url w st src (Some url) = Ok abs →
  abs ≠ "" →
  startswith abs "data:" = false →
  download_image w abs st = (Ok "", st') →
  img_step w url e st = (Ok e, st').
Proof.
  intros Ht Hs Hsrc Hn Habs Hdata Hd. unfold img_step.
  rewrite Ht, Hs. change (String.eqb "img" "img") with true. cbv iota.
  apply is_empty_false in Hsrc, Habs. rewrite Hsrc.
  unfold bind at 1, normalize. rewrite Hn, Habs, Hdata. cbn [negb andb].
  unfold bind. rewrite Hd. reflexivity.
Qed.

Lemma script_step_failed url e src abs st st' :
  el_tag e = "script" →
  el_get e "src" = Some src →
  src ≠ "" →
  _normalize_url w st src (Some url) = Ok abs →
  abs ≠ "" →
  download_js w abs st = (Ok "", st') →
  script_step w url e st = (Ok e, st').
Proof.
  intros Ht Hs Hsrc Hn Habs Hd. unfold script_step.
  rewrite Ht, Hs. change (String.eqb "script" "script") with true. cbv iota.
  apply is_empty_false in Hsrc, Habs. rewrite Hsrc.
  unfold bind at 1, normalize. rewrite Hn, Habs.
  unfold bind. rewrite Hd. reflexivity.
Qed.

Lemma icon_step_failed url e href abs st st' :
  is_icon_link e = true →
  el_get e "href" = Some href →
  href ≠ "" →
  _normalize_url w st href (Some url) = Ok abs →
  abs ≠ "" →
  download_image w abs st = (Ok "", st') →
  icon_step w url e st = (Ok e, st').
Proof.
  intros Hl Hh Hhref Hn Habs Hd. unfold icon_step. rewrite Hl, Hh.
  apply is_empty_false in Hhref, Habs. rewrite Hhref.
  unfold bind at 1, normalize. rewrite Hn, Habs.
  unfold bind. rewrite Hd. reflexivity.
Qed.

(** A turn that gives back its element lets the loop go on. *)
Lemma mapM_passes (step : string → element → M element) url e st st' :
  step url e st = (Ok e, st') →
  ∀ rest,
    mapM (step url) (e :: rest) st
      = (let* ys := mapM (step url) rest in ret (e :: ys)) st'.
Proof. intros H rest. cbn [mapM]. unfold bind at 1. rewrite H. reflexivity. Qed.

End FailedAsset.

(* ===================================================================== *)
(** * A stylesheet that names a picture *)
(* ===================================================================== *)

(** On [stylesheet_scenario] the picture is saved as
    [images/img_img_bg.png]: the directory [img] of its URL is part of
    the flattened name, after the prefix [img_].  No file
    [images/img_bg.png] exists, and the saved stylesheet does not refer
    to one. *)
Lemma stylesheet_picture_not_img_bg :
  ∃ self',
    scrape_full_site (stylesheet_scenario "PNG") 1 50
      (cloner_for (stylesheet_scenario "PNG") "https://example.test/" "output")
      = Some (Ok (), self') ∧
    files self' !! "output/images/img_bg.png" = None ∧
    files self' !! "output/css/style_styles.css"
      ≠ Some (Data "body{background:url(../images/img_bg.png)}").
Proof.
  eexists. split; [vm_compute; reflexivity|].
  split; [vm_compute; reflexivity|].
  vm_compute. discriminate.
Qed.

(** The whole run on [stylesheet_scenario]: the home page, its style
    sheet and the picture are requested in this order;
    [css/style_styles.css] and [images/img_img_bg.png] exist at the end,
    and the reference in the saved style sheet reads
    [../images/img_img_bg.png]. *)
Lemma stylesheet_scenario_run (png : string) :
  ∃ self',
    scrape_full_site (stylesheet_scenario png) 1 50
      (cloner_for (stylesheet_scenario png) "https://example.test/" "output")
      = Some (Ok (), self') ∧
    requests_log self' =
      [(Page, "https://example.test");
       (Stylesheet, "https://example.test/styles.css");
       (Image, "https://example.test/img/bg.png")] ∧
    files self' !! "output/css/style_styles.css"
      = Some (Data "body{background:url(../images/img_img_bg.png)}") ∧
    files self' !! "output/images/img_img_bg.png" = Some (Data png) ∧
    files self' !! "output/images/img_bg.png" = None.
Proof.
  eexists. split; [vm_compute; reflexivity|].
  repeat split; vm_compute; reflexivity.
Qed.

(* ===================================================================== *)
(** * The order of the crawl *)
(* ===================================================================== *)

(** On [two_level_world] the page [/p3], found at depth two, is
    requested before [/p2], found at depth one; a first-in-first-out
    frontier would have requested [/p2] first. *)
Lemma crawl_order_not_breadth_first :
  ∃ self',
    scrape_full_site two_level_world 4 50
      (cloner_for two_level_world "https://example.com/" "output")
      = Some (Ok (), self') ∧
    map snd (requests_log self') =
      ["https://example.com"; "https://example.com/p1";
       "https://example.com/p3"; "https://example.com/p2"] ∧
    fifo_order 4 two_level_links ["https://example.com"] [] =
      ["https://example.com"; "https://example.com/p1";
       "https://example.com/p2"; "https://example.com/p3"] ∧
    map snd (requests_log self')
      ≠ fifo_order 4 two_level_links ["https://example.com"] [].
Proof.
  eexists. split; [vm_compute; reflexivity|].
  split; [vm_compute; reflexivity|].
  split; [vm_compute; reflexivity|].
  vm_compute. discriminate.
Qed.

(** ** The anchors of a page survive its processing *)

Lemma anchor_view_set_other (e : element) (name value : string) :
  name ≠ "href" → anchor_view (el_set e name value) = anchor_view e.
Proof.
  intros H. unfold anchor_view, el_set, el_get. cbn.
  rewrite lookup_insert_ne by exact H. reflexivity.
Qed.

Lemma anchor_view_set_not_anchor (e : element) (name value : string) :
  String.eqb (el_tag e) "a" = false →
  anchor_view (el_set e name value) = anchor_view e.
Proof. intros H. unfold anchor_view, el_set. cbn. rewrite H. reflexivity. Qed.

Lemma link_not_anchor (e : element) :
  String.eqb (el_tag e) "link" = true → String.eqb (el_tag e) "a" = false.
Proof. intros H%String.eqb_eq. rewrite H. reflexivity. Qed.

Section AnchorsSurvive.
Variable w : world.

Lemma css_step_view url e st b st' :
  css_step w url e st = (Ok b, st') → anchor_view b = anchor_view e.
Proof.
  unfold css_step. destruct (is_stylesheet_link e) eqn:Hl; [|by intros [= <- _]].
  apply andb_true_iff in Hl as [Hl%link_not_anchor _].
  destruct (el_get e "href") as [h|]; [|by intros [= <- _]].
  destruct (is_empty h); [by intros [= <- _]|]. intros H.
  apply bind_inv in H as [(x & s1 & _ & H)|(e0 & _ & [=])].
  destruct (is_empty x); [by injection H as <- _|].
  apply bind_inv in H as [(y & s2 & _ & H)|(e0 & _ & [=])].
  destruct (is_empty y); injection H as <- _; [reflexivity|].
  apply anchor_view_set_not_anchor, Hl.
Qed.

Lemma icon_step_view url e st b st' :
  icon_step w url e st = (Ok b, st') → anchor_view b = anchor_view e.
Proof.
  unfold icon_step. destruct (is_icon_link e) eqn:Hl; [|by intros [= <- _]].
  apply andb_true_iff in Hl as [Hl%link_not_anchor _].
  destruct (el_get e "href") as [h|]; [|by intros [= <- _]].
  destruct (is_empty h); [by intros [= <- _]|]. intros H.
  apply bind_inv in H as [(x & s1 & _ & H)|(e0 & _ & [=])].
  destruct (is_empty x); [by injection H as <- _|].
  apply bind_inv in H as [(y & s2 & _ & H)|(e0 & _ & [=])].
  destruct (is_empty y); injection H as <- _; [reflexivity|].
  apply anchor_view_set_not_anchor, Hl.
Qed.

Lemma img_step_view url e st b st' :
  img_step w url e st = (Ok b, st') → anchor_view b = anchor_view e.
Proof.
  unfold img_step. destruct (String.eqb (el_tag e) "img") eqn:Hl;
    [|by intros [= <- _]].
  assert (Ha : String.eqb (el_tag e) "a" = false)
    by (apply String.eqb_eq in Hl; rewrite Hl; reflexivity).
  destruct (img_source e) as [h|]; [|by intros [= <- _]].
  destruct (is_empty h); [by intros [= <- _]|]. intros H.
  apply bind_inv in H as [(x & s1 & _ & H)|(e0 & _ & [=])].
  destruct (negb (is_empty x) && negb (startswith x "data:"));
    [|by injection H as <- _].
  apply bind_inv in H as [(y & s2 & _ & H)|(e0 & _ & [=])].
  destruct (is_empty y); injection H as <- _; [reflexivity|].
  apply anchor_view_set_not_anchor, Ha.
Qed.

Lemma script_step_view url e st b st' :
  script_step w url e st = (Ok b, st') → anchor_view b = anchor_view e.
Proof.
  unfold script_step. destruct (String.eqb (el_tag e) "script") eqn:Hl;
    [|by intros [= <- _]].
  assert (Ha : String.eqb (el_tag e) "a" = false)
    by (apply String.eqb_eq in Hl; rewrite Hl; reflexivity).
  destruct (el_get e "src") as [h|]; [|by intros [= <- _]].
  destruct (is_empty h); [by intros [= <- _]|]. intros H.
  apply bind_inv in H as [(x & s1 & _ & H)|(e0 & _ & [=])].
  destruct (is_empty x); [by injection H as <- _|].
  apply bind_inv in H as [(y & s2 & _ & H)|(e0 & _ & [=])].
  destruct (is_empty y); injection H as <- _; [reflexivity|].
  apply anchor_view_set_not_anchor, Ha.
Qed.

Lemma style_step_view url e st b st' :
  style_step w url e st = (Ok b, st') → anchor_view b = anchor_view e.
Proof.
  unfold style_step. destruct (el_get e "style") as [s|]; [|by intros [= <- _]].
  destruct (contains s "background-image" || contains s "background:");
    [|by intros [= <- _]].
  intros H. apply bind_inv in H as [(x & s1 & _ & H)|(e0 & _ & [=])].
  injection H as <- _. apply anchor_view_set_other. discriminate.
Qed.

Lemma mapM_view {A B} (f : A → M A) (V : A → B) :
  (∀ a st b st', f a st = (Ok b, st') → V b = V a) →
  ∀ l st l' st', mapM f l st = (Ok l', st') → map V l' = map V l.
Proof.
  intros Hf. induction l as [|x xs IH]; intros st l' st' H.
  - injection H as <- _. reflexivity.
  - cbn [mapM] in H.
    apply bind_inv in H as [(y & s1 & Hy & H)|(e0 & _ & [=])].
    apply bind_inv in H as [(ys & s2 & Hys & H)|(e0 & _ & [=])].
    injection H as <- _. cbn [map]. f_equal; eauto.
Qed.

Lemma after_visit_view url b sp st sp' st' :
  after_visit w url b sp st = (Ok sp', st') →
  map anchor_view sp' = map anchor_view sp.
Proof.
  unfold after_visit. intros H.
  apply bind_inv in H as [(? & s0 & _ & H)|(e0 & _ & [=])].
  apply bind_inv in H as [(sp1 & s1 & H1 & H)|(e0 & _ & [=])].
  apply bind_inv in H as [(sp2 & s2 & H2 & H)|(e0 & _ & [=])].
  apply bind_inv in H as [(sp3 & s3 & H3 & H)|(e0 & _ & [=])].
  apply bind_inv in H as [(sp4 & s4 & H4 & H)|(e0 & _ & [=])].
  apply bind_inv in H as [(sp5 & s5 & H5 & H)|(e0 & _ & [=])].
  apply bind_inv in H as [(? & s6 & _ & H)|(e0 & _ & [=])].
  injection H as <- _.
  rewrite (mapM_view _ _ (icon_step_view url) _ _ _ _ H5).
  rewrite (mapM_view _ _ (script_step_view url) _ _ _ _ H4).
  rewrite (mapM_view _ _ (style_step_view url) _ _ _ _ H3).
  rewrite (mapM_view _ _ (img_step_view url) _ _ _ _ H2).
  apply (mapM_view _ _ (css_step_view url) _ _ _ _ H1).
Qed.

(** [find_internal_links] reads the anchors of the page, and the base
    URL and domain of the object, and nothing else. *)
Lemma internal_link_view (s1 s2 : cloner) (base : string) (e1 e2 : element) :
  base_url s1 = base_url s2 → domain s1 = domain s2 →
  anchor_view e1 = anchor_view e2 →
  internal_link w s1 base e1 = internal_link w s2 base e2.
Proof.
  intros Hb Hd Hv. unfold internal_link, anchor_view in *.
  destruct (String.eqb (el_tag e1) "a"), (String.eqb (el_tag e2) "a");
    try discriminate; [|reflexivity].
  injection Hv as ->. destruct (el_get e2 "href") as [h|]; [|reflexivity].
  unfold _normalize_url, _is_same_domain. rewrite Hb, Hd. reflexivity.
Qed.

Lemma find_internal_links_view (s1 s2 : cloner) (base : string) :
  base_url s1 = base_url s2 → domain s1 = domain s2 →
  ∀ sp1 sp2, map anchor_view sp1 = map anchor_view sp2 →
  find_internal_links w s1 sp1 base = find_internal_links w s2 sp2 base.
Proof.
  intros Hb Hd. induction sp1 as [|e1 sp1 IH]; intros [|e2 sp2] Hv;
    try discriminate; [reflexivity|].
  injection Hv as Hv1 Hv2. cbn [find_internal_links].
  rewrite (internal_link_view s1 s2 base e1 e2 Hb Hd Hv1), (IH sp2 Hv2).
  reflexivity.
Qed.

End AnchorsSurvive.

(** ** What the crawl requests *)

Section Discovery.
Variable w : world.
Variable self0 : cloner.

Lemma page_request_after_frame st st' u :
  frame asset_kind st st' →
  (Page, u) ∈ requests_log st' → (Page, u) ∈ requests_log st.
Proof.
  intros Hf Hin. destruct (fr_log _ _ _ Hf) as (l & Hl & HF).
  rewrite Hl in Hin. apply elem_of_app in Hin as [Hin|Hin]; [exact Hin|].
  rewrite Forall_forall in HF. specialize (HF _ Hin). discriminate HF.
Qed.

Lemma crawl_turn_inv max_pages todo st :
  crawl_inv w self0 todo st →
  match crawl_turn w max_pages todo st with
  | Next todo' st' => crawl_inv w self0 todo' st'
  | Stop _ st' => crawl_inv w self0 ∅ st'
  end.
Proof.
  intros (Hb & Hd & Htodo & Hlog). unfold crawl_turn.
  assert (Hstop : crawl_inv w self0 ∅ st).
  { repeat split; try assumption. intros u Hu.
    by apply not_elem_of_empty in Hu. }
  destruct (set_pop w (requests_log st) todo) as [url|] eqn:Hpop; [|exact Hstop].
  apply set_pop_elem in Hpop.
  destruct (negb _); [exact Hstop|].
  assert (Hrest : ∀ u, u ∈ todo ∖ {[url]} → discoverable w self0 u).
  { intros u Hu%elem_of_difference. apply Htodo, Hu. }
  assert (Hlog1 : ∀ u, (Page, u) ∈ requests_log (visit url st) →
            (Page, u) ∈ requests_log self0 ∨ discoverable w self0 u).
  { intros u Hu. cbn in Hu. apply elem_of_app in Hu as [Hu|Hu]; [auto|].
    apply list_elem_of_singleton in Hu. injection Hu as ->. right. auto. }
  case_bool_decide as Hv; [by repeat split|].
  destruct (http_get w (requests_log st) url) as [body|] eqn:Hg.
  - destruct (parser_ok w body) eqn:Hp.
    2:{ rewrite (scrape_page_rejected w url true st body Hv Hg Hp).
        repeat split; assumption. }
    destruct (scrape_page_fetched w url true st body Hv Hg Hp)
      as (o & st' & Hs & Hf & Hsp).
    rewrite Hs.
    assert (Hb' : base_url st' = base_url self0)
      by (rewrite (fr_base_url _ _ _ Hf); exact Hb).
    assert (Hd' : domain st' = domain self0)
      by (rewrite (fr_domain _ _ _ Hf); exact Hd).
    assert (Hlog' : ∀ u, (Page, u) ∈ requests_log st' →
              (Page, u) ∈ requests_log self0 ∨ discoverable w self0 u).
    { intros u Hu. apply Hlog1. eapply page_request_after_frame; eassumption. }
    destruct o as [sp|]; [|by repeat split].
    destruct (find_internal_links w st' sp url) as [links|e] eqn:Hl.
    + repeat split; try assumption. intros u Hu.
      apply elem_of_union in Hu as [Hu|Hu]; [auto|].
      apply elem_of_difference in Hu as [Hu _].
      apply (disc_link w self0 url (requests_log st) body links u);
        [auto | exact Hg | exact Hp | | exact Hu].
      rewrite <- Hl. symmetry.
      apply find_internal_links_view; [assumption|assumption|].
      eapply after_visit_view, Hsp. reflexivity.
    + repeat split; try assumption. intros u Hu.
      by apply not_elem_of_empty in Hu.
  - rewrite (scrape_page_fetch_failed w url true st Hv Hg).
    repeat split; assumption.
Qed.

Lemma crawl_reaches_inv max_pages todo st todo' st' :
  crawl_reaches w max_pages todo st todo' st' →
  crawl_inv w self0 todo st → crawl_inv w self0 todo' st'.
Proof.
  induction 1 as [|todo st todo1 st1 todo2 st2 Ht _ IH]; [auto|].
  intros Hi. apply IH. pose proof (crawl_turn_inv max_pages todo st Hi) as H.
  rewrite Ht in H. exact H.
Qed.

Lemma crawl_result_inv fuel max_pages : ∀ todo st r st',
  crawl w fuel max_pages todo st = Some (r, st') →
  crawl_inv w self0 todo st → crawl_inv w self0 ∅ st'.
Proof.
  induction fuel as [|fuel IH]; intros todo st r st' H Hi; cbn [crawl] in H;
    pose proof (crawl_turn_inv max_pages todo st Hi) as Ht;
    destruct (crawl_turn w max_pages todo st) as [r1 s1|todo1 s1];
    try discriminate.
  - injection H as <- <-. exact Ht.
  - injection H as <- <-. exact Ht.
  - eapply IH; eassumption.
Qed.

End Discovery.

Lemma crawl_inv_start (w : world) (self : cloner) :
  crawl_inv w self {[base_url self]} self.
Proof.
  repeat split; auto.
  intros u Hu%elem_of_singleton. subst u. constructor.
Qed.

(** C4 (amended). The frontier is a set, and each turn of the loop takes
    out of it the element that [set.pop()] names: no first-in-first-out
    or depth order is kept.  What the crawl guarantees is that it only
    follows discovered links: at every turn the frontier holds
    discoverable URLs only, the URL taken out is one of them, and every
    page requested, up to the end of [scrape_full_site], is the start
    URL or an internal link of a page served by a discoverable URL. *)
Theorem crawl_follows_discovered_links (w : world) (max_pages : Z) (self : cloner) :
  (∀ todo' self',
     crawl_reaches w max_pages {[base_url self]} self todo' self' →
     (∀ u, u ∈ todo' → discoverable w self u) ∧
     (∀ u, set_pop w (requests_log self') todo' = Some u →
           u ∈ todo' ∧ discoverable w self u) ∧
     (∀ u, (Page, u) ∈ requests_log self' →
           (Page, u) ∈ requests_log self ∨ discoverable w self u)) ∧
  (∀ fuel r self',
     scrape_full_site w fuel max_pages self = Some (r, self') →
     ∀ u, (Page, u) ∈ requests_log self' →
          (Page, u) ∈ requests_log self ∨ discoverable w self u).
Proof.
  split.
  - intros todo' self' Hr.
    destruct (crawl_reaches_inv w self _ _ _ _ _ Hr (crawl_inv_start w self))
      as (_ & _ & Htodo & Hlog).
    split; [exact Htodo|]. split; [|exact Hlog].
    intros u Hu%set_pop_elem. auto.
  - intros fuel r self' H u Hu. unfold scrape_full_site in H.
    destruct (crawl w fuel max_pages {[base_url self]} self)
      as [[r1 self1]|] eqn:Hc; [|discriminate].
    destruct (crawl_result_inv w self _ _ _ _ _ _ Hc (crawl_inv_start w self))
      as (_ & _ & _ & Hlog).
    apply Hlog. destruct r1 as [[]|e].
    + injection H as H. eapply page_request_after_frame; [|exact Hu].
      eapply keeps_save_summary, H.
    + injection H as <- <-. exact Hu.
Qed.

Lemma crawl_follows_discovered_links_witness :
  discoverable two_level_world
    (cloner_for two_level_world "https://example.com/" "output")
    "https://example.com/p1".
Proof.
  assert (∃ todo' self',
            crawl_reaches two_level_world 50 {[ "https://example.com" ]}
              (cloner_for two_level_world "https://example.com/" "output")
              todo' self' ∧
            "https://example.com/p1" ∈ todo') as (todo' & self' & Hr & Hin).
  { exists {[ "https://example.com/p1"; "https://example.com/p2" ]}.
    eexists. split.
    - eapply reach_next; [vm_compute; reflexivity | apply reach_here].
    - apply elem_of_union. left. apply elem_of_singleton. reflexivity. }
  exact (proj1 (proj1 (crawl_follows_discovered_links two_level_world 50
                         (cloner_for two_level_world "https://example.com/" "output"))
                  todo' self' Hr) _ Hin).
Defined.

(* ===================================================================== *)
(** * Strings: splitting and joining *)
(* ===================================================================== *)

Lemma app_cons_s (a : ascii) (s t : string) : String a s +:+ t = String a (s +:+ t).
Proof. reflexivity. Qed.

Lemma app_nil_l_s (t : string) : "" +:+ t = t.
Proof. reflexivity. Qed.

Lemma app_nil_r_s (s : string) : s +:+ "" = s.
Proof. induction s as [|a s IH]; [reflexivity|]. rewrite app_cons_s, IH. reflexivity. Qed.

Lemma app_assoc_s (a b c : string) : (a +:+ b) +:+ c = a +:+ (b +:+ c).
Proof. induction a as [|x a IH]; [reflexivity|]. rewrite !app_cons_s, IH. reflexivity. Qed.

Lemma forallb_app_s (p : ascii → bool) (a b : string) :
  forallb p (a +:+ b) = forallb p a && forallb p b.
Proof.
  induction a as [|x a IH]; [reflexivity|].
  rewrite app_cons_s. cbn [forallb]. rewrite IH, andb_assoc. reflexivity.
Qed.

Lemma forallb_impl_s (p q : ascii → bool) (s : string) :
  (∀ c, p c = true → q c = true) → forallb p s = true → forallb q s = true.
Proof.
  intros Hpq. induction s as [|a s IH]; [reflexivity|]. cbn [forallb].
  intros [Ha Hs]%andb_true_iff. rewrite (Hpq _ Ha), (IH Hs). reflexivity.
Qed.

Lemma forallb_and_s (p q : ascii → bool) (s : string) :
  forallb (fun c => p c && q c) s = forallb p s && forallb q s.
Proof.
  induction s as [|a s IH]; [reflexivity|]. cbn [forallb]. rewrite IH.
  destruct (p a), (q a), (forallb p s), (forallb q s); reflexivity.
Qed.

(** [c] does not occur in [s] *)
Lemma contains_char_forallb (s : string) (c : ascii) :
  contains_char s c = negb (forallb (fun a => negb (Ascii.eqb a c)) s).
Proof.
  induction s as [|a s IH]; [reflexivity|]. cbn [contains_char forallb].
  rewrite IH. destruct (Ascii.eqb a c); reflexivity.
Qed.

Lemma absent_of_forallb (p : ascii → bool) (s : string) (c : ascii) :
  p c = false → forallb p s = true → contains_char s c = false.
Proof.
  intros Hc H. rewrite contains_char_forallb. apply negb_false_iff.
  revert H. apply forallb_impl_s. intros a Ha.
  destruct (Ascii.eqb_spec a c) as [->|]; [congruence|reflexivity].
Qed.

Lemma contains_char_app (a b : string) (c : ascii) :
  contains_char (a +:+ b) c = contains_char a c || contains_char b c.
Proof.
  rewrite !contains_char_forallb, forallb_app_s.
  destruct (forallb _ a), (forallb _ b); reflexivity.
Qed.

Lemma contains_single (s : string) (c : ascii) :
  contains s (String c "") = contains_char s c.
Proof.
  induction s as [|a s IH]; [reflexivity|]. cbn [contains contains_char has_prefix].
  rewrite IH, andb_true_r, (Ascii.eqb_sym c a). reflexivity.
Qed.

Lemma partition_spec (c : ascii) (s l r : string) :
  partition c s = Some (l, r) →
  s = l +:+ String c r ∧ contains_char l c = false.
Proof.
  revert l. induction s as [|a s IH]; intros l; [discriminate|].
  cbn [partition]. destruct (Ascii.eqb_spec a c) as [->|Hne].
  - intros [= <- <-]. split; reflexivity.
  - destruct (partition c s) as [[l' r']|]; [|discriminate].
    intros [= <- <-]. destruct (IH l' eq_refl) as [-> Hl]. split; [reflexivity|].
    cbn [contains_char]. rewrite Hl. apply Ascii.eqb_neq in Hne. rewrite Hne.
    reflexivity.
Qed.

Lemma partition_none (c : ascii) (s : string) :
  contains_char s c = false → partition c s = None.
Proof.
  induction s as [|a s IH]; [reflexivity|]. cbn [contains_char partition].
  intros [Ha Hs]%orb_false_iff. rewrite Ha, (IH Hs). reflexivity.
Qed.

Lemma partition_none_inv (c : ascii) (s : string) :
  partition c s = None → contains_char s c = false.
Proof.
  induction s as [|a s IH]; [reflexivity|]. cbn [partition contains_char].
  destruct (Ascii.eqb a c); [discriminate|].
  destruct (partition c s) as [[]|]; [discriminate|]. auto.
Qed.

Lemma partition_app (c : ascii) (l r : string) :
  contains_char l c = false → partition c (l +:+ String c r) = Some (l, r).
Proof.
  induction l as [|a l IH]; intros H.
  - rewrite app_nil_l_s. cbn [partition]. rewrite Ascii.eqb_refl. reflexivity.
  - cbn [contains_char] in H. apply orb_false_iff in H as [Ha Hl].
    rewrite app_cons_s. cbn [partition]. rewrite Ha, (IH Hl). reflexivity.
Qed.

Lemma rpartition_none (c : ascii) (s : string) :
  contains_char s c = false → rpartition c s = None.
Proof.
  induction s as [|a s IH]; [reflexivity|]. cbn [contains_char rpartition].
  intros [Ha Hs]%orb_false_iff. rewrite Ha, (IH Hs). reflexivity.
Qed.

Lemma rpartition_spec (c : ascii) (s l r : string) :
  rpartition c s = Some (l, r) →
  s = l +:+ String c r ∧ contains_char r c = false.
Proof.
  revert l. induction s as [|a s IH]; intros l; [discriminate|].
  cbn [rpartition]. destruct (rpartition c s) as [[l' r']|] eqn:E.
  - intros [= <- <-]. destruct (IH l' eq_refl) as [-> Hr]. split; [reflexivity|exact Hr].
  - destruct (Ascii.eqb_spec a c) as [->|Hne]; [|discriminate].
    intros [= <- <-]. split; [reflexivity|].
    destruct (contains_char s c) eqn:Hc; [|reflexivity].
    exfalso. clear IH. revert E Hc. clear. induction s as [|b s IH]; [discriminate|].
    cbn [rpartition contains_char]. destruct (rpartition c s) as [[]|]; [discriminate|].
    destruct (Ascii.eqb b c); [discriminate|]. cbn [orb]. intros _. apply IH. reflexivity.
Qed.

Lemma rpartition_app (c : ascii) (l r : string) :
  contains_char r c = false → rpartition c (l +:+ String c r) = Some (l, r).
Proof.
  intros Hr. induction l as [|a l IH].
  - rewrite app_nil_l_s. cbn [rpartition]. rewrite (rpartition_none c r Hr), Ascii.eqb_refl.
    reflexivity.
  - rewrite app_cons_s. cbn [rpartition]. rewrite IH. reflexivity.
Qed.

Lemma span_spec (p : ascii → bool) (s l r : string) :
  span p s = (l, r) → s = l +:+ r ∧ forallb p l = true ∧ stops p r.
Proof.
  revert l. induction s as [|a s IH]; intros l.
  - intros [= <- <-]. repeat split.
  - cbn [span]. destruct (p a) eqn:Ha.
    + destruct (span p s) as [l' r']. intros [= <- <-].
      destruct (IH l' eq_refl) as (-> & Hl & Hr). repeat split; [|exact Hr].
      cbn [forallb]. rewrite Ha, Hl. reflexivity.
    + intros [= <- <-]. repeat split. exact Ha.
Qed.


Lemma lstrip_stops (p : ascii → bool) (s : string) :
  stops (fun c => p c) s → lstrip p s = s.
Proof. destruct s as [|a s]; [reflexivity|]. cbn. intros ->. reflexivity. Qed.

Lemma lstrip_spec (p : ascii → bool) (s : string) : stops p (lstrip p s).
Proof.
  induction s as [|a s IH]; [exact I|]. cbn [lstrip].
  destruct (p a) eqn:Ha; [exact IH|exact Ha].
Qed.

Lemma forallb_lstrip (p q : ascii → bool) (s : string) :
  forallb q s = true → forallb q (lstrip p s) = true.
Proof.
  induction s as [|a s IH]; [reflexivity|]. cbn [lstrip forallb].
  intros [Ha Hs]%andb_true_iff. destruct (p a); [auto|].
  cbn [forallb]. rewrite Ha, Hs. reflexivity.
Qed.

Lemma forallb_drop (q : ascii → bool) (n : nat) (s : string) :
  forallb q s = true → forallb q (drop n s) = true.
Proof.
  revert s. induction n as [|n IH]; intros [|a s]; try (intros; assumption || reflexivity).
  cbn [drop forallb]. intros [_ Hs]%andb_true_iff. auto.
Qed.

(** Removing one character: [replace] with an empty replacement. *)
Lemma replace_char_absent (s : string) (c : ascii) :
  contains_char s c = false → replace s (String c "") "" = s.
Proof. intros H. apply replace_absent. rewrite contains_single. exact H. Qed.

Lemma replace_char_step (c a : ascii) (s : string) :
  replace (String a s) (String c "") "" =
    if Ascii.eqb c a then replace s (String c "") ""
    else String a (replace s (String c "") "").
Proof.
  unfold replace. cbn [replace_from has_prefix String.length Nat.sub].
  rewrite andb_true_r. destruct (Ascii.eqb c a); reflexivity.
Qed.

Lemma forallb_replace_char (q : ascii → bool) (s : string) (c : ascii) :
  forallb q s = true → forallb q (replace s (String c "") "") = true.
Proof.
  induction s as [|a s IH]; [reflexivity|]. rewrite replace_char_step.
  cbn [forallb]. intros [Ha Hs]%andb_true_iff.
  destruct (Ascii.eqb c a); [auto|]. cbn [forallb]. rewrite Ha, (IH Hs). reflexivity.
Qed.

Lemma replace_char_removes (s : string) (c : ascii) :
  forallb (fun a => negb (Ascii.eqb a c)) (replace s (String c "") "") = true.
Proof.
  induction s as [|a s IH]; [reflexivity|]. rewrite replace_char_step.
  destruct (Ascii.eqb c a) eqn:E; [exact IH|]. cbn [forallb].
  rewrite Ascii.eqb_sym, E, IH. reflexivity.
Qed.

(* ===================================================================== *)
(** * urlsplit, step by step *)
(* ===================================================================== *)

Lemma urlsplit_steps (host_ok : string → bool) (url scheme : string) :
  urlsplit host_ok url scheme =
    (let '(sch, url2) :=
       split_scheme (remove_unsafe (lstrip c0_control_or_space url))
                    (remove_unsafe (strip c0_control_or_space scheme)) in
     let? nu := split_netloc host_ok url2 in
     let '(nl, url3) := nu in
     Ok (split_tail sch nl url3)).
Proof.
  assert (Htail : ∀ sch nu,
    (let? nu' := nu in
     let '(nl, u) := nu' in
     let '(u, fragment) :=
       match partition "#" u with
       | Some (u, f) => (u, f)
       | None => (u, EmptyString)
       end in
     let '(u, query) :=
       match partition "?" u with
       | Some (u, q) => (u, q)
       | None => (u, EmptyString)
       end in
     Ok (mkSplit sch nl u query fragment))
    = (let? nu' := nu in let '(nl, u) := nu' in Ok (split_tail sch nl u))).
  { intros sch [[nl u]|e]; [|reflexivity]. cbn [rbind]. unfold split_tail.
    destruct (partition "#" u) as [[u1 f]|];
      [destruct (partition "?" u1) as [[u2 q]|] | destruct (partition "?" u) as [[u2 q]|]];
      reflexivity. }
  assert (Hnet : ∀ u,
    (if has_prefix "//" u then
       let '(nl, u') := _splitnetloc u 2 in
       if (contains_char nl "[" && negb (contains_char nl "]")) ||
          (contains_char nl "]" && negb (contains_char nl "["))
       then Raise ValueError
       else if contains_char nl "[" && contains_char nl "]"
       then (let? _ := _check_bracketed_netloc host_ok nl in Ok (nl, u'))
       else Ok (nl, u')
     else Ok (EmptyString, u))
    = split_netloc host_ok u).
  { intros u. unfold split_netloc, netloc_check.
    destruct (has_prefix "//" u); [|reflexivity].
    destruct (_splitnetloc u 2) as [nl u']. destruct (_ || _); [reflexivity|].
    destruct (_ && _); reflexivity. }
  unfold urlsplit, split_scheme.
  destruct (partition ":" _) as [[[|c0 pre] rest]|];
    [| destruct (is_alpha c0 && forallb scheme_char (String c0 pre)) |];
    rewrite Hnet; apply Htail.
Qed.

(** ** Character classes *)

Lemma scheme_char_facts (c : ascii) :
  scheme_char c = true →
  safe_char c = true ∧ Ascii.eqb c ":" = false ∧ c0_control_or_space c = false.
Proof.
  destruct c as [[] [] [] [] [] [] [] []]; vm_compute; intros H;
    first [discriminate H | repeat split].
Qed.

Lemma alpha_not_space (c : ascii) :
  is_alpha c = true → c0_control_or_space c = false.
Proof.
  destruct c as [[] [] [] [] [] [] [] []]; vm_compute; intros H;
    first [discriminate H | reflexivity].
Qed.

Lemma alpha_not_slash (c : ascii) : is_alpha c = true → Ascii.eqb c "/" = false.
Proof.
  destruct c as [[] [] [] [] [] [] [] []]; vm_compute; intros H;
    first [discriminate H | reflexivity].
Qed.

Lemma lower_char_idem (c : ascii) : lower_char (lower_char c) = lower_char c.
Proof. destruct c as [[] [] [] [] [] [] [] []]; vm_compute; reflexivity. Qed.

Lemma lower_char_scheme (c : ascii) : scheme_char (lower_char c) = scheme_char c.
Proof. destruct c as [[] [] [] [] [] [] [] []]; vm_compute; reflexivity. Qed.

Lemma lower_char_alpha (c : ascii) : is_alpha (lower_char c) = is_alpha c.
Proof. destruct c as [[] [] [] [] [] [] [] []]; vm_compute; reflexivity. Qed.

Lemma lower_idem (s : string) : lower (lower s) = lower s.
Proof.
  induction s as [|a s IH]; [reflexivity|]. cbn [lower].
  rewrite lower_char_idem, IH. reflexivity.
Qed.

Lemma forallb_scheme_lower (s : string) :
  forallb scheme_char (lower s) = forallb scheme_char s.
Proof.
  induction s as [|a s IH]; [reflexivity|]. cbn [lower forallb].
  rewrite lower_char_scheme, IH. reflexivity.
Qed.

Lemma valid_scheme_lower (c0 : ascii) (pre : string) :
  is_alpha c0 = true → forallb scheme_char (String c0 pre) = true →
  valid_scheme (lower (String c0 pre)).
Proof.
  intros Ha Hs. split; [|split].
  - cbn [lower]. rewrite lower_char_alpha. exact Ha.
  - rewrite forallb_scheme_lower. exact Hs.
  - apply lower_idem.
Qed.

Lemma valid_scheme_safe (s : string) :
  valid_scheme s → forallb safe_char s = true ∧ contains_char s ":" = false.
Proof.
  intros (_ & Hs & _). split.
  - revert Hs. apply forallb_impl_s. intros c Hc. apply scheme_char_facts, Hc.
  - apply (absent_of_forallb scheme_char); [reflexivity|exact Hs].
Qed.

Lemma forallb_ext_s (p q : ascii → bool) (s : string) :
  (∀ c, p c = q c) → forallb p s = forallb q s.
Proof.
  intros H. induction s as [|a s IH]; [reflexivity|]. cbn [forallb].
  rewrite H, IH. reflexivity.
Qed.

Lemma absent_forallb (s : string) (c : ascii) :
  contains_char s c = false → forallb (fun a => negb (Ascii.eqb a c)) s = true.
Proof. rewrite contains_char_forallb. apply negb_false_iff. Qed.

(** ** Unsafe characters *)

Lemma forallb_remove_unsafe (q : ascii → bool) (s : string) :
  forallb q s = true → forallb q (remove_unsafe s) = true.
Proof. intros H. unfold remove_unsafe. cbv zeta. by do 3 apply forallb_replace_char. Qed.

Lemma remove_unsafe_safe (s : string) : forallb safe_char (remove_unsafe s) = true.
Proof.
  unfold remove_unsafe. cbv zeta.
  set (s1 := replace s (String "009" "") "").
  set (s2 := replace s1 (String "013" "") "").
  set (s3 := replace s2 (String "010" "") "").
  assert (H1 : forallb (fun a => negb (Ascii.eqb a "009")) s3 = true)
    by (do 2 apply forallb_replace_char; apply replace_char_removes).
  assert (H2 : forallb (fun a => negb (Ascii.eqb a "013")) s3 = true)
    by (apply forallb_replace_char, replace_char_removes).
  assert (H3 : forallb (fun a => negb (Ascii.eqb a "010")) s3 = true)
    by apply replace_char_removes.
  rewrite (forallb_ext_s safe_char
             (fun c => (negb (Ascii.eqb c "009") && negb (Ascii.eqb c "013"))
                       && negb (Ascii.eqb c "010"))).
  - rewrite !forallb_and_s, H1, H2, H3. reflexivity.
  - intros c. unfold safe_char.
    destruct (Ascii.eqb c "009"), (Ascii.eqb c "013"), (Ascii.eqb c "010"); reflexivity.
Qed.

Lemma remove_unsafe_id (s : string) : forallb safe_char s = true → remove_unsafe s = s.
Proof.
  intros H. unfold remove_unsafe. cbv zeta.
  rewrite (replace_char_absent s "009")
    by (apply (absent_of_forallb safe_char); [reflexivity|exact H]).
  rewrite (replace_char_absent s "013")
    by (apply (absent_of_forallb safe_char); [reflexivity|exact H]).
  apply replace_char_absent.
  apply (absent_of_forallb safe_char); [reflexivity|exact H].
Qed.

(** ** The scheme *)

Lemma split_scheme_spec (url1 d1 sch url2 : string) (q : ascii → bool) :
  split_scheme url1 d1 = (sch, url2) →
  forallb q url1 = true →
  (sch = d1 ∨ valid_scheme sch) ∧ forallb q url2 = true.
Proof.
  unfold split_scheme. intros H Hq.
  destruct (partition ":" url1) as [[[|c0 pre] rest]|] eqn:Hp;
    try (injection H as <- <-; split; [by left|exact Hq]).
  destruct (is_alpha c0 && forallb scheme_char (String c0 pre)) eqn:Hs;
    injection H as <- <-; [|split; [by left|exact Hq]].
  apply andb_true_iff in Hs as [Ha Hs]. split.
  - right. apply valid_scheme_lower; assumption.
  - apply partition_spec in Hp as [-> _]. rewrite forallb_app_s in Hq.
    apply andb_true_iff in Hq as [_ Hq]. cbn [forallb] in Hq.
    apply andb_true_iff in Hq as [_ Hq]. exact Hq.
Qed.

Lemma split_scheme_canonical (s rest d1 : string) :
  valid_scheme s → split_scheme (s +:+ String ":" rest) d1 = (s, rest).
Proof.
  intros Hv. pose proof (valid_scheme_safe s Hv) as [_ Hc].
  destruct Hv as (Ha & Hs & Hl). unfold split_scheme.
  rewrite (partition_app ":" s rest Hc).
  destruct s as [|c0 pre]; [contradiction|]. rewrite Ha, Hs, Hl. reflexivity.
Qed.


(** ** The network location *)

Lemma netloc_check_empty (host_ok : string → bool) : netloc_check host_ok "" = Ok ().
Proof. reflexivity. Qed.

Lemma split_netloc_spec (host_ok : string → bool) (u nl u3 : string) :
  split_netloc host_ok u = Ok (nl, u3) →
  netloc_check host_ok nl = Ok () ∧
  forallb netloc_char nl = true ∧
  (nl ≠ "" → stops netloc_char u3) ∧
  (∀ q, forallb q u = true → forallb q nl = true ∧ forallb q u3 = true).
Proof.
  unfold split_netloc. destruct (has_prefix "//" u) eqn:Hp.
  - unfold _splitnetloc. destruct (span netloc_char (drop 2 u)) as [nl' u'] eqn:Hs.
    destruct (netloc_check host_ok nl') as [[]|e] eqn:Hc; [|discriminate].
    cbn [rbind]. intros [= <- <-]. apply span_spec in Hs as (Hd & Hn & Hst).
    split; [exact Hc|]. split; [exact Hn|]. split; [auto|].
    intros q Hq. apply (forallb_drop q 2) in Hq. rewrite Hd, forallb_app_s in Hq.
    apply andb_true_iff in Hq. exact Hq.
  - intros [= <- <-]. split; [reflexivity|]. split; [reflexivity|].
    split; [congruence|]. intros q Hq. split; [reflexivity|exact Hq].
Qed.


(** ** The fragment and the query *)

Lemma split_tail_parts (sch nl u3 : string) :
  forallb safe_char u3 = true →
  let sr := split_tail sch nl u3 in
  ss_scheme sr = sch ∧ ss_netloc sr = nl ∧
  forallb path_char (ss_path sr) = true ∧
  forallb query_char (ss_query sr) = true.
Proof.
  intros Hs. cbv zeta. unfold split_tail.
  assert (∃ u f, (match partition "#" u3 with
                  | Some (u, f) => (u, f) | None => (u3, "") end) = (u, f) ∧
                 forallb safe_char u = true ∧
                 forallb (fun a => negb (Ascii.eqb a "#")) u = true)
    as (u & f & -> & Hu & Hh).
  { destruct (partition "#" u3) as [[u f]|] eqn:Hp.
    - exists u, f. apply partition_spec in Hp as [-> Hc].
      rewrite forallb_app_s in Hs. apply andb_true_iff in Hs as [Hs _].
      split; [reflexivity|]. split; [exact Hs|]. apply absent_forallb, Hc.
    - exists u3, "". split; [reflexivity|]. split; [exact Hs|].
      apply absent_forallb, partition_none_inv, Hp. }
  assert (Hpath : ∀ x, forallb safe_char x = true →
            forallb (fun a => negb (Ascii.eqb a "#")) x = true →
            forallb (fun a => negb (Ascii.eqb a "?")) x = true →
            forallb path_char x = true).
  { intros x H1 H2 H3.
    rewrite (forallb_ext_s path_char
               (fun c => (safe_char c && negb (Ascii.eqb c "?"))
                         && negb (Ascii.eqb c "#"))) by reflexivity.
    rewrite !forallb_and_s, H1, H2, H3. reflexivity. }
  assert (Hquery : ∀ x, forallb safe_char x = true →
            forallb (fun a => negb (Ascii.eqb a "#")) x = true →
            forallb query_char x = true).
  { intros x H1 H2. unfold query_char. rewrite forallb_and_s, H1, H2. reflexivity. }
  destruct (partition "?" u) as [[p q]|] eqn:Hp;
    cbn [ss_scheme ss_netloc ss_path ss_query].
  - apply partition_spec in Hp as [-> Hc].
    rewrite forallb_app_s in Hu, Hh.
    apply andb_true_iff in Hu as [Hu1 Hu2], Hh as [Hh1 Hh2].
    cbn [forallb] in Hu2, Hh2.
    apply andb_true_iff in Hu2 as [_ Hu2], Hh2 as [_ Hh2].
    split; [reflexivity|]. split; [reflexivity|]. split.
    + apply Hpath; auto using absent_forallb.
    + apply Hquery; auto.
  - split; [reflexivity|]. split; [reflexivity|]. split; [|reflexivity].
    apply Hpath; auto. apply absent_forallb, partition_none_inv, Hp.
Qed.


Lemma split_tail_slash (sch nl u3 : string) :
  stops netloc_char u3 →
  stops (fun c => negb (Ascii.eqb c "/")) (ss_path (split_tail sch nl u3)).
Proof.
  intros Hst. unfold split_tail.
  assert (∃ t, u3 = ss_path (split_tail sch nl u3) +:+ t ∧
               stops (fun a => negb (Ascii.eqb a "#") && negb (Ascii.eqb a "?")) t)
    as (t & Ht & Hstop).
  { unfold split_tail. destruct (partition "#" u3) as [[u f]|] eqn:Hp.
    - apply partition_spec in Hp as [-> _].
      destruct (partition "?" u) as [[p q]|] eqn:Hq; cbn [ss_path].
      + apply partition_spec in Hq as [-> _]. exists (String "?" q +:+ String "#" f).
        split; [by rewrite app_assoc_s|reflexivity].
      + exists (String "#" f). split; reflexivity.
    - destruct (partition "?" u3) as [[p q]|] eqn:Hq; cbn [ss_path].
      + apply partition_spec in Hq as [-> _]. exists (String "?" q).
        split; reflexivity.
      + exists "". split; [by rewrite app_nil_r_s|exact I]. }
  unfold split_tail in Ht.
  destruct (ss_path _) as [|c p] eqn:E; [exact I|].
  rewrite Ht, app_cons_s in Hst. cbn in Hst |- *.
  assert (Hc : forallb path_char (String c p) = true ∨ True) by (right; exact I).
  clear Hc. unfold netloc_char in Hst. apply negb_false_iff in Hst.
  destruct (Ascii.eqb c "/"); [reflexivity|]. cbn [orb] in Hst.
  exfalso.
  (* the path holds neither [?] nor [#] *)
  assert (Hno : Ascii.eqb c "?" = false ∧ Ascii.eqb c "#" = false).
  { clear Hst Ht Hstop t. revert E. destruct (partition "#" u3) as [[u f]|] eqn:Hp.
    - apply partition_spec in Hp as [-> Hn].
      destruct (partition "?" u) as [[p' q]|] eqn:Hq; cbn [ss_path]; intros ->.
      + apply partition_spec in Hq as [-> Hn'].
        rewrite contains_char_app in Hn. apply orb_false_iff in Hn as [Hn _].
        cbn [contains_char] in Hn, Hn'.
        apply orb_false_iff in Hn as [Hn _], Hn' as [Hn' _]. auto.
      + apply partition_none_inv in Hq. cbn [contains_char] in Hn, Hq.
        apply orb_false_iff in Hn as [Hn _], Hq as [Hq _]. auto.
    - apply partition_none_inv in Hp.
      destruct (partition "?" u3) as [[p' q]|] eqn:Hq; cbn [ss_path]; intros ->.
      + apply partition_spec in Hq as [-> Hn'].
        rewrite contains_char_app in Hp. apply orb_false_iff in Hp as [Hp _].
        cbn [contains_char] in Hp, Hn'.
        apply orb_false_iff in Hp as [Hp _], Hn' as [Hn' _]. auto.
      + apply partition_none_inv in Hq. cbn [contains_char] in Hp, Hq.
        apply orb_false_iff in Hp as [Hp _], Hq as [Hq _]. auto. }
  destruct Hno as [H1 H2]. rewrite H1, H2 in Hst. discriminate.
Qed.


(** ** The parameters *)

Lemma rpartition_none_inv (c : ascii) (s : string) :
  rpartition c s = None → contains_char s c = false.
Proof.
  induction s as [|a s IH]; [reflexivity|]. cbn [rpartition contains_char].
  destruct (rpartition c s) as [[]|]; [discriminate|].
  destruct (Ascii.eqb a c); [discriminate|]. auto.
Qed.

Lemma contains_after (l r : string) (c : ascii) :
  contains_char (l +:+ String c r) c = true.
Proof.
  rewrite contains_char_app. cbn [contains_char]. rewrite Ascii.eqb_refl.
  apply orb_true_r.
Qed.

Lemma splitparams_rejoin (sp path params : string) :
  _splitparams sp = (path, params) →
  (∃ t, sp = path_with_params path params +:+ t) ∧
  (if contains_char (path_with_params path params) ";"
   then _splitparams (path_with_params path params) = (path, params)
   else params = "").
Proof.
  unfold _splitparams, path_with_params.
  destruct (rpartition "/" sp) as [[dir last]|] eqn:Hr.
  - apply rpartition_spec in Hr as [-> Hlast].
    destruct (partition ";" last) as [[l p]|] eqn:Hp.
    + apply partition_spec in Hp as [-> Hl]. intros [= <- <-].
      rewrite contains_char_app in Hlast. apply orb_false_iff in Hlast as [Hl' Hp'].
      cbn [contains_char] in Hp'. apply orb_false_iff in Hp' as [_ Hp'].
      destruct p as [|c p]; cbn [is_empty negb].
      * split; [exists ";"; rewrite app_assoc_s; reflexivity|].
        match goal with |- if ?c then _ else _ => destruct c end; [|reflexivity].
        change ("/" +:+ l) with (String "/" l).
        rewrite (rpartition_app "/" dir l Hl'), (partition_none ";" l Hl). reflexivity.
      * assert (E : (dir +:+ "/" +:+ l) +:+ ";" +:+ String c p
                    = dir +:+ String "/" (l +:+ String ";" (String c p)))
          by (rewrite app_assoc_s; reflexivity).
        rewrite E. split; [exists ""; rewrite app_nil_r_s; reflexivity|].
        replace (contains_char (dir +:+ String "/" (l +:+ String ";" (String c p))) ";")
          with true.
        2:{ symmetry. rewrite contains_char_app. cbn [contains_char].
            rewrite contains_after. cbn [orb]. apply orb_true_r. }
        rewrite (rpartition_app "/" dir).
        -- rewrite (partition_app ";" l (String c p) Hl). reflexivity.
        -- rewrite contains_char_app, Hl'. cbn [contains_char orb]. exact Hp'.
    + intros [= <- <-]. cbn [is_empty negb]. split; [exists ""; by rewrite app_nil_r_s|].
      match goal with |- if ?c then _ else _ => destruct c end; [|reflexivity].
      rewrite (rpartition_app "/" dir last Hlast), Hp. reflexivity.
  - destruct (partition ";" sp) as [[l p]|] eqn:Hp.
    + apply partition_spec in Hp as [-> Hl]. intros [= <- <-].
      apply rpartition_none_inv in Hr.
      destruct p as [|c p]; cbn [is_empty negb].
      * split; [exists ";"; reflexivity|]. rewrite Hl. reflexivity.
      * split; [exists ""; rewrite app_nil_r_s; reflexivity|].
        change (l +:+ ";" +:+ String c p) with (l +:+ String ";" (String c p)).
        rewrite contains_after.
        rewrite (rpartition_none "/" _ Hr), (partition_app ";" l (String c p) Hl).
        reflexivity.
    + intros [= <- <-]. cbn [is_empty negb]. split; [exists ""; by rewrite app_nil_r_s|].
      match goal with |- if ?c then _ else _ => destruct c end; [|reflexivity].
      rewrite Hr, Hp. reflexivity.
Qed.

(* ===================================================================== *)
(** * Parsing a URL that has a scheme and a network location *)
(* ===================================================================== *)

Lemma urlsplit_parts (host_ok : string → bool) (url : string) (sr : SplitResult) :
  urlsplit host_ok url "" = Ok sr →
  (ss_scheme sr = "" ∨ valid_scheme (ss_scheme sr)) ∧
  netloc_check host_ok (ss_netloc sr) = Ok () ∧
  forallb host_char (ss_netloc sr) = true ∧
  (ss_netloc sr ≠ "" → stops (fun c => negb (Ascii.eqb c "/")) (ss_path sr)) ∧
  forallb path_char (ss_path sr) = true ∧
  forallb query_char (ss_query sr) = true.
Proof.
  rewrite urlsplit_steps.
  set (url1 := remove_unsafe (lstrip c0_control_or_space url)).
  change (remove_unsafe (strip c0_control_or_space "")) with "".
  destruct (split_scheme url1 "") as [sch url2] eqn:Hsch.
  destruct (split_scheme_spec url1 "" sch url2 safe_char Hsch (remove_unsafe_safe _))
    as [Hs Hsafe2].
  destruct (split_netloc host_ok url2) as [[nl url3]|e] eqn:Hn; [|discriminate].
  cbn [rbind]. intros [= <-].
  destruct (split_netloc_spec host_ok url2 nl url3 Hn) as (Hc & Hnc & Hst & Hq).
  destruct (Hq safe_char Hsafe2) as [Hsafen Hsafe3].
  destruct (split_tail_parts sch nl url3 Hsafe3) as (E1 & E2 & Hp & Hqy).
  rewrite E1, E2. split; [exact Hs|]. split; [exact Hc|]. split.
  { unfold host_char. rewrite forallb_and_s, Hsafen, Hnc. reflexivity. }
  split; [|split; assumption].
  intros Hne. apply split_tail_slash. auto.
Qed.








(* ===================================================================== *)
(** * Normalizing twice *)
(* ===================================================================== *)




Lemma normalize_resolved (w : world) (self : cloner) (url : string)
    (base : option string) (v : string) :
  _normalize_url w self url base = Ok v →
  v = "" ∨
  ∃ j q, is_empty url = false ∧
         urljoin (bracketed_host_ok w) (effective_base self base) url = Ok j ∧
         url_parse w j = Ok q ∧ v = urlunparse (replace_fragment q "").
Proof.
  unfold _normalize_url. fold (effective_base self base).
  destruct (is_empty url) eqn:Eu; [intros [= <-]; by left|]. cbn [orb].
  destruct (startswith url "data:" || startswith url "javascript:");
    [intros [= <-]; by left|].
  destruct (urljoin _ _ url) as [j|e] eqn:Ej; [|discriminate]. cbn [rbind].
  destruct (url_parse w j) as [q|e] eqn:Eq; [|discriminate]. cbn [rbind].
  intros [= <-]. right. exists j, q. auto.
Qed.


(** ** A URL with a network location and no scheme *)

Lemma replace_char_app (a b : string) (c : ascii) :
  replace (a +:+ b) (String c "") ""
    = replace a (String c "") "" +:+ replace b (String c "") "".
Proof.
  induction a as [|x a IH]; [reflexivity|].
  rewrite app_cons_s, !replace_char_step, IH.
  destruct (Ascii.eqb c x); reflexivity.
Qed.

Lemma remove_unsafe_app (a b : string) :
  remove_unsafe (a +:+ b) = remove_unsafe a +:+ remove_unsafe b.
Proof. unfold remove_unsafe. cbv zeta. rewrite !replace_char_app. reflexivity. Qed.

Lemma remove_unsafe_cons (c : ascii) (s : string) :
  safe_char c = true → remove_unsafe (String c s) = String c (remove_unsafe s).
Proof.
  intros Hc. change (String c s) with (String c "" +:+ s).
  rewrite remove_unsafe_app, (remove_unsafe_id (String c "")); [reflexivity|].
  cbn [forallb]. rewrite Hc. reflexivity.
Qed.

Lemma rstrip_id (p : ascii → bool) (s : string) :
  forallb (fun c => negb (p c)) s = true → rstrip p s = s.
Proof.
  induction s as [|a s IH]; [reflexivity|]. cbn [forallb rstrip].
  intros [Ha Hs]%andb_true_iff. rewrite (IH Hs).
  apply negb_true_iff in Ha. rewrite Ha, andb_false_r. reflexivity.
Qed.

(** A scheme found by [urlsplit], or the empty default, is left as it is
    when it is given back as a default scheme. *)
Lemma clean_scheme (s : string) :
  s = "" ∨ valid_scheme s → remove_unsafe (strip c0_control_or_space s) = s.
Proof.
  intros [->|Hv]; [reflexivity|].
  pose proof (valid_scheme_safe s Hv) as [Hsafe _]. destruct Hv as (Ha & Hs & _).
  unfold strip. rewrite lstrip_stops.
  - rewrite rstrip_id; [apply remove_unsafe_id, Hsafe|].
    revert Hs. apply forallb_impl_s. intros c Hc. apply negb_true_iff.
    apply scheme_char_facts, Hc.
  - destruct s as [|c s]; [exact I|]. cbn. apply alpha_not_space, Ha.
Qed.

Lemma split_tail_scheme (sch nl u : string) :
  ss_scheme (split_tail sch nl u) = sch ∧ ss_netloc (split_tail sch nl u) = nl.
Proof.
  unfold split_tail.
  destruct (partition "#" u) as [[u1 f]|];
    [destruct (partition "?" u1) as [[u2 q]|] | destruct (partition "?" u) as [[u2 q]|]];
    split; reflexivity.
Qed.

Lemma urlsplit_scheme (host_ok : string → bool) (url d : string) (sr : SplitResult) :
  urlsplit host_ok url d = Ok sr →
  ss_scheme sr =
    fst (split_scheme (remove_unsafe (lstrip c0_control_or_space url))
                      (remove_unsafe (strip c0_control_or_space d))).
Proof.
  rewrite urlsplit_steps. destruct (split_scheme _ _) as [sch url2].
  destruct (split_netloc host_ok url2) as [[nl url3]|e]; [|discriminate].
  cbn [rbind fst]. intros [= <-]. apply split_tail_scheme.
Qed.

(** The scheme that [split_scheme] returns is the default one, or one
    found in the text whatever the default. *)
Lemma split_scheme_default (url1 d1 : string) :
  fst (split_scheme url1 d1) = d1 ∨
  (valid_scheme (fst (split_scheme url1 d1)) ∧
   ∀ d, fst (split_scheme url1 d) = fst (split_scheme url1 d1)).
Proof.
  unfold split_scheme.
  destruct (partition ":" url1) as [[[|c0 pre] rest]|]; try (by left).
  destruct (is_alpha c0 && forallb scheme_char (String c0 pre)) eqn:E; [|by left].
  right. apply andb_true_iff in E as [Ha Hs]. split; [|reflexivity].
  apply valid_scheme_lower; assumption.
Qed.

Lemma urlparse_scheme (host_ok : string → bool) (url d : string) (p : ParseResult) :
  urlparse host_ok url d = Ok p →
  scheme p =
    fst (split_scheme (remove_unsafe (lstrip c0_control_or_space url))
                      (remove_unsafe (strip c0_control_or_space d))).
Proof.
  unfold urlparse. destruct (urlsplit host_ok url d) as [sr|e] eqn:Hs; [|discriminate].
  cbn [rbind]. apply urlsplit_scheme in Hs.
  destruct (in_list _ _ && _); [destruct (_splitparams _)|]; intros [= <-]; exact Hs.
Qed.

Lemma urlparse_scheme_cases (host_ok : string → bool) (url : string) (p : ParseResult) :
  urlparse host_ok url "" = Ok p → scheme p = "" ∨ valid_scheme (scheme p).
Proof.
  intros H. rewrite (urlparse_scheme _ _ _ _ H).
  change (remove_unsafe (strip c0_control_or_space "")) with "".
  destruct (split_scheme_default (remove_unsafe (lstrip c0_control_or_space url)) "")
    as [->|[Hv _]]; auto.
Qed.

(** When no scheme is found in [url], parsing it with a default scheme
    returns that default. *)
Lemma urlparse_scheme_default (host_ok : string → bool) (url d : string)
    (u q : ParseResult) :
  urlparse host_ok url d = Ok u →
  urlparse host_ok url "" = Ok q →
  scheme q = "" →
  scheme u = remove_unsafe (strip c0_control_or_space d).
Proof.
  intros Hu Hq H0. rewrite (urlparse_scheme _ _ _ _ Hu).
  rewrite (urlparse_scheme _ _ _ _ Hq) in H0.
  destruct (split_scheme_default (remove_unsafe (lstrip c0_control_or_space url))
              (remove_unsafe (strip c0_control_or_space d))) as [E|[Hv Hall]];
    [exact E|].
  rewrite (Hall (remove_unsafe (strip c0_control_or_space ""))) in H0.
  rewrite H0 in Hv. destruct Hv as [[] _].
Qed.

(** A text that begins with a scheme and a colon is parsed with that
    scheme. *)
Lemma urlparse_of_scheme_text (host_ok : string → bool) (s rest d : string)
    (q : ParseResult) :
  valid_scheme s →
  urlparse host_ok (s +:+ String ":" rest) d = Ok q → scheme q = s.
Proof.
  intros Hv H. rewrite (urlparse_scheme _ _ _ _ H).
  pose proof (valid_scheme_safe s Hv) as [Hsafe _].
  rewrite lstrip_stops.
  - rewrite remove_unsafe_app, (remove_unsafe_id s Hsafe),
      (remove_unsafe_cons ":" rest eq_refl), (split_scheme_canonical _ _ _ Hv).
    reflexivity.
  - destruct Hv as (Ha & _ & _). destruct s as [|c s]; [contradiction|].
    rewrite app_cons_s. cbn. apply alpha_not_space, Ha.
Qed.

Lemma urlunparse_scheme_text (s nl pa pr qu fr : string) :
  s ≠ "" → ∃ rest, urlunparse (mkParse s nl pa pr qu fr) = s +:+ String ":" rest.
Proof.
  intros Hs. unfold urlunparse, urlunsplit.
  cbn [scheme netloc path params query fragment].
  apply is_empty_false in Hs. rewrite Hs. cbn [negb].
  match goal with
  | |- context [?a +:+ ":" +:+ ?url] => set (body := url)
  end.
  destruct (negb (is_empty qu)), (negb (is_empty fr)); eexists;
    rewrite ?app_assoc_s; reflexivity.
Qed.





(** A URL without network location can also change again under the
    [urlunsplit] modelled here: [a:////] gives [a://], which gives
    [a:]. *)
Lemma normalize_without_netloc_changes :
  let self := cloner_for offline "https://example.com/" "output" in
  _normalize_url offline self "a:////" None = Ok "a://" ∧
  _normalize_url offline self "a://" None = Ok "a:".
Proof. cbv zeta. split; vm_compute; reflexivity. Qed.


(* ===================================================================== *)
(** * File names *)
(* ===================================================================== *)

(** Replacing one character by a text. *)
Lemma replace_one_step (c a : ascii) (new s : string) :
  replace (String a s) (String c "") new =
    if Ascii.eqb c a then new +:+ replace s (String c "") new
    else String a (replace s (String c "") new).
Proof.
  unfold replace. cbn [replace_from has_prefix String.length Nat.sub].
  rewrite andb_true_r. destruct (Ascii.eqb c a); reflexivity.
Qed.

Lemma forallb_replace_one (q : ascii → bool) (s new : string) (c : ascii) :
  forallb q new = true →
  forallb (fun a => Ascii.eqb c a || q a) s = true →
  forallb q (replace s (String c "") new) = true.
Proof.
  intros Hn. induction s as [|a s IH]; [reflexivity|]. rewrite replace_one_step.
  cbn [forallb]. intros [Ha Hs]%andb_true_iff.
  destruct (Ascii.eqb c a).
  - rewrite forallb_app_s, Hn, (IH Hs). reflexivity.
  - cbn [forallb]. cbn [orb] in Ha. rewrite Ha, (IH Hs). reflexivity.
Qed.

Lemma forallb_or_self (c : ascii) (s : string) :
  forallb (fun a => Ascii.eqb c a || negb (Ascii.eqb a c)) s = true.
Proof.
  induction s as [|a s IH]; [reflexivity|]. cbn [forallb]. rewrite IH.
  rewrite (Ascii.eqb_sym a c). destruct (Ascii.eqb c a); reflexivity.
Qed.

(** [s.replace(c, new)] holds no [c] when [new] holds none. *)
Lemma replace_one_removes (s new : string) (c : ascii) :
  contains_char new c = false →
  contains_char (replace s (String c "") new) c = false.
Proof.
  rewrite !contains_char_forallb. intros H%negb_false_iff. apply negb_false_iff.
  apply forallb_replace_one; [exact H|apply forallb_or_self].
Qed.

(** ... and brings in no character that [s] and [new] do not hold. *)
Lemma replace_one_absent (s new : string) (c d : ascii) :
  contains_char new d = false → contains_char s d = false →
  contains_char (replace s (String c "") new) d = false.
Proof.
  rewrite !contains_char_forallb. intros H%negb_false_iff Hs%negb_false_iff.
  apply negb_false_iff. apply forallb_replace_one; [exact H|].
  revert Hs. apply forallb_impl_s. intros a ->. apply orb_true_r.
Qed.

(** [s.split(c)[0]] is the text before the first [c]. *)
Lemma split_hd (c : ascii) (s : string) :
  hd EmptyString (split c s) =
    match partition c s with Some (l, _) => l | None => s end.
Proof.
  induction s as [|a s IH]; [reflexivity|]. cbn [split partition].
  destruct (Ascii.eqb a c); [reflexivity|].
  destruct (split c s) as [|x xs] eqn:E; cbn [hd] in *.
  - destruct (partition c s) as [[l r]|]; subst; reflexivity.
  - destruct (partition c s) as [[l r]|]; subst; reflexivity.
Qed.

Lemma split_hd_absent (c d : ascii) (s : string) :
  contains_char s d = false → contains_char (hd EmptyString (split c s)) d = false.
Proof.
  rewrite split_hd. destruct (partition c s) as [[l r]|] eqn:E; [|auto].
  apply partition_spec in E as [-> _]. rewrite contains_char_app.
  intros [H _]%orb_false_iff. exact H.
Qed.

Lemma split_hd_cut (c : ascii) (s : string) :
  contains_char (hd EmptyString (split c s)) c = false.
Proof.
  rewrite split_hd. destruct (partition c s) as [[l r]|] eqn:E.
  - apply partition_spec in E as [_ H]. exact H.
  - apply partition_none_inv, E.
Qed.

(** [s.rstrip(c)] does not end with [c]. *)
Lemma rstrip_not_endswith (c : ascii) (s : string) :
  endswith (rstrip (is_char c) s) (String c "") = false.
Proof.
  induction s as [|a s IH]; [reflexivity|]. cbn [rstrip].
  destruct (rstrip (is_char c) s) as [|b r] eqn:E; cbn [is_empty andb].
  - unfold is_char. destruct (Ascii.eqb a c) eqn:Ea; [reflexivity|].
    cbn. rewrite Ea. reflexivity.
  - change (endswith (String a (String b r)) (String c ""))
      with (String.eqb (String a (String b r)) (String c "")
            || endswith (String b r) (String c "")).
    rewrite IH, orb_false_r. cbn [String.eqb].
    destruct (Ascii.eqb a c); reflexivity.
Qed.

Lemma strip_not_endswith (c : ascii) (s : string) :
  endswith (strip (is_char c) s) (String c "") = false.
Proof. apply rstrip_not_endswith. Qed.

Lemma lstrip_all (p : ascii → bool) (s : string) :
  forallb p s = true → lstrip p s = "".
Proof.
  induction s as [|a s IH]; [reflexivity|]. cbn [forallb lstrip].
  intros [-> Hs]%andb_true_iff. auto.
Qed.

(** The path and the parameters that [urlparse] returns hold neither
    [?] nor [#]. *)
Lemma urlparse_path_chars (host_ok : string → bool) (url : string) (p : ParseResult) :
  urlparse host_ok url "" = Ok p →
  forallb path_char (path p) = true ∧ forallb path_char (params p) = true.
Proof.
  unfold urlparse. destruct (urlsplit host_ok url "") as [sr|e] eqn:Hs; [|discriminate].
  cbn [rbind].
  destruct (urlsplit_parts host_ok url sr Hs) as (_ & _ & _ & _ & Hp & _).
  destruct (in_list (ss_scheme sr) uses_params && contains_char (ss_path sr) ";").
  - destruct (_splitparams (ss_path sr)) as [pth prm] eqn:Hsp.
    intros [= <-]. cbn [path params].
    destruct (splitparams_rejoin _ _ _ Hsp) as [[t Ht] _].
    rewrite Ht, forallb_app_s in Hp. apply andb_true_iff in Hp as [Hp _].
    unfold path_with_params in Hp. destruct prm as [|c prm]; cbn [is_empty negb] in Hp.
    + split; [exact Hp|reflexivity].
    + rewrite !forallb_app_s in Hp.
      apply andb_true_iff in Hp as [H1 H2]. apply andb_true_iff in H2 as [_ H2].
      split; assumption.
  - intros [= <-]. cbn [path params]. split; [exact Hp|reflexivity].
Qed.

Section FileNames.
Variable w : world.

(** The name that [_get_filename_from_url] gives after the prefix. *)
Lemma filename_parts (url prefix f : string) :
  _get_filename_from_url w url prefix = Ok f →
  ∃ p stem,
    url_parse w url = Ok p ∧
    stem = (let path := strip (is_char "/") (path p) in
            let path := if is_empty path || endswith path "/"
                        then "index.html" else path in
            let filename := replace (replace path "/" "_") "\" "_" in
            if contains_char filename "?" then hd EmptyString (split "?" filename)
            else filename) ∧
    f = prefix +:+ (if negb (contains_char stem ".") then stem +:+ ".html" else stem).
Proof.
  unfold _get_filename_from_url.
  destruct (url_parse w url) as [p|e]; [|discriminate]. cbn [rbind].
  intros [= <-]. eexists p, _. split; [reflexivity|]. split; reflexivity.
Qed.

(** The name before the extension is added holds no slash, no
    backslash and no question mark. *)
Lemma filename_stem_flat (p : ParseResult) :
  let path := strip (is_char "/") (path p) in
  let path := if is_empty path || endswith path "/" then "index.html" else path in
  let filename := replace (replace path "/" "_") "\" "_" in
  let stem := if contains_char filename "?" then hd EmptyString (split "?" filename)
              else filename in
  contains_char stem "/" = false ∧ contains_char stem "\" = false ∧
  contains_char stem "?" = false.
Proof.
  cbv zeta.
  set (pa := strip (is_char "/") (path p)).
  set (pa' := if is_empty pa || endswith pa "/" then "index.html" else pa).
  set (fn := replace (replace pa' "/" "_") "\" "_").
  assert (Hslash : contains_char fn "/" = false).
  { apply replace_one_absent; [reflexivity|]. apply replace_one_removes. reflexivity. }
  assert (Hback : contains_char fn "\" = false).
  { apply replace_one_removes. reflexivity. }
  destruct (contains_char fn "?") eqn:Hq.
  - split; [apply split_hd_absent, Hslash|].
    split; [apply split_hd_absent, Hback|apply split_hd_cut].
  - auto.
Qed.

(** X1. Whatever the URL, the file name is the prefix followed by a
    name that holds no slash, no backslash and no question mark, and
    that holds a dot (an extension); so it is never empty and never
    names a file in another directory. *)
Theorem filename_is_flat (url prefix f : string) :
  _get_filename_from_url w url prefix = Ok f →
  ∃ name,
    f = prefix +:+ name ∧
    contains_char name "/" = false ∧
    contains_char name "\" = false ∧
    contains_char name "?" = false ∧
    contains_char name "." = true.
Proof.
  intros H. destruct (filename_parts url prefix f H) as (p & stem & _ & Hstem & ->).
  eexists. split; [reflexivity|].
  pose proof (filename_stem_flat p) as Hs. cbv zeta in Hs, Hstem.
  rewrite <- Hstem in Hs. destruct Hs as (H1 & H2 & H3).
  destruct (contains_char stem ".") eqn:Hdot; cbn [negb].
  - auto.
  - rewrite !contains_char_app, H1, H2, H3, Hdot. repeat split; reflexivity.
Qed.

(** The whole name holds no slash when the prefix holds none. *)
Lemma filename_no_slash (url prefix f : string) :
  contains_char prefix "/" = false →
  _get_filename_from_url w url prefix = Ok f →
  f ≠ "" ∧ contains_char f "/" = false.
Proof.
  intros Hpre H.
  destruct (filename_parts url prefix f H) as (p & stem & _ & Hstem & ->).
  pose proof (filename_stem_flat p) as Hs. cbv zeta in Hs, Hstem.
  rewrite <- Hstem in Hs. destruct Hs as (H1 & _ & _).
  assert (Hnil : ∀ a b : string, a +:+ b = "" → b = "").
  { intros [|c a] b E; [exact E|]. rewrite app_cons_s in E. discriminate E. }
  destruct (contains_char stem ".") eqn:Hdot; cbn [negb].
  - split; [|by rewrite contains_char_app, Hpre, H1].
    intros E%Hnil. rewrite E in Hdot. discriminate Hdot.
  - split; [|by rewrite !contains_char_app, Hpre, H1].
    intros E%Hnil%Hnil. discriminate E.
Qed.

End FileNames.

Lemma filename_is_flat_witness :
  ∃ name,
    "img_.._.._etc_passwd" = "img_" +:+ name ∧
    contains_char name "/" = false ∧
    contains_char name "\" = false ∧
    contains_char name "?" = false ∧
    contains_char name "." = true.
Proof.
  apply (filename_is_flat offline "https://example.com/../../etc/passwd?x=/y" "img_").
  vm_compute. reflexivity.
Defined.


Lemma forallb_rstrip (p q : ascii → bool) (s : string) :
  forallb q s = true → forallb q (rstrip p s) = true.
Proof.
  induction s as [|a s IH]; [reflexivity|]. cbn [rstrip forallb].
  intros [Ha Hs]%andb_true_iff.
  destruct (is_empty (rstrip p s) && p a); [reflexivity|].
  cbn [forallb]. rewrite Ha, (IH Hs). reflexivity.
Qed.

Lemma forallb_strip (p q : ascii → bool) (s : string) :
  forallb q s = true → forallb q (strip p s) = true.
Proof. intros H. apply forallb_rstrip, forallb_lstrip, H. Qed.

Section FileNameTests.
Variable w : world.

(** X2. Two tests of [_get_filename_from_url] never fire: after
    [strip('/')] the path does not end with a slash, and the path that
    [urlparse] returns holds no question mark, so that nothing is ever
    cut at a [?].  The function is the one written without them. *)
Theorem filename_tests_never_fire (url prefix : string) :
  _get_filename_from_url w url prefix =
    (let? parsed := url_parse w url in
     let path := strip (is_char "/") (path parsed) in
     let path := if is_empty path then "index.html" else path in
     let filename := replace (replace path "/" "_") "\" "_" in
     Ok (prefix +:+ (if negb (contains_char filename ".")
                     then filename +:+ ".html" else filename))).
Proof.
  unfold _get_filename_from_url.
  destruct (url_parse w url) as [p|e] eqn:Hp; [|reflexivity]. cbn [rbind]. cbv zeta.
  rewrite strip_not_endswith, orb_false_r.
  set (pa := if is_empty (strip (is_char "/") (path p)) then "index.html"
             else strip (is_char "/") (path p)).
  assert (Hq : contains_char (replace (replace pa "/" "_") "\" "_") "?" = false).
  { apply replace_one_absent; [reflexivity|].
    apply replace_one_absent; [reflexivity|].
    unfold pa. destruct (is_empty _); [reflexivity|].
    apply (absent_of_forallb path_char); [reflexivity|].
    apply forallb_strip. apply (urlparse_path_chars _ _ _ Hp). }
  rewrite Hq. reflexivity.
Qed.

(** X3. A URL whose path is empty or made of slashes only (the root of
    a site) is given the name [index.html]. *)
Theorem root_is_index (url prefix : string) (p : ParseResult) :
  url_parse w url = Ok p →
  forallb (is_char "/") (path p) = true →
  _get_filename_from_url w url prefix = Ok (prefix +:+ "index.html").
Proof.
  intros Hp Hs. unfold _get_filename_from_url. rewrite Hp. cbn [rbind]. cbv zeta.
  unfold strip. rewrite (lstrip_all _ _ Hs). reflexivity.
Qed.

End FileNameTests.

Lemma root_is_index_witness :
  _get_filename_from_url offline "https://example.com//?page=2#top" "page_"
    = Ok "page_index.html".
Proof.
  apply (root_is_index offline "https://example.com//?page=2#top" "page_"
           (mkParse "https" "example.com" "//" "" "page=2" "top")).
  - vm_compute. reflexivity.
  - reflexivity.
Defined.

(* ===================================================================== *)
(** * Normalized URLs hold no fragment *)
(* ===================================================================== *)

(** No part of a parsed URL other than the fragment holds a [#]. *)
Lemma urlparse_parts_plain (host_ok : string → bool) (url : string) (p : ParseResult) :
  urlparse host_ok url "" = Ok p →
  contains_char (scheme p) "#" = false ∧
  contains_char (netloc p) "#" = false ∧
  contains_char (path p) "#" = false ∧
  contains_char (params p) "#" = false ∧
  contains_char (query p) "#" = false.
Proof.
  intros H. destruct (urlparse_path_chars host_ok url p H) as [Hpa Hpr].
  unfold urlparse in H.
  destruct (urlsplit host_ok url "") as [sr|e] eqn:Hs; [|discriminate].
  cbn [rbind] in H.
  destruct (urlsplit_parts host_ok url sr Hs) as (Hsch & _ & Hh & _ & _ & Hq).
  assert (scheme p = ss_scheme sr ∧ netloc p = ss_netloc sr ∧ query p = ss_query sr)
    as (-> & -> & ->).
  { destruct (in_list _ _ && _); [destruct (_splitparams _)|];
      injection H as <-; auto. }
  split.
  { destruct Hsch as [->|(_ & Hc & _)]; [reflexivity|].
    apply (absent_of_forallb scheme_char); [reflexivity|exact Hc]. }
  split.
  { apply (absent_of_forallb host_char); [reflexivity|exact Hh]. }
  split; [apply (absent_of_forallb path_char); [reflexivity|exact Hpa]|].
  split; [apply (absent_of_forallb path_char); [reflexivity|exact Hpr]|].
  apply (absent_of_forallb query_char); [reflexivity|exact Hq].
Qed.

Lemma urlunparse_plain (p : ParseResult) :
  contains_char (scheme p) "#" = false →
  contains_char (netloc p) "#" = false →
  contains_char (path p) "#" = false →
  contains_char (params p) "#" = false →
  contains_char (query p) "#" = false →
  contains_char (urlunparse (replace_fragment p "")) "#" = false.
Proof.
  intros Hs Hn Hpa Hpr Hq. unfold urlunparse, urlunsplit, replace_fragment.
  cbn [scheme netloc path params query fragment is_empty negb].
  repeat match goal with
         | |- context [if ?c then _ else _] => destruct c
         end;
    rewrite ?contains_char_app, ?Hs, ?Hn, ?Hpa, ?Hpr, ?Hq; reflexivity.
Qed.

(** X4. The URL that [_normalize_url] returns holds no [#]: the
    fragment is removed, delimiter included, and no other part of the
    URL can hold one. *)
Theorem normalized_url_has_no_fragment (w : world) (self : cloner)
    (url : string) (base : option string) (v : string) :
  _normalize_url w self url base = Ok v →
  contains_char v "#" = false.
Proof.
  intros H.
  destruct (normalize_resolved w self url base v H)
    as [->|(j & q & _ & _ & Hq & ->)]; [reflexivity|].
  destruct (urlparse_parts_plain _ _ _ Hq) as (H1 & H2 & H3 & H4 & H5).
  apply urlunparse_plain; assumption.
Qed.

Lemma normalized_url_has_no_fragment_witness :
  contains_char "https://example.com/a/c?x=1" "#" = false.
Proof.
  apply (normalized_url_has_no_fragment offline
           (cloner_for offline "https://example.com/" "output")
           "../c?x=1#sec#tion" (Some "https://example.com/a/b/index.html#top")).
  vm_compute. reflexivity.
Defined.

(* ===================================================================== *)
(** * Style sheets *)
(* ===================================================================== *)

Lemma has_prefix_spec (p s : string) : has_prefix p s = true → ∃ t, s = p +:+ t.
Proof.
  revert s. induction p as [|a p IH]; intros s; [exists s; reflexivity|].
  destruct s as [|b s]; [discriminate|]. cbn [has_prefix].
  intros [Ha Hp]%andb_true_iff. apply Ascii.eqb_eq in Ha as ->.
  destruct (IH s Hp) as [t ->]. exists t. reflexivity.
Qed.

Lemma opt_quote_spec (s q r : string) : opt_quote s = (q, r) → s = q +:+ r.
Proof.
  destruct s as [|c s]; cbn [opt_quote]; [intros [= <- <-]; reflexivity|].
  destruct (is_quote c); intros [= <- <-]; reflexivity.
Qed.

Lemma drop_app_s (a t : string) : drop (String.length a) (a +:+ t) = t.
Proof. induction a as [|c a IH]; [reflexivity|]. exact IH. Qed.

(** A match of the pattern at the start of [s] is a non-empty prefix of
    [s]. *)
Lemma match_url_prefix (s g0 g : string) :
  match_url s = Some (g0, g) → g0 ≠ "" ∧ ∃ t, s = g0 +:+ t.
Proof.
  unfold match_url. destruct (has_prefix "url(" s) eqn:Hp; [|discriminate].
  apply has_prefix_spec in Hp as [t ->].
  change (drop 4 ("url(" +:+ t)) with t.
  destruct (opt_quote t) as [q1 r1] eqn:H1. apply opt_quote_spec in H1 as ->.
  destruct (span url_body_char r1) as [g' r2] eqn:H2.
  apply span_spec in H2 as (-> & _ & _).
  destruct (is_empty g'); [discriminate|].
  destruct (opt_quote r2) as [q2 r3] eqn:H3. apply opt_quote_spec in H3 as ->.
  destruct (has_prefix ")" r3) eqn:H4; [|discriminate].
  apply has_prefix_spec in H4 as [t' ->]. intros [= <- <-].
  split; [discriminate|]. exists t'. rewrite !app_assoc_s. reflexivity.
Qed.

Section StyleSheets.
Variable w : world.

(** X5. A text that does not hold [url(] is returned as it is, and the
    object is left as it is: nothing is requested or written. *)
Theorem css_without_url_is_unchanged (css css_url : string) (st : cloner) :
  contains css "url(" = false →
  _process_css_urls w css css_url st = (Ok css, st).
Proof.
  unfold _process_css_urls. induction css as [|a css IH]; intros H; [reflexivity|].
  change (contains (String a css) "url(")
    with (has_prefix "url(" (String a css) || contains css "url(") in H.
  apply orb_false_iff in H as [H1 H2].
  cbn [css_sub]. unfold match_url. rewrite H1. unfold bind.
  rewrite (IH H2). reflexivity.
Qed.

Lemma replace_url_offline (css_url g0 g : string) (st : cloner) r st' :
  (∀ log u, http_get w log u = None) →
  downloaded_images st = ∅ →
  replace_url w css_url g0 g st = (Ok r, st') →
  r = g0 ∧ downloaded_images st' = ∅ ∧ files st' = files st.
Proof.
  intros Hoff Hi. unfold replace_url.
  destruct (startswith g "data:" || startswith g "../images/");
    [intros [= <- <-]; auto|].
  unfold bind at 1, normalize.
  destruct (_normalize_url w st g (Some css_url)) as [abs|e]; [|discriminate].
  destruct (is_empty abs); [intros [= <- <-]; auto|].
  destruct (any_ext_in image_exts (lower abs)).
  - unfold bind. rewrite download_image_failed;
      [|rewrite Hi; apply not_elem_of_empty|apply Hoff].
    cbn [is_empty negb]. intros [= <- <-]. auto.
  - destruct (any_ext_in font_exts (lower abs)); [|intros [= <- <-]; auto].
    unfold bind. rewrite download_font_failed by apply Hoff.
    cbn [is_empty negb]. intros [= <- <-]. auto.
Qed.

Lemma css_sub_offline (css_url : string) :
  (∀ log u, http_get w log u = None) →
  ∀ s skip st r st',
    downloaded_images st = ∅ →
    css_sub w css_url skip s st = (Ok r, st') →
    r = drop skip s ∧ downloaded_images st' = ∅ ∧ files st' = files st.
Proof.
  intros Hoff. induction s as [|c s IH]; intros skip st r st' Hi.
  - destruct skip; intros [= <- <-]; auto.
  - cbn [css_sub]. destruct skip as [|k]; [|apply IH, Hi].
    destruct (match_url (String c s)) as [[g0 g]|] eqn:Hm.
    + intros H.
      apply bind_inv in H as [(x & s1 & Hx & H)|(e0 & _ & [=])].
      apply bind_inv in H as [(rest & s2 & Hrest & H)|(e0 & _ & [=])].
      injection H as <- <-.
      destruct (replace_url_offline _ _ _ _ _ _ Hoff Hi Hx) as (-> & Hi1 & Hf1).
      destruct (IH _ _ _ _ Hi1 Hrest) as (-> & Hi2 & Hf2).
      split; [|split; [exact Hi2|congruence]].
      destruct (match_url_prefix _ _ _ Hm) as [Hne [t Ht]].
      destruct g0 as [|c0 g0]; [congruence|].
      rewrite app_cons_s in Ht. injection Ht as -> ->.
      cbn [String.length Nat.sub]. rewrite Nat.sub_0_r, drop_app_s. reflexivity.
    + intros H.
      apply bind_inv in H as [(rest & s2 & Hrest & H)|(e0 & _ & [=])].
      injection H as <- <-.
      destruct (IH _ _ _ _ Hi Hrest) as (-> & Hi2 & Hf2). auto.
Qed.

(** X6. When no request succeeds and no image has been downloaded
    before, [_process_css_urls] gives the text back unchanged: a
    reference is rewritten only to a resource that has been saved. *)
Theorem css_unchanged_when_nothing_downloads (css css_url : string)
    (st : cloner) (r : string) (st' : cloner) :
  (∀ log u, http_get w log u = None) →
  downloaded_images st = ∅ →
  _process_css_urls w css css_url st = (Ok r, st') →
  r = css ∧ downloaded_images st' = ∅ ∧ files st' = files st.
Proof.
  intros Hoff Hi H.
  exact (css_sub_offline css_url Hoff css 0 st r st' Hi H).
Qed.

(** X7. A style sheet that [download_css] has saved: the file in
    [css/] holds the text that [_process_css_urls] made of the answer,
    and the same text, alone in a list, is what [all_css_rules] keeps
    for the URL. *)
Theorem saved_stylesheet_matches_rules (url : string) (st : cloner)
    (f : string) (st1 : cloner) :
  url ∉ downloaded_css st →
  download_css w url st = (Ok f, st1) →
  f ≠ "" →
  ∃ body css sb,
    http_get w (requests_log st) url = Some body ∧
    _get_filename_from_url w url "style_" = Ok f ∧
    _process_css_urls w body url
      (set_requests_log (fun l => l ++ [(Stylesheet, url)]) st) = (Ok css, sb) ∧
    files st1 !! path_join (output_dir st) ["css"; f] = Some (Data css) ∧
    all_css_rules st1 !! url = Some [css] ∧
    url ∈ downloaded_css st1.
Proof.
  intros Hn Hd Hf. unfold download_css, bind at 1, gets in Hd.
  rewrite (bool_decide_eq_false_2 _ Hn) in Hd.
  apply try_inv in Hd as [(a & Hb & [= <-])|(e & st' & _ & [= <- _])];
    [|congruence].
  apply bind_inv in Hb as [(body & sa & Hget & Hb)|(e & _ & [=])].
  apply requests_get_inv in Hget as [-> Hget].
  apply bind_inv in Hb as [(fn & sb & Hfn & Hb)|(e & _ & [=])].
  injection Hfn as Hfn <-.
  apply bind_inv in Hb as [(out & sc & [= <- <-] & Hb)|(e & _ & [=])].
  apply bind_inv in Hb as [(css & sd & Hproc & Hb)|(e & _ & [=])].
  apply bind_inv in Hb as [([] & se & Hw & Hb)|(e & _ & [=])].
  apply write_file_inv in Hw as [-> _].
  unfold bind, modify, ret in Hb. injection Hb as <- <-.
  exists body, css, sd. split; [exact Hget|]. split; [exact Hfn|].
  split; [exact Hproc|]. cbn.
  split; [apply lookup_insert_eq|]. split; [apply lookup_insert_eq|].
  apply elem_of_union. right. apply elem_of_singleton. reflexivity.
Qed.

End StyleSheets.

Lemma css_without_url_is_unchanged_witness :
  _process_css_urls offline "h1 { color: red }" "https://example.com/s.css"
    (cloner_for offline "https://example.com/" "output")
  = (Ok "h1 { color: red }", cloner_for offline "https://example.com/" "output").
Proof. apply css_without_url_is_unchanged. vm_compute. reflexivity. Defined.

Lemma css_unchanged_when_nothing_downloads_witness :
  let st := cloner_for offline "https://example.com/" "output" in
  let st' :=
    set_requests_log
      (fun l => l ++ [(Image, "https://example.com/x.png");
                      (Font, "https://example.com/f.woff")]) st in
  "a{background:url(x.png)} b{src:url('f.woff')}"
    = "a{background:url(x.png)} b{src:url('f.woff')}" ∧
  downloaded_images st' = ∅ ∧ files st' = files st.
Proof.
  cbv zeta.
  apply (css_unchanged_when_nothing_downloads offline
           "a{background:url(x.png)} b{src:url('f.woff')}"
           "https://example.com/s.css"
           (cloner_for offline "https://example.com/" "output")).
  - intros log u. reflexivity.
  - vm_compute. reflexivity.
  - vm_compute. reflexivity.
Defined.

Lemma saved_stylesheet_matches_rules_witness :
  ∃ st1,
    download_css font_world "https://example.com/site.css"
      (cloner_for font_world "https://example.com/" "output")
      = (Ok "style_site.css", st1) ∧
    ∃ body css sb,
      http_get font_world [] "https://example.com/site.css" = Some body ∧
      _get_filename_from_url font_world "https://example.com/site.css" "style_"
        = Ok "style_site.css" ∧
      _process_css_urls font_world body "https://example.com/site.css"
        (set_requests_log
           (fun l => l ++ [(Stylesheet, "https://example.com/site.css")])
           (cloner_for font_world "https://example.com/" "output")) = (Ok css, sb) ∧
      files st1 !! path_join "output" ["css"; "style_site.css"] = Some (Data css) ∧
      all_css_rules st1 !! "https://example.com/site.css" = Some [css] ∧
      "https://example.com/site.css" ∈ downloaded_css st1.
Proof.
  eexists. split; [vm_compute; reflexivity|].
  apply (saved_stylesheet_matches_rules font_world "https://example.com/site.css"
           (cloner_for font_world "https://example.com/" "output")).
  - apply (bool_decide_eq_false_1 _). vm_compute. reflexivity.
  - vm_compute. reflexivity.
  - discriminate.
Defined.

(* ===================================================================== *)
(** * An asset that cannot be downloaded: the page *)
(* ===================================================================== *)

(** Setting an attribute to the value it has changes nothing. *)
Lemma el_set_same (e : element) (name v : string) :
  el_get e name = Some v → el_set e name v = e.
Proof.
  destruct e as [t r a s0]. unfold el_get, el_set. cbn. intros H.
  f_equal. apply insert_id, H.
Qed.

(** An inline style keeps its text when nothing can be fetched. *)
Lemma style_step_offline (w : world) url e st e' st' :
  (∀ log u, http_get w log u = None) →
  downloaded_images st = ∅ →
  style_step w url e st = (Ok e', st') → e' = e.
Proof.
  intros Hoff Hi. unfold style_step.
  destruct (el_get e "style") as [style|] eqn:Hs; [|by intros [= <- _]].
  destruct (contains style "background-image" || contains style "background:");
    [|by intros [= <- _]].
  intros H. apply bind_inv in H as [(x & s1 & Hx & H)|(e0 & _ & [=])].
  injection H as <- _.
  destruct (css_sub_offline w url Hoff style 0 st x s1 Hi Hx) as (-> & _).
  apply el_set_same, Hs.
Qed.

(** C8. When the download of an asset fails, the download function
    returns the empty string.  The element that refers to the asset (a
    style sheet link, an image, a script or an icon link) is then left
    as it was, with its original reference, and the loop goes on with
    the elements that follow: the failure does not end the processing of
    the page.  An inline style keeps its text when the pictures it names
    cannot be fetched. *)
Theorem failed_asset_keeps_reference (w : world) :
  (∀ url st, url ∉ downloaded_images st →
     http_get w (requests_log st) url = None →
     download_image w url st
       = (Ok "", set_requests_log (fun l => l ++ [(Image, url)]) st)) ∧
  (∀ url st, url ∉ downloaded_css st →
     http_get w (requests_log st) url = None →
     download_css w url st
       = (Ok "", set_requests_log (fun l => l ++ [(Stylesheet, url)]) st)) ∧
  (∀ url st, url ∉ downloaded_js st →
     http_get w (requests_log st) url = None →
     download_js w url st
       = (Ok "", set_requests_log (fun l => l ++ [(Script, url)]) st)) ∧
  (∀ url st, http_get w (requests_log st) url = None →
     _download_font w url st
       = (Ok "", set_requests_log (fun l => l ++ [(Font, url)]) st)) ∧
  (∀ url e href abs st,
     is_stylesheet_link e = true →
     el_get e "href" = Some href →
     href ≠ "" →
     _normalize_url w st href (Some url) = Ok abs →
     abs ≠ "" →
     abs ∉ downloaded_css st →
     http_get w (requests_log st) abs = None →
     passes_over (css_step w) Stylesheet url e abs st) ∧
  (∀ url e src abs st,
     el_tag e = "img" →
     img_source e = Some src →
     src ≠ "" →
     _normalize_url w st src (Some url) = Ok abs →
     abs ≠ "" →
     startswith abs "data:" = false →
     abs ∉ downloaded_images st →
     http_get w (requests_log st) abs = None →
     passes_over (img_step w) Image url e abs st) ∧
  (∀ url e src abs st,
     el_tag e = "script" →
     el_get e "src" = Some src →
     src ≠ "" →
     _normalize_url w st src (Some url) = Ok abs →
     abs ≠ "" →
     abs ∉ downloaded_js st →
     http_get w (requests_log st) abs = None →
     passes_over (script_step w) Script url e abs st) ∧
  (∀ url e href abs st,
     is_icon_link e = true →
     el_get e "href" = Some href →
     href ≠ "" →
     _normalize_url w st href (Some url) = Ok abs →
     abs ≠ "" →
     abs ∉ downloaded_images st →
     http_get w (requests_log st) abs = None →
     passes_over (icon_step w) Image url e abs st) ∧
  (∀ url e st e' st',
     (∀ log u, http_get w log u = None) →
     downloaded_images st = ∅ →
     style_step w url e st = (Ok e', st') →
     e' = e).
Proof.
  split; [apply download_image_failed|].
  split; [apply download_css_failed|].
  split; [apply download_js_failed|].
  split; [apply download_font_failed|].
  split; [|split; [|split; [|split]]].
  - intros url e href abs st Hl Hh Hhref Hn Habs Hnew Hg.
    assert (Hstep : css_step w url e st
              = (Ok e, set_requests_log (fun l => l ++ [(Stylesheet, abs)]) st)).
    { eapply css_step_failed; try eassumption.
      apply download_css_failed; assumption. }
    split; [exact Hstep|]. apply (mapM_passes (css_step w)), Hstep.
  - intros url e src abs st Ht Hs Hsrc Hn Habs Hdata Hnew Hg.
    assert (Hstep : img_step w url e st
              = (Ok e, set_requests_log (fun l => l ++ [(Image, abs)]) st)).
    { eapply img_step_failed; try eassumption.
      apply download_image_failed; assumption. }
    split; [exact Hstep|]. apply (mapM_passes (img_step w)), Hstep.
  - intros url e src abs st Ht Hs Hsrc Hn Habs Hnew Hg.
    assert (Hstep : script_step w url e st
              = (Ok e, set_requests_log (fun l => l ++ [(Script, abs)]) st)).
    { eapply script_step_failed; try eassumption.
      apply download_js_failed; assumption. }
    split; [exact Hstep|]. apply (mapM_passes (script_step w)), Hstep.
  - intros url e href abs st Hl Hh Hhref Hn Habs Hnew Hg.
    assert (Hstep : icon_step w url e st
              = (Ok e, set_requests_log (fun l => l ++ [(Image, abs)]) st)).
    { eapply icon_step_failed; try eassumption.
      apply download_image_failed; assumption. }
    split; [exact Hstep|]. apply (mapM_passes (icon_step w)), Hstep.
  - intros url e st e' st'. apply style_step_offline.
Qed.

(** On [broken_image_world] the picture of the home page cannot be
    fetched: the page is scraped all the same, its [img] element is
    returned unchanged and the page is saved. *)
Lemma failed_asset_keeps_reference_witness :
  ∃ self',
    scrape_page broken_image_world "https://example.com" true
      (cloner_for broken_image_world "https://example.com/" "output")
      = (Ok (Some [img "logo.png"]), self') ∧
    requests_log self' =
      [(Page, "https://example.com"); (Image, "https://example.com/logo.png")] ∧
    is_Some (files self' !! "output/html/page_index.html") ∧
    passes_over (img_step broken_image_world) Image "https://example.com"
      (img "logo.png") "https://example.com/logo.png"
      (cloner_for broken_image_world "https://example.com/" "output").
Proof.
  eexists. split; [vm_compute; reflexivity|].
  split; [vm_compute; reflexivity|].
  split; [vm_compute; eauto|].
  refine (proj1 (proj2 (proj2 (proj2 (proj2 (proj2
            (failed_asset_keeps_reference broken_image_world))))))
            "https://example.com" (img "logo.png") "logo.png"
            "https://example.com/logo.png" _ _ _ _ _ _ _ _ _).
  - reflexivity.
  - vm_compute. reflexivity.
  - discriminate.
  - vm_compute. reflexivity.
  - discriminate.
  - reflexivity.
  - apply (bool_decide_eq_false_1 _). vm_compute. reflexivity.
  - reflexivity.
Defined.

(* ===================================================================== *)
(** * Relations that the methods maintain *)
(* ===================================================================== *)

(** A reflexive and transitive relation that the elementary operations
    maintain is maintained by the methods built from them. *)
Section Within.
Variable w : world.
Variable R : cloner → cloner → Prop.
Hypothesis R_refl : ∀ s, R s s.
Hypothesis R_trans : ∀ s1 s2 s3, R s1 s2 → R s2 s3 → R s1 s3.

Lemma within_ret {A} (a : A) : within R (ret a).
Proof using R_refl. intros st r st' [= <- <-]. apply R_refl. Qed.

Lemma within_lift {A} (x : result A) : within R (lift x).
Proof using R_refl. intros st r st' [= <- <-]. apply R_refl. Qed.

Lemma within_gets {A} (f : cloner → A) : within R (gets f).
Proof using R_refl. intros st r st' [= <- <-]. apply R_refl. Qed.

Lemma within_normalize url base : within R (normalize w url base).
Proof using R_refl. intros st r st' [= <- <-]. apply R_refl. Qed.

Lemma within_parse markup : within R (parse w markup).
Proof using R_refl.
  intros st r st'. unfold parse.
  destruct (parser_ok w markup); intros [= <- <-]; apply R_refl.
Qed.

Lemma within_bind {A B} (m : M A) (f : A → M B) :
  within R m → (∀ a, within R (f a)) → within R (bind m f).
Proof using R_trans.
  intros Hm Hf st r st'. unfold bind.
  destruct (m st) as [[a|e] st1] eqn:E; intros H.
  - eapply R_trans; [eapply Hm, E | eapply Hf, H].
  - injection H as <- <-. eapply Hm, E.
Qed.

Lemma within_try {A} (m h : M A) :
  within R m → within R h → within R (try_except m h).
Proof using R_trans.
  intros Hm Hh st r st'. unfold try_except.
  destruct (m st) as [[a|e] st1] eqn:E; intros H.
  - injection H as <- <-. eapply Hm, E.
  - eapply R_trans; [eapply Hm, E | eapply Hh, H].
Qed.

Lemma within_mapM {A B} (f : A → M B) (l : list A) :
  (∀ a, within R (f a)) → within R (mapM f l).
Proof using R_refl R_trans.
  intros Hf. induction l as [|x xs IH]; cbn [mapM].
  - apply within_ret.
  - apply within_bind; [apply Hf|]. intros y.
    apply within_bind; [apply IH|]. intros ys. apply within_ret.
Qed.

Lemma within_if {A} (b : bool) (m1 m2 : M A) :
  within R m1 → within R m2 → within R (if b then m1 else m2).
Proof using Type. destruct b; auto. Qed.

Ltac within_step :=
  first
    [ apply within_ret | apply within_lift | apply within_gets
    | apply within_normalize
    | apply within_try
    | apply within_if
    | apply within_bind; [|intros ?] ].

(** ** The references of a style sheet *)
Section Nested.
Hypothesis H_img : ∀ url, within R (download_image w url).
Hypothesis H_font : ∀ url, within R (_download_font w url).

Lemma within_replace_url css_url g0 url : within R (replace_url w css_url g0 url).
Proof using R_refl R_trans H_img H_font.
  unfold replace_url.
  repeat first [ apply H_img | apply H_font | within_step ].
Qed.

Lemma within_css_sub css_url s : ∀ skip, within R (css_sub w css_url skip s).
Proof using R_refl R_trans H_img H_font.
  induction s as [|c s IH]; intros skip; cbn [css_sub]; [apply within_ret|].
  destruct skip as [|k]; [|apply IH].
  destruct (match_url (String c s)) as [[g0 g]|].
  - apply within_bind; [apply within_replace_url|]. intros r.
    apply within_bind; [apply IH|]. intros rest. apply within_ret.
  - apply within_bind; [apply IH|]. intros rest. apply within_ret.
Qed.

Lemma within_process_css css url : within R (_process_css_urls w css url).
Proof using R_refl R_trans H_img H_font. apply within_css_sub. Qed.

End Nested.

(** ** From the elementary operations to the downloads *)
Section Leaves.
Hypothesis L_get : ∀ k url, within R (requests_get w k url).
Hypothesis L_write : ∀ path c, within R (write_file w path c).
Hypothesis L_images :
  ∀ url, within R (modify (set_downloaded_images (fun s => s ∪ {[url]}))).
Hypothesis L_css :
  ∀ url, within R (modify (set_downloaded_css (fun s => s ∪ {[url]}))).
Hypothesis L_js :
  ∀ url, within R (modify (set_downloaded_js (fun s => s ∪ {[url]}))).
Hypothesis L_rules :
  ∀ url l, within R (modify (set_all_css_rules (insert url l))).

Lemma leaves_download_image url : within R (download_image w url).
Proof using R_refl R_trans L_get L_write L_images.
  unfold download_image.
  repeat first [ apply L_get | apply L_write | apply L_images | within_step ].
Qed.

Lemma leaves_download_font url : within R (_download_font w url).
Proof using R_refl R_trans L_get L_write.
  unfold _download_font.
  repeat first [ apply L_get | apply L_write | within_step ].
Qed.

Lemma leaves_download_js url : within R (download_js w url).
Proof using R_refl R_trans L_get L_write L_js.
  unfold download_js.
  repeat first [ apply L_get | apply L_write | apply L_js | within_step ].
Qed.

Lemma leaves_process_css css url : within R (_process_css_urls w css url).
Proof using R_refl R_trans L_get L_write L_images.
  apply within_process_css; [apply leaves_download_image|apply leaves_download_font].
Qed.

Lemma leaves_download_css url : within R (download_css w url).
Proof using R_refl R_trans L_get L_write L_images L_css L_rules.
  unfold download_css.
  repeat first [ apply L_get | apply L_write | apply L_css | apply L_rules
               | apply leaves_process_css | within_step ].
Qed.

Lemma leaves_save_page url b sp : within R (save_page w url b sp).
Proof using R_refl R_trans L_write.
  unfold save_page. repeat first [ apply L_write | within_step ].
Qed.

Lemma leaves_save_summary : within R (_save_summary w).
Proof using R_refl R_trans L_write.
  unfold _save_summary.
  apply within_bind; [apply within_gets|]. intros s.
  apply within_bind; [apply within_gets|]. intros out.
  apply within_bind; [apply L_write|]. intros _.
  apply within_bind; [apply within_gets|]. intros [|x xs];
    [apply within_ret | apply L_write].
Qed.

End Leaves.

(** ** A page, and the crawl *)
Section Pages.
Hypothesis H_img : ∀ url, within R (download_image w url).
Hypothesis H_css : ∀ url, within R (download_css w url).
Hypothesis H_js : ∀ url, within R (download_js w url).
Hypothesis H_process : ∀ css url, within R (_process_css_urls w css url).
Hypothesis H_save : ∀ url b sp, within R (save_page w url b sp).

Lemma within_css_step url e : within R (css_step w url e).
Proof using R_refl R_trans H_css.
  unfold css_step. destruct (is_stylesheet_link e); [|apply within_ret].
  destruct (el_get e "href"); [|apply within_ret].
  repeat first [ apply H_css | within_step ].
Qed.

Lemma within_img_step url e : within R (img_step w url e).
Proof using R_refl R_trans H_img.
  unfold img_step. destruct (String.eqb (el_tag e) "img"); [|apply within_ret].
  destruct (img_source e); [|apply within_ret].
  repeat first [ apply H_img | within_step ].
Qed.

Lemma within_style_step url e : within R (style_step w url e).
Proof using R_refl R_trans H_process.
  unfold style_step. destruct (el_get e "style"); [|apply within_ret].
  repeat first [ apply H_process | within_step ].
Qed.

Lemma within_script_step url e : within R (script_step w url e).
Proof using R_refl R_trans H_js.
  unfold script_step. destruct (String.eqb (el_tag e) "script"); [|apply within_ret].
  destruct (el_get e "src"); [|apply within_ret].
  repeat first [ apply H_js | within_step ].
Qed.

Lemma within_icon_step url e : within R (icon_step w url e).
Proof using R_refl R_trans H_img.
  unfold icon_step. destruct (is_icon_link e); [|apply within_ret].
  destruct (el_get e "href"); [|apply within_ret].
  repeat first [ apply H_img | within_step ].
Qed.

Lemma within_page_assets url b sp : within R (page_assets w url b sp).
Proof using R_refl R_trans H_img H_css H_js H_process H_save.
  unfold page_assets.
  apply within_bind; [apply within_mapM, within_css_step|]. intros sp1.
  apply within_bind; [apply within_mapM, within_img_step|]. intros sp2.
  apply within_bind; [apply within_mapM, within_style_step|]. intros sp3.
  apply within_bind; [apply within_mapM, within_script_step|]. intros sp4.
  apply within_bind; [apply within_mapM, within_icon_step|]. intros sp5.
  apply within_bind; [apply (H_save url b sp5)|]. intros _. apply within_ret.
Qed.

Hypothesis H_styles : ∀ sp, within R (extract_inline_css sp).
Hypothesis H_get : ∀ url, within R (requests_get w Page url).
Hypothesis H_visit :
  ∀ url, within R (modify (set_visited_pages (fun s => s ∪ {[url]}))).

Lemma within_scrape_page url b : within R (scrape_page w url b).
Proof using R_refl R_trans H_img H_css H_js H_process H_save H_styles H_get H_visit.
  unfold scrape_page.
  apply within_bind; [apply within_gets|]. intros seen.
  apply within_if; [apply within_ret|].
  apply within_try; [|apply within_ret].
  apply within_bind; [|intros sp; apply within_ret].
  unfold scrape_page_try.
  apply within_bind; [apply H_get|]. intros body.
  apply within_bind; [apply within_parse|]. intros sp.
  apply within_bind; [apply H_visit|]. intros _.
  apply within_bind; [apply H_styles|]. intros _.
  apply (within_page_assets url b sp).
Qed.

Lemma within_crawl_turn max_pages todo st :
  match crawl_turn w max_pages todo st with
  | Stop _ st' | Next _ st' => R st st'
  end.
Proof using R_refl R_trans H_img H_css H_js H_process H_save H_styles H_get H_visit.
  unfold crawl_turn.
  destruct (set_pop w (requests_log st) todo) as [url|]; [|apply R_refl].
  destruct (negb _); [apply R_refl|].
  destruct (bool_decide _); [apply R_refl|].
  destruct (scrape_page w url true st) as [[[sp|]|e] st'] eqn:E;
    pose proof (within_scrape_page url true _ _ _ E) as HR; [|exact HR|exact HR].
  destruct (find_internal_links w st' sp url); exact HR.
Qed.

Lemma within_crawl fuel max_pages : ∀ todo st r st',
  crawl w fuel max_pages todo st = Some (r, st') → R st st'.
Proof using R_refl R_trans H_img H_css H_js H_process H_save H_styles H_get H_visit.
  induction fuel as [|fuel IH]; intros todo st r st'; cbn [crawl];
    pose proof (within_crawl_turn max_pages todo st) as Ht;
    destruct (crawl_turn w max_pages todo st) as [r1 s1|todo1 s1];
    try discriminate.
  - intros [= <- <-]. exact Ht.
  - intros [= <- <-]. exact Ht.
  - intros H. eapply R_trans; [exact Ht|]. eapply IH, H.
Qed.

Hypothesis H_summary : within R (_save_summary w).

Lemma within_scrape_full_site fuel max_pages st r st' :
  scrape_full_site w fuel max_pages st = Some (r, st') → R st st'.
Proof using R_refl R_trans H_img H_css H_js H_process H_save H_styles H_get H_visit
  H_summary.
  unfold scrape_full_site.
  destruct (crawl w fuel max_pages {[base_url st]} st) as [[[[]|e] s1]|] eqn:E;
    [| |discriminate].
  - intros [= H]. eapply R_trans; [eapply within_crawl, E|]. eapply H_summary, H.
  - intros [= <- <-]. eapply within_crawl, E.
Qed.

End Pages.
End Within.

(* ===================================================================== *)
(** * Where files are written *)
(* ===================================================================== *)

Lemma in_output_tree_out (s s' : cloner) (path : string) :
  output_dir s' = output_dir s → in_output_tree s path → in_output_tree s' path.
Proof.
  intros Ho (dir & name & Hd & Hp & Hn). exists dir, name.
  unfold directories in *. rewrite Ho. auto.
Qed.

Lemma writes_in_tree_refl (s : cloner) : writes_in_tree s s.
Proof. split; [reflexivity|]. intros path. by left. Qed.

Lemma writes_in_tree_trans (s1 s2 s3 : cloner) :
  writes_in_tree s1 s2 → writes_in_tree s2 s3 → writes_in_tree s1 s3.
Proof.
  intros [o1 f1] [o2 f2]. split; [congruence|]. intros path.
  destruct (f2 path) as [E2|[T2 S2]].
  - destruct (f1 path) as [E1|[T1 S1]]; [left; congruence|].
    right. split; [exact T1|]. rewrite E2. exact S1.
  - right. split; [|exact S2]. apply (in_output_tree_out s2 s1); auto.
Qed.

Lemma tree_same_files (s s' : cloner) :
  output_dir s' = output_dir s → files s' = files s → writes_in_tree s s'.
Proof. intros Ho Hf. split; [exact Ho|]. intros path. left. by rewrite Hf. Qed.

Lemma tree_insert (s s' : cloner) (path : string) (c : content) :
  output_dir s' = output_dir s →
  files s' = <[path := c]> (files s) →
  in_output_tree s path →
  writes_in_tree s s'.
Proof.
  intros Ho Hf Ht. split; [exact Ho|]. intros p. rewrite Hf.
  destruct (decide (path = p)) as [<-|Hne].
  - right. split; [exact Ht|]. rewrite lookup_insert_eq. eauto.
  - left. apply lookup_insert_ne, Hne.
Qed.


Section OutputTree.
Variable w : world.

Lemma mirror_path_in_tree (st : cloner) (sub prefix url f : string) :
  sub ∈ ["images"; "css"; "js"; "html"; "fonts"] →
  contains_char prefix "/" = false →
  _get_filename_from_url w url prefix = Ok f →
  in_output_tree st (path_join (output_dir st) [sub; f]).
Proof.
  intros Hsub Hpre Hf. exists (path_join (output_dir st) [sub]), f.
  split; [|split; [reflexivity|]].
  - unfold directories. set (o := output_dir st).
    repeat (apply elem_of_cons in Hsub as [->|Hsub];
            [repeat first [ by left | right ] |]).
    by apply elem_of_nil in Hsub.
  - apply (filename_no_slash w url prefix f Hpre Hf).
Qed.

Lemma tree_requests_get k url : within writes_in_tree (requests_get w k url).
Proof.
  intros st r st' H. apply requests_get_inv in H as [-> _].
  apply tree_same_files; reflexivity.
Qed.

Lemma tree_write_file (st : cloner) (path : string) (c : content) r st' :
  in_output_tree st path →
  write_file w path c st = (r, st') → writes_in_tree st st'.
Proof.
  intros Ht. unfold write_file.
  destruct (file_write_ok w (requests_log st) path); intros [= <- <-].
  - eapply tree_insert; [reflexivity|reflexivity|exact Ht].
  - apply writes_in_tree_refl.
Qed.

Lemma tree_download_image url : within writes_in_tree (download_image w url).
Proof.
  intros st r st'. destruct (decide (url ∈ downloaded_images st)) as [Hk|Hn].
  - rewrite (download_image_known w url st Hk). intros [= <- <-].
    apply writes_in_tree_refl.
  - rewrite (download_image_new w url st Hn). cbv zeta.
    destruct (http_get w (requests_log st) url) as [body|];
      [|intros [= <- <-]; by apply tree_same_files].
    destruct (_get_filename_from_url w url "img_") as [f|e] eqn:Hf;
      [|intros [= <- <-]; by apply tree_same_files].
    destruct (file_write_ok w _ _); intros [= <- <-];
      [|by apply tree_same_files].
    eapply tree_insert; [reflexivity|reflexivity|].
    apply (mirror_path_in_tree _ "images" "img_" url f); [|reflexivity|exact Hf].
    repeat first [ by left | right ].
Qed.

Lemma tree_download_js url : within writes_in_tree (download_js w url).
Proof.
  intros st r st'. destruct (decide (url ∈ downloaded_js st)) as [Hk|Hn].
  - rewrite (download_js_known w url st Hk). intros [= <- <-].
    apply writes_in_tree_refl.
  - rewrite (download_js_new w url st Hn). cbv zeta.
    destruct (http_get w (requests_log st) url) as [body|];
      [|intros [= <- <-]; by apply tree_same_files].
    destruct (_get_filename_from_url w url "script_") as [f|e] eqn:Hf;
      [|intros [= <- <-]; by apply tree_same_files].
    destruct (file_write_ok w _ _); intros [= <- <-];
      [|by apply tree_same_files].
    eapply tree_insert; [reflexivity|reflexivity|].
    apply (mirror_path_in_tree _ "js" "script_" url f); [|reflexivity|exact Hf].
    repeat first [ by left | right ].
Qed.

Lemma tree_download_font url : within writes_in_tree (_download_font w url).
Proof.
  intros st r st'. rewrite (download_font_outcome w url st). cbv zeta.
  destruct (http_get w (requests_log st) url) as [body|];
    [|intros [= <- <-]; by apply tree_same_files].
  destruct (_get_filename_from_url w url "font_") as [f|e] eqn:Hf;
    [|intros [= <- <-]; by apply tree_same_files].
  destruct (file_write_ok w _ _); intros [= <- <-];
    [|by apply tree_same_files].
  eapply tree_insert; [reflexivity|reflexivity|].
  apply (mirror_path_in_tree _ "fonts" "font_" url f); [|reflexivity|exact Hf].
  repeat first [ by left | right ].
Qed.

Lemma tree_process_css css url : within writes_in_tree (_process_css_urls w css url).
Proof.
  exact (within_process_css w writes_in_tree writes_in_tree_refl
           writes_in_tree_trans tree_download_image tree_download_font css url).
Qed.

Lemma tree_modify (f : cloner → cloner) :
  (∀ s, output_dir (f s) = output_dir s) → (∀ s, files (f s) = files s) →
  within writes_in_tree (modify f).
Proof. intros Ho Hf st r st' [= <- <-]. by apply tree_same_files. Qed.

Lemma tree_download_css url : within writes_in_tree (download_css w url).
Proof.
  unfold download_css.
  apply within_bind; [apply writes_in_tree_trans|apply within_gets, writes_in_tree_refl|].
  intros known. destruct known; [apply within_lift, writes_in_tree_refl|].
  apply within_try;
    [apply writes_in_tree_trans| |apply within_ret, writes_in_tree_refl].
  apply within_bind; [apply writes_in_tree_trans|apply tree_requests_get|].
  intros body st r st' H.
  apply bind_inv in H as [(fn & sb & Hfn & H)|(e & [= _ <-] & _)];
    [|apply writes_in_tree_refl].
  injection Hfn as Hfn <-.
  apply bind_inv in H as [(out & sc & [= <- <-] & H)|(e & [=] & _)].
  apply bind_inv in H as [(css & sd & Hproc & H)|(e & Hproc & _)];
    [|eapply tree_process_css, Hproc].
  pose proof (tree_process_css _ _ _ _ _ Hproc) as T1.
  eapply writes_in_tree_trans; [exact T1|].
  apply bind_inv in H as [([] & se & Hw & H)|(e & Hw & _)].
  - eapply writes_in_tree_trans.
    + eapply tree_write_file; [|exact Hw].
      rewrite <- (wt_out _ _ T1).
      apply (mirror_path_in_tree _ "css" "style_" url fn); [|reflexivity|exact Hfn].
      repeat first [ by left | right ].
    + unfold bind, modify, ret in H. injection H as <- <-.
      by apply tree_same_files.
  - eapply tree_write_file; [|exact Hw].
    rewrite <- (wt_out _ _ T1).
    apply (mirror_path_in_tree _ "css" "style_" url fn); [|reflexivity|exact Hfn].
    repeat first [ by left | right ].
Qed.

Lemma tree_save_page url b sp : within writes_in_tree (save_page w url b sp).
Proof.
  unfold save_page. destruct b; [|apply within_ret, writes_in_tree_refl].
  intros st r st' H.
  apply bind_inv in H as [(fn & sb & Hfn & H)|(e & [= _ <-] & _)];
    [|apply writes_in_tree_refl].
  injection Hfn as Hfn <-.
  apply bind_inv in H as [(out & sc & [= <- <-] & H)|(e & [=] & _)].
  eapply tree_write_file; [|exact H].
  apply (mirror_path_in_tree _ "html" "page_" url fn); [|reflexivity|exact Hfn].
  repeat first [ by left | right ].
Qed.

Lemma summary_path_in_tree (st : cloner) :
  in_output_tree st (path_join (output_dir st) ["scrape_summary.json"]).
Proof.
  exists (output_dir st), "scrape_summary.json".
  split; [by left|]. split; [reflexivity|]. split; [discriminate|reflexivity].
Qed.

Lemma inline_path_in_tree (st : cloner) :
  in_output_tree st (path_join (output_dir st) ["css"; "inline_styles.css"]).
Proof.
  exists (path_join (output_dir st) ["css"]), "inline_styles.css".
  split; [right; right; by left|].
  split; [reflexivity|]. split; [discriminate|reflexivity].
Qed.

Lemma tree_save_summary : within writes_in_tree (_save_summary w).
Proof.
  unfold _save_summary. intros st r st' H.
  apply bind_inv in H as [(sm & s1 & [= <- <-] & H)|(e & [=] & _)].
  apply bind_inv in H as [(out & s1 & [= <- <-] & H)|(e & [=] & _)].
  apply bind_inv in H as [([] & s1 & Hw & H)|(e & Hw & _)];
    [|eapply tree_write_file; [apply summary_path_in_tree|exact Hw]].
  pose proof (tree_write_file _ _ _ _ _ (summary_path_in_tree st) Hw) as T1.
  eapply writes_in_tree_trans; [exact T1|].
  apply bind_inv in H as [(styles & s2 & [= <- <-] & H)|(e & [=] & _)].
  destruct (inline_styles s1) as [|x xs].
  - injection H as <- <-. apply writes_in_tree_refl.
  - eapply tree_write_file; [|exact H]. rewrite <- (wt_out _ _ T1).
    apply inline_path_in_tree.
Qed.

Lemma tree_scrape_page url b : within writes_in_tree (scrape_page w url b).
Proof.
  apply (within_scrape_page w writes_in_tree writes_in_tree_refl
           writes_in_tree_trans tree_download_image tree_download_css
           tree_download_js tree_process_css tree_save_page).
  - intros sp. apply tree_modify; reflexivity.
  - intros u. apply tree_requests_get.
  - intros u. apply tree_modify; reflexivity.
Qed.

Lemma tree_crawl fuel max_pages todo st r st' :
  crawl w fuel max_pages todo st = Some (r, st') → writes_in_tree st st'.
Proof.
  apply (within_crawl w writes_in_tree writes_in_tree_refl
           writes_in_tree_trans tree_download_image tree_download_css
           tree_download_js tree_process_css tree_save_page).
  - intros sp. apply tree_modify; reflexivity.
  - intros u. apply tree_requests_get.
  - intros u. apply tree_modify; reflexivity.
Qed.

Lemma tree_scrape_full_site fuel max_pages st r st' :
  scrape_full_site w fuel max_pages st = Some (r, st') → writes_in_tree st st'.
Proof.
  apply (within_scrape_full_site w writes_in_tree writes_in_tree_refl
           writes_in_tree_trans tree_download_image tree_download_css
           tree_download_js tree_process_css tree_save_page).
  - intros sp. apply tree_modify; reflexivity.
  - intros u. apply tree_requests_get.
  - intros u. apply tree_modify; reflexivity.
  - apply tree_save_summary.
Qed.

End OutputTree.

(** X8. Whatever the site serves, [scrape_page] and [scrape_full_site]
    remove no file and write files only directly inside the directories
    that [_create_directories] makes: no URL can make the cloner write
    elsewhere. *)
Theorem files_stay_in_output_tree (w : world) (st : cloner) :
  (∀ url b r st', scrape_page w url b st = (r, st') → writes_in_tree st st') ∧
  (∀ fuel max_pages r st',
     scrape_full_site w fuel max_pages st = Some (r, st') → writes_in_tree st st').
Proof.
  split.
  - intros url b r st' H. eapply tree_scrape_page, H.
  - intros fuel max_pages r st' H. eapply tree_scrape_full_site, H.
Qed.

(* ===================================================================== *)
(** * The download sets and the disk *)
(* ===================================================================== *)

Section Mirrored.
Variable w : world.

Lemma on_disk_mono (s s' : cloner) (prefix sub : string) (urls : gset string) :
  output_dir s' = output_dir s →
  (∀ p, is_Some (files s !! p) → is_Some (files s' !! p)) →
  on_disk w s prefix sub urls → on_disk w s' prefix sub urls.
Proof.
  intros Ho Hf H u Hu. destruct (H u Hu) as (f & E & S).
  exists f. split; [exact E|]. rewrite Ho. apply Hf, S.
Qed.

Lemma on_disk_add (s s' : cloner) (prefix sub : string) (urls : gset string)
    (url f : string) :
  output_dir s' = output_dir s →
  (∀ p, is_Some (files s !! p) → is_Some (files s' !! p)) →
  _get_filename_from_url w url prefix = Ok f →
  is_Some (files s' !! path_join (output_dir s) [sub; f]) →
  on_disk w s prefix sub urls → on_disk w s' prefix sub (urls ∪ {[url]}).
Proof.
  intros Ho Hf E S H u Hu. apply elem_of_union in Hu as [Hu|Hu].
  - exact (on_disk_mono s s' prefix sub urls Ho Hf H u Hu).
  - apply elem_of_singleton in Hu as ->. exists f. split; [exact E|].
    rewrite Ho. exact S.
Qed.

Lemma insert_keeps_files (m : gmap string content) (path : string) (c : content) :
  ∀ p, is_Some (m !! p) → is_Some (<[path := c]> m !! p).
Proof.
  intros p H. destruct (decide (path = p)) as [<-|Hne].
  - rewrite lookup_insert_eq. eauto.
  - rewrite lookup_insert_ne by exact Hne. exact H.
Qed.

(** A step that leaves the download sets and [all_css_rules] as they
    are and removes no file keeps the agreement. *)
Lemma mirrored_files (s s' : cloner) :
  output_dir s' = output_dir s →
  downloaded_images s' = downloaded_images s →
  downloaded_css s' = downloaded_css s →
  downloaded_js s' = downloaded_js s →
  all_css_rules s' = all_css_rules s →
  (∀ p, is_Some (files s !! p) → is_Some (files s' !! p)) →
  mirrored w s → mirrored w s'.
Proof.
  intros Ho Hi Hc Hj Hr Hf [mi mc mj mr ms].
  split; rewrite ?Hi, ?Hc, ?Hj, ?Hr; try assumption;
    eapply on_disk_mono; eassumption.
Qed.

Lemma km_same (s s' : cloner) :
  output_dir s' = output_dir s →
  downloaded_images s' = downloaded_images s →
  downloaded_css s' = downloaded_css s →
  downloaded_js s' = downloaded_js s →
  all_css_rules s' = all_css_rules s →
  (∀ p, is_Some (files s !! p) → is_Some (files s' !! p)) →
  keeps_mirrored w s s'.
Proof. intros Ho Hi Hc Hj Hr Hf Hm. by apply (mirrored_files s s'). Qed.

Lemma km_refl (s : cloner) : keeps_mirrored w s s.
Proof. intros H. exact H. Qed.

Lemma km_trans (s1 s2 s3 : cloner) :
  keeps_mirrored w s1 s2 → keeps_mirrored w s2 s3 → keeps_mirrored w s1 s3.
Proof. unfold keeps_mirrored. auto. Qed.

Lemma km_requests_get k url : within (keeps_mirrored w) (requests_get w k url).
Proof.
  intros st r st' H. apply requests_get_inv in H as [-> _].
  apply km_same; auto.
Qed.

Lemma km_write_file path c : within (keeps_mirrored w) (write_file w path c).
Proof.
  intros st r st'. unfold write_file.
  destruct (file_write_ok w (requests_log st) path); intros [= <- <-];
    [|apply km_refl].
  apply km_same; try reflexivity. apply insert_keeps_files.
Qed.

Lemma km_modify (f : cloner → cloner) :
  (∀ s, output_dir (f s) = output_dir s) →
  (∀ s, downloaded_images (f s) = downloaded_images s) →
  (∀ s, downloaded_css (f s) = downloaded_css s) →
  (∀ s, downloaded_js (f s) = downloaded_js s) →
  (∀ s, all_css_rules (f s) = all_css_rules s) →
  (∀ s, files (f s) = files s) →
  within (keeps_mirrored w) (modify f).
Proof.
  intros Ho Hi Hc Hj Hr Hf st r st' [= <- <-].
  apply km_same; auto. intros p. rewrite Hf. auto.
Qed.

Lemma km_download_image url : within (keeps_mirrored w) (download_image w url).
Proof.
  intros st r st'. destruct (decide (url ∈ downloaded_images st)) as [Hk|Hn].
  - rewrite (download_image_known w url st Hk). intros [= <- <-]. apply km_refl.
  - rewrite (download_image_new w url st Hn). cbv zeta.
    destruct (http_get w (requests_log st) url) as [body|];
      [|intros [= <- <-]; by apply km_same].
    destruct (_get_filename_from_url w url "img_") as [f|e] eqn:Hf;
      [|intros [= <- <-]; by apply km_same].
    destruct (file_write_ok w _ _); intros [= <- <-];
      [|by apply km_same].
    intros [mi mc mj mr ms]. split; cbn; try assumption.
    + eapply (on_disk_add st); try eassumption; try reflexivity.
      * apply insert_keeps_files.
      * cbn. rewrite lookup_insert_eq. eauto.
    + eapply (on_disk_mono st); try eassumption; try reflexivity.
      apply insert_keeps_files.
    + eapply (on_disk_mono st); try eassumption; try reflexivity.
      apply insert_keeps_files.
Qed.

Lemma km_download_js url : within (keeps_mirrored w) (download_js w url).
Proof.
  intros st r st'. destruct (decide (url ∈ downloaded_js st)) as [Hk|Hn].
  - rewrite (download_js_known w url st Hk). intros [= <- <-]. apply km_refl.
  - rewrite (download_js_new w url st Hn). cbv zeta.
    destruct (http_get w (requests_log st) url) as [body|];
      [|intros [= <- <-]; by apply km_same].
    destruct (_get_filename_from_url w url "script_") as [f|e] eqn:Hf;
      [|intros [= <- <-]; by apply km_same].
    destruct (file_write_ok w _ _); intros [= <- <-];
      [|by apply km_same].
    intros [mi mc mj mr ms]. split; cbn; try assumption.
    + eapply (on_disk_mono st); try eassumption; try reflexivity.
      apply insert_keeps_files.
    + eapply (on_disk_mono st); try eassumption; try reflexivity.
      apply insert_keeps_files.
    + eapply (on_disk_add st); try eassumption; try reflexivity.
      * apply insert_keeps_files.
      * cbn. rewrite lookup_insert_eq. eauto.
Qed.

Lemma km_download_font url : within (keeps_mirrored w) (_download_font w url).
Proof.
  exact (leaves_download_font w (keeps_mirrored w) km_refl km_trans
           km_requests_get km_write_file url).
Qed.

Lemma km_process_css css url :
  within (keeps_mirrored w) (_process_css_urls w css url).
Proof.
  exact (within_process_css w (keeps_mirrored w) km_refl km_trans
           km_download_image km_download_font css url).
Qed.

Lemma km_download_css url : within (keeps_mirrored w) (download_css w url).
Proof.
  unfold download_css.
  apply within_bind; [apply km_trans|apply within_gets, km_refl|].
  intros known. destruct known; [apply within_lift, km_refl|].
  apply within_try; [apply km_trans| |apply within_ret, km_refl].
  apply within_bind; [apply km_trans|apply km_requests_get|].
  intros body st r st' H.
  apply bind_inv in H as [(fn & sb & Hfn & H)|(e & [= _ <-] & _)];
    [|apply km_refl].
  injection Hfn as Hfn <-.
  apply bind_inv in H as [(out & sc & [= <- <-] & H)|(e & [=] & _)].
  apply bind_inv in H as [(css & sd & Hproc & H)|(e & Hproc & _)];
    [|eapply km_process_css, Hproc].
  pose proof (km_process_css _ _ _ _ _ Hproc) as K1.
  pose proof (fr_output_dir _ _ _ (keeps_process_css w _ _ _ _ _ Hproc)) as Ho.
  eapply km_trans; [exact K1|].
  apply bind_inv in H as [([] & se & Hw & H)|(e & Hw & _)];
    [|eapply km_write_file, Hw].
  apply write_file_inv in Hw as [-> _].
  unfold bind, modify, ret in H. injection H as <- <-.
  intros [mi mc mj mr ms]. split; cbn.
  - eapply (on_disk_mono sd); try eassumption; try reflexivity.
    apply insert_keeps_files.
  - eapply (on_disk_add sd); try eassumption; try reflexivity.
    + apply insert_keeps_files.
    + cbn. rewrite <- Ho, lookup_insert_eq. eauto.
  - eapply (on_disk_mono sd); try eassumption; try reflexivity.
    apply insert_keeps_files.
  - intros u. destruct (decide (url = u)) as [<-|Hne].
    + rewrite lookup_insert_eq. split; [eauto|]. intros _.
      apply elem_of_union. right. by apply elem_of_singleton.
    + rewrite lookup_insert_ne by exact Hne. rewrite <- mr.
      rewrite elem_of_union, elem_of_singleton. split; [|auto].
      intros [H|H]; [exact H|congruence].
  - intros u l. destruct (decide (url = u)) as [<-|Hne].
    + rewrite lookup_insert_eq. intros [= <-]. reflexivity.
    + rewrite lookup_insert_ne by exact Hne. apply ms.
Qed.

Lemma km_save_page url b sp : within (keeps_mirrored w) (save_page w url b sp).
Proof.
  exact (leaves_save_page w (keeps_mirrored w) km_refl km_trans km_write_file url b sp).
Qed.

Lemma km_save_summary : within (keeps_mirrored w) (_save_summary w).
Proof.
  exact (leaves_save_summary w (keeps_mirrored w) km_refl km_trans km_write_file).
Qed.

Lemma km_scrape_page url b : within (keeps_mirrored w) (scrape_page w url b).
Proof.
  apply (within_scrape_page w (keeps_mirrored w) km_refl km_trans
           km_download_image km_download_css km_download_js km_process_css
           km_save_page).
  - intros sp. apply km_modify; reflexivity.
  - intros u. apply km_requests_get.
  - intros u. apply km_modify; reflexivity.
Qed.

Lemma km_scrape_full_site fuel max_pages st r st' :
  scrape_full_site w fuel max_pages st = Some (r, st') → keeps_mirrored w st st'.
Proof.
  apply (within_scrape_full_site w (keeps_mirrored w) km_refl km_trans
           km_download_image km_download_css km_download_js km_process_css
           km_save_page).
  - intros sp. apply km_modify; reflexivity.
  - intros u. apply km_requests_get.
  - intros u. apply km_modify; reflexivity.
  - apply km_save_summary.
Qed.

Lemma new_cloner_mirrored b out self : new_cloner w b out = Ok self → mirrored w self.
Proof.
  intros H. destruct (new_cloner_inv w _ _ _ H) as (p & _ & -> & _).
  split; cbn.
  - intros u Hu. by apply not_elem_of_empty in Hu.
  - intros u Hu. by apply not_elem_of_empty in Hu.
  - intros u Hu. by apply not_elem_of_empty in Hu.
  - intros u. rewrite lookup_empty. split.
    + intros Hu. by apply not_elem_of_empty in Hu.
    + intros [x Hx]. discriminate Hx.
  - intros u l. rewrite lookup_empty. discriminate.
Qed.

End Mirrored.

(** X9. The download sets agree with the disk.  An object just built
    is [mirrored]; [scrape_page] and [scrape_full_site] keep it so.
    Hence, after any run, every URL recorded as downloaded (and listed
    in the summary) has its file in [images/], [css/] or [js/], and
    [all_css_rules] keeps exactly one text for each style sheet recorded
    and for no other URL. *)
Theorem downloads_are_mirrored (w : world) :
  (∀ b out self, new_cloner w b out = Ok self → mirrored w self) ∧
  (∀ st url b r st',
     mirrored w st → scrape_page w url b st = (r, st') → mirrored w st') ∧
  (∀ st fuel max_pages r st',
     mirrored w st →
     scrape_full_site w fuel max_pages st = Some (r, st') → mirrored w st').
Proof.
  split; [apply new_cloner_mirrored|]. split.
  - intros st url b r st' Hm H. exact (km_scrape_page w url b st r st' H Hm).
  - intros st fuel max_pages r st' Hm H.
    exact (km_scrape_full_site w fuel max_pages st r st' H Hm).
Qed.

(** X10. On a [mirrored] object, asking again for a URL that is
    recorded as downloaded gives its local file name at once, without
    any request or change and without raising, and the file of that
    name exists; for a style sheet, [all_css_rules] keeps its text. *)
Theorem recorded_download_returns_its_file (w : world) (st : cloner)
    (url : string) :
  mirrored w st →
  (url ∈ downloaded_images st →
   ∃ f, download_image w url st = (Ok f, st) ∧ f ≠ "" ∧
        is_Some (files st !! path_join (output_dir st) ["images"; f])) ∧
  (url ∈ downloaded_css st →
   ∃ f css, download_css w url st = (Ok f, st) ∧ f ≠ "" ∧
            is_Some (files st !! path_join (output_dir st) ["css"; f]) ∧
            all_css_rules st !! url = Some [css]) ∧
  (url ∈ downloaded_js st →
   ∃ f, download_js w url st = (Ok f, st) ∧ f ≠ "" ∧
        is_Some (files st !! path_join (output_dir st) ["js"; f])).
Proof.
  intros Hm. split; [|split].
  - intros Hk. destruct (mi_images _ _ Hm url Hk) as (f & Hf & Hfile).
    exists f. rewrite (download_image_known w url st Hk), Hf.
    split; [reflexivity|]. split; [|exact Hfile].
    eapply filename_nonempty; [|exact Hf]. discriminate.
  - intros Hk. destruct (mi_css _ _ Hm url Hk) as (f & Hf & Hfile).
    destruct (proj1 (mi_rules _ _ Hm url) Hk) as [l Hl].
    pose proof (mi_single _ _ Hm url l Hl) as Hlen.
    destruct l as [|css [|c2 l]]; try discriminate Hlen.
    exists f, css. rewrite (download_css_known w url st Hk), Hf.
    split; [reflexivity|]. split; [|split; [exact Hfile|exact Hl]].
    eapply filename_nonempty; [|exact Hf]. discriminate.
  - intros Hk. destruct (mi_js _ _ Hm url Hk) as (f & Hf & Hfile).
    exists f. rewrite (download_js_known w url st Hk), Hf.
    split; [reflexivity|]. split; [|exact Hfile].
    eapply filename_nonempty; [|exact Hf]. discriminate.
Qed.

(* ===================================================================== *)
(** * Inline styles *)
(* ===================================================================== *)

Section InlineStyles.
Variable w : world.

Lemma ss_refl (s : cloner) : same_styles s s.
Proof. reflexivity. Qed.

Lemma ss_trans (s1 s2 s3 : cloner) :
  same_styles s1 s2 → same_styles s2 s3 → same_styles s1 s3.
Proof. unfold same_styles. congruence. Qed.

Lemma ss_requests_get k url : within same_styles (requests_get w k url).
Proof. intros st r st' H. apply requests_get_inv in H as [-> _]. reflexivity. Qed.

Lemma ss_write_file path c : within same_styles (write_file w path c).
Proof.
  intros st r st'. unfold write_file.
  destruct (file_write_ok w (requests_log st) path); intros [= <- <-]; reflexivity.
Qed.

Lemma ss_modify (f : cloner → cloner) :
  (∀ s, inline_styles (f s) = inline_styles s) → within same_styles (modify f).
Proof. intros Hf st r st' [= <- <-]. apply Hf. Qed.

Lemma ss_images f : within same_styles (modify (set_downloaded_images f)).
Proof. apply ss_modify. reflexivity. Qed.

Lemma ss_css f : within same_styles (modify (set_downloaded_css f)).
Proof. apply ss_modify. reflexivity. Qed.

Lemma ss_js f : within same_styles (modify (set_downloaded_js f)).
Proof. apply ss_modify. reflexivity. Qed.

Lemma ss_rules f : within same_styles (modify (set_all_css_rules f)).
Proof. apply ss_modify. reflexivity. Qed.

(** Once the inline styles of the page have been collected, the rest
    of [scrape_page] leaves the list as it is. *)
Lemma ss_page_assets url b sp : within same_styles (page_assets w url b sp).
Proof.
  apply (within_page_assets w same_styles ss_refl ss_trans).
  - exact (leaves_download_image w same_styles ss_refl ss_trans
             ss_requests_get ss_write_file (fun u => ss_images _)).
  - exact (leaves_download_css w same_styles ss_refl ss_trans
             ss_requests_get ss_write_file (fun u => ss_images _)
             (fun u => ss_css _) (fun u l => ss_rules _)).
  - exact (leaves_download_js w same_styles ss_refl ss_trans
             ss_requests_get ss_write_file (fun u => ss_js _)).
  - exact (leaves_process_css w same_styles ss_refl ss_trans
             ss_requests_get ss_write_file (fun u => ss_images _)).
  - exact (leaves_save_page w same_styles ss_refl ss_trans ss_write_file).
Qed.

Lemma after_visit_styles url b sp st r st' :
  after_visit w url b sp st = (r, st') →
  inline_styles st' = inline_styles st ++ style_strings sp.
Proof.
  unfold after_visit, bind at 1, extract_inline_css, modify. intros H.
  change (page_assets w url b sp
            (set_inline_styles (fun l => l ++ style_strings sp) st) = (r, st')) in H.
  apply ss_page_assets in H. exact H.
Qed.

(** X11. The inline styles of a page are recorded together with the
    visit.  When [scrape_page] marks a URL as visited, the page has been
    fetched and parsed and the texts of its [<style>] elements, in the
    order of the page and without the empty ones, have been appended to
    [inline_styles], and nothing else has, whether the call then returns
    the page or gives up on a later step.  When it does not mark the
    URL, the list is as it was. *)
Theorem page_styles_are_recorded (url : string) (b : bool) (st : cloner)
    (r : result (option soup)) (st' : cloner) :
  url ∉ visited_pages st →
  scrape_page w url b st = (r, st') →
  (url ∈ visited_pages st' →
   ∃ body,
     http_get w (requests_log st) url = Some body ∧
     parser_ok w body = true ∧
     inline_styles st' = inline_styles st ++ style_strings (html_parser w body)) ∧
  (url ∉ visited_pages st' → inline_styles st' = inline_styles st) ∧
  (∀ sp', r = Ok (Some sp') → url ∈ visited_pages st').
Proof.
  intros Hv H.
  destruct (scrape_page_outcome w url b st r st' H)
    as [(Hin & _)|[(_ & -> & -> & _)|(_ & body & r1 & Hg & Hp & Ha & ->)]].
  - contradiction.
  - split; [|split].
    + intros Hin. cbn in Hin. contradiction.
    + reflexivity.
    + intros sp' [=].
  - assert (Hvis : url ∈ visited_pages st').
    { rewrite (fr_visited _ _ _ (keeps_after_visit w url b _ _ _ _ Ha)). cbn.
      apply elem_of_union. right. by apply elem_of_singleton. }
    split; [|split].
    + intros _. exists body. split; [exact Hg|]. split; [exact Hp|].
      exact (after_visit_styles url b _ _ _ _ Ha).
    + intros Hn. contradiction.
    + intros sp' _. exact Hvis.
Qed.

End InlineStyles.

(* ===================================================================== *)
(** * What a page becomes *)
(* ===================================================================== *)

Lemma rewritten_refl (e : element) : rewritten e e.
Proof. repeat split; auto. Qed.

Lemma rewritten_trans (a b c : element) :
  rewritten a b → rewritten b c → rewritten a c.
Proof.
  intros (t1 & r1 & s1 & o1 & h1) (t2 & r2 & s2 & o2 & h2).
  split; [congruence|]. split; [congruence|]. split; [congruence|]. split.
  - intros name H1 H2 H3. rewrite o2, o1 by assumption. reflexivity.
  - intros name Hn. destruct (h2 name Hn) as [E|V]; [|right; exact V].
    rewrite E. apply h1, Hn.
Qed.

Lemma has_prefix_app (p s : string) : has_prefix p (p +:+ s) = true.
Proof.
  induction p as [|a p IH]; [reflexivity|]. rewrite app_cons_s. cbn [has_prefix].
  rewrite Ascii.eqb_refl, IH. reflexivity.
Qed.

(** Pointing [href] or [src] at a local copy. *)
Lemma rewritten_set_ref (e : element) (name v : string) :
  name = "href" ∨ name = "src" → local_ref v = true →
  rewritten e (el_set e name v).
Proof.
  intros Hn Hv. unfold rewritten, el_set, el_get. cbn.
  split; [reflexivity|]. split; [reflexivity|]. split; [reflexivity|]. split.
  - intros k H1 H2 H3. apply lookup_insert_ne. destruct Hn; congruence.
  - intros k Hk. destruct (decide (name = k)) as [<-|Hne].
    + right. exists v. rewrite lookup_insert_eq. auto.
    + left. apply lookup_insert_ne, Hne.
Qed.

Lemma rewritten_set_style (e : element) (v : string) :
  rewritten e (el_set e "style" v).
Proof.
  unfold rewritten, el_set, el_get. cbn.
  split; [reflexivity|]. split; [reflexivity|]. split; [reflexivity|]. split.
  - intros k H1 H2 H3. apply lookup_insert_ne. congruence.
  - intros k Hk. left. apply lookup_insert_ne. destruct Hk; congruence.
Qed.

Lemma local_ref_css (f : string) : local_ref ("../css/" +:+ f) = true.
Proof. unfold local_ref, startswith. rewrite has_prefix_app. reflexivity. Qed.

Lemma local_ref_images (f : string) : local_ref ("../images/" +:+ f) = true.
Proof.
  unfold local_ref, startswith. rewrite (has_prefix_app "../images/").
  apply orb_true_iff. left. apply orb_true_r.
Qed.

Lemma local_ref_js (f : string) : local_ref ("../js/" +:+ f) = true.
Proof.
  unfold local_ref, startswith. rewrite (has_prefix_app "../js/").
  apply orb_true_r.
Qed.

Lemma mapM_Forall2 {A} (f : A → M A) (Rel : A → A → Prop) :
  (∀ a st b st', f a st = (Ok b, st') → Rel a b) →
  ∀ l st l' st', mapM f l st = (Ok l', st') → Forall2 Rel l l'.
Proof.
  intros Hf. induction l as [|x xs IH]; intros st l' st' H.
  - injection H as <- _. constructor.
  - cbn [mapM] in H.
    apply bind_inv in H as [(y & s1 & Hy & H)|(e0 & _ & [=])].
    apply bind_inv in H as [(ys & s2 & Hys & H)|(e0 & _ & [=])].
    injection H as <- _. constructor; eauto.
Qed.

Lemma Forall2_rewritten_trans (l1 l2 l3 : soup) :
  Forall2 rewritten l1 l2 → Forall2 rewritten l2 l3 → Forall2 rewritten l1 l3.
Proof.
  intros H. revert l3. induction H as [|a b l1 l2 Hab _ IH]; intros l3 H3.
  - inversion H3. constructor.
  - inversion H3 as [|b' c l2' l3' Hbc Hrest]; subst.
    constructor; [eapply rewritten_trans; eassumption|auto].
Qed.

Section PageShape.
Variable w : world.

Lemma css_step_rewritten url e st b st' :
  css_step w url e st = (Ok b, st') → rewritten e b.
Proof.
  unfold css_step. destruct (is_stylesheet_link e);
    [|intros [= <- _]; apply rewritten_refl].
  destruct (el_get e "href") as [h|]; [|intros [= <- _]; apply rewritten_refl].
  destruct (is_empty h); [intros [= <- _]; apply rewritten_refl|]. intros H.
  apply bind_inv in H as [(x & s1 & _ & H)|(e0 & _ & [=])].
  destruct (is_empty x); [injection H as <- _; apply rewritten_refl|].
  apply bind_inv in H as [(y & s2 & _ & H)|(e0 & _ & [=])].
  destruct (is_empty y); injection H as <- _; [apply rewritten_refl|].
  apply rewritten_set_ref; [by left|apply local_ref_css].
Qed.

Lemma icon_step_rewritten url e st b st' :
  icon_step w url e st = (Ok b, st') → rewritten e b.
Proof.
  unfold icon_step. destruct (is_icon_link e);
    [|intros [= <- _]; apply rewritten_refl].
  destruct (el_get e "href") as [h|]; [|intros [= <- _]; apply rewritten_refl].
  destruct (is_empty h); [intros [= <- _]; apply rewritten_refl|]. intros H.
  apply bind_inv in H as [(x & s1 & _ & H)|(e0 & _ & [=])].
  destruct (is_empty x); [injection H as <- _; apply rewritten_refl|].
  apply bind_inv in H as [(y & s2 & _ & H)|(e0 & _ & [=])].
  destruct (is_empty y); injection H as <- _; [apply rewritten_refl|].
  apply rewritten_set_ref; [by left|apply local_ref_images].
Qed.

Lemma img_step_rewritten url e st b st' :
  img_step w url e st = (Ok b, st') → rewritten e b.
Proof.
  unfold img_step. destruct (String.eqb (el_tag e) "img");
    [|intros [= <- _]; apply rewritten_refl].
  destruct (img_source e) as [h|]; [|intros [= <- _]; apply rewritten_refl].
  destruct (is_empty h); [intros [= <- _]; apply rewritten_refl|]. intros H.
  apply bind_inv in H as [(x & s1 & _ & H)|(e0 & _ & [=])].
  destruct (negb (is_empty x) && negb (startswith x "data:"));
    [|injection H as <- _; apply rewritten_refl].
  apply bind_inv in H as [(y & s2 & _ & H)|(e0 & _ & [=])].
  destruct (is_empty y); injection H as <- _; [apply rewritten_refl|].
  apply rewritten_set_ref; [by right|apply local_ref_images].
Qed.

Lemma script_step_rewritten url e st b st' :
  script_step w url e st = (Ok b, st') → rewritten e b.
Proof.
  unfold script_step. destruct (String.eqb (el_tag e) "script");
    [|intros [= <- _]; apply rewritten_refl].
  destruct (el_get e "src") as [h|]; [|intros [= <- _]; apply rewritten_refl].
  destruct (is_empty h); [intros [= <- _]; apply rewritten_refl|]. intros H.
  apply bind_inv in H as [(x & s1 & _ & H)|(e0 & _ & [=])].
  destruct (is_empty x); [injection H as <- _; apply rewritten_refl|].
  apply bind_inv in H as [(y & s2 & _ & H)|(e0 & _ & [=])].
  destruct (is_empty y); injection H as <- _; [apply rewritten_refl|].
  apply rewritten_set_ref; [by right|apply local_ref_js].
Qed.

Lemma style_step_rewritten url e st b st' :
  style_step w url e st = (Ok b, st') → rewritten e b.
Proof.
  unfold style_step. destruct (el_get e "style") as [s|];
    [|intros [= <- _]; apply rewritten_refl].
  destruct (contains s "background-image" || contains s "background:");
    [|intros [= <- _]; apply rewritten_refl].
  intros H. apply bind_inv in H as [(x & s1 & _ & H)|(e0 & _ & [=])].
  injection H as <- _. apply rewritten_set_style.
Qed.

(** What [page_assets] returns and saves. *)
Lemma page_assets_outcome url b sp st sp' st' :
  page_assets w url b sp st = (Ok sp', st') →
  Forall2 rewritten sp sp' ∧
  output_dir st' = output_dir st ∧
  (b = true →
   ∃ f, _get_filename_from_url w url "page_" = Ok f ∧
        files st' !! path_join (output_dir st) ["html"; f]
          = Some (Data (prettify w sp'))).
Proof.
  unfold page_assets. intros H.
  apply bind_inv in H as [(sp1 & s1 & H1 & H)|(e0 & _ & [=])].
  apply bind_inv in H as [(sp2 & s2 & H2 & H)|(e0 & _ & [=])].
  apply bind_inv in H as [(sp3 & s3 & H3 & H)|(e0 & _ & [=])].
  apply bind_inv in H as [(sp4 & s4 & H4 & H)|(e0 & _ & [=])].
  apply bind_inv in H as [(sp5 & s5 & H5 & H)|(e0 & _ & [=])].
  apply bind_inv in H as [([] & s6 & H6 & H)|(e0 & _ & [=])].
  injection H as <- <-.
  assert (Ho : output_dir s5 = output_dir st).
  { rewrite (fr_output_dir _ _ _ (keeps_mapM asset_kind _ _ (keeps_icon_step w url) _ _ _ H5)).
    rewrite (fr_output_dir _ _ _ (keeps_mapM asset_kind _ _ (keeps_script_step w url) _ _ _ H4)).
    rewrite (fr_output_dir _ _ _ (keeps_mapM asset_kind _ _ (keeps_style_step w url) _ _ _ H3)).
    rewrite (fr_output_dir _ _ _ (keeps_mapM asset_kind _ _ (keeps_img_step w url) _ _ _ H2)).
    apply (fr_output_dir _ _ _ (keeps_mapM asset_kind _ _ (keeps_css_step w url) _ _ _ H1)). }
  split; [|split].
  - eapply Forall2_rewritten_trans;
      [|eapply mapM_Forall2, H5; apply icon_step_rewritten].
    eapply Forall2_rewritten_trans;
      [|eapply mapM_Forall2, H4; apply script_step_rewritten].
    eapply Forall2_rewritten_trans;
      [|eapply mapM_Forall2, H3; apply style_step_rewritten].
    eapply Forall2_rewritten_trans;
      [|eapply mapM_Forall2, H2; apply img_step_rewritten].
    eapply mapM_Forall2, H1. apply css_step_rewritten.
  - rewrite <- Ho. destruct b; [|by injection H6 as <-].
    apply bind_inv in H6 as [(fn & sa & [= _ <-] & H6)|(e0 & _ & [=])].
    apply bind_inv in H6 as [(out & sb & [= <- <-] & H6)|(e0 & _ & [=])].
    apply write_file_inv in H6 as [-> _]. reflexivity.
  - intros ->.
    apply bind_inv in H6 as [(fn & sa & [= Hfn <-] & H6)|(e0 & _ & [=])].
    apply bind_inv in H6 as [(out & sb & [= <- <-] & H6)|(e0 & _ & [=])].
    apply write_file_inv in H6 as [-> _]. exists fn. split; [exact Hfn|].
    rewrite <- Ho. cbn. apply lookup_insert_eq.
Qed.

Lemma scrape_page_some url b st sp' st' :
  scrape_page w url b st = (Ok (Some sp'), st') →
  ∃ body,
    (url ∉ visited_pages st) ∧
    http_get w (requests_log st) url = Some body ∧
    page_assets w url b (html_parser w body)
      (set_inline_styles (fun l => l ++ style_strings (html_parser w body))
         (visit url st)) = (Ok sp', st').
Proof.
  intros H. destruct (decide (url ∈ visited_pages st)) as [Hv|Hv].
  { rewrite (scrape_page_seen w url b st Hv) in H. discriminate H. }
  destruct (http_get w (requests_log st) url) as [body|] eqn:Hg.
  2:{ rewrite (scrape_page_fetch_failed w url b st Hv Hg) in H. discriminate H. }
  destruct (parser_ok w body) eqn:Hp.
  2:{ rewrite (scrape_page_rejected w url b st body Hv Hg Hp) in H.
      discriminate H. }
  exists body. split; [exact Hv|]. split; [reflexivity|].
  destruct (scrape_page_fetched w url b st body Hv Hg Hp)
    as (o & s1 & Hs & _ & Hsp).
  rewrite Hs in H. injection H as -> <-. exact (Hsp sp' eq_refl).
Qed.

(** X12. The page that [scrape_page] returns is the parsed page with
    the same elements in the same order; an element differs from the
    parsed one at most by its [style] attribute and by [href] and
    [src], which then point at a local copy in [../css/], [../images/]
    or [../js/].  When the page is saved, the file in [html/] holds the
    serialization of that very page. *)
Theorem returned_page_is_the_rewritten_page (url : string) (b : bool)
    (st : cloner) (sp' : soup) (st' : cloner) :
  scrape_page w url b st = (Ok (Some sp'), st') →
  ∃ body,
    http_get w (requests_log st) url = Some body ∧
    Forall2 rewritten (html_parser w body) sp' ∧
    (b = true →
     ∃ f, _get_filename_from_url w url "page_" = Ok f ∧
          files st' !! path_join (output_dir st) ["html"; f]
            = Some (Data (prettify w sp'))).
Proof.
  intros H. destruct (scrape_page_some url b st sp' st' H) as (body & _ & Hg & Hp).
  exists body. split; [exact Hg|].
  destruct (page_assets_outcome _ _ _ _ _ _ Hp) as (Hr & _ & Hs).
  split; [exact Hr|exact Hs].
Qed.

(** X13. [scrape_page] marks no URL but its own, and only a page that
    it has fetched and parsed.  Whatever the outcome of the call, the
    set of visited pages is the one before, or the one before with the
    URL added, and then the URL was not in it, its request succeeded and
    the parser accepted the answer.  A call for a visited URL returns
    [None] and changes nothing; a call that returns a page has marked
    its URL.  The call never forgets a downloaded URL, never changes the
    configuration, and requests at most one page, its own, before any
    asset. *)
Theorem scrape_page_marks_only_its_url (url : string) (b : bool) (st : cloner)
    (r : result (option soup)) (st' : cloner) :
  scrape_page w url b st = (r, st') →
  (visited_pages st' = visited_pages st ∨
   ((url ∉ visited_pages st) ∧
    visited_pages st' = visited_pages st ∪ {[url]} ∧
    ∃ body, http_get w (requests_log st) url = Some body ∧
            parser_ok w body = true)) ∧
  (url ∈ visited_pages st → r = Ok None ∧ st' = st) ∧
  (∀ sp, r = Ok (Some sp) → url ∈ visited_pages st') ∧
  downloaded_images st ⊆ downloaded_images st' ∧
  downloaded_css st ⊆ downloaded_css st' ∧
  downloaded_js st ⊆ downloaded_js st' ∧
  base_url st' = base_url st ∧ domain st' = domain st ∧
  output_dir st' = output_dir st ∧
  ∃ l, requests_log st' = requests_log st ++ l ∧
       (l = [] ∨
        ∃ l', l = (Page, url) :: l' ∧
              Forall (fun q => asset_kind (fst q) = true) l').
Proof.
  intros H.
  destruct (scrape_page_outcome w url b st r st' H)
    as [(Hin & -> & ->)|[(Hn & -> & -> & _)|(Hn & body & r1 & Hg & Hp & Ha & ->)]].
  - split; [by left|]. split; [auto|]. split; [intros sp [=]|].
    repeat split; try reflexivity. exists []. rewrite app_nil_r. auto.
  - split; [by left|]. split; [intros Hin; contradiction|].
    split; [intros sp [=]|].
    repeat split; try reflexivity. exists [(Page, url)]. split; [reflexivity|].
    right. exists []. auto.
  - destruct (keeps_after_visit w url b _ _ _ _ Ha)
      as [fb fd fo fi fc fj fv (l & fl & HF)]. cbn in *.
    split; [right; split; [exact Hn|]; split; [exact fv|]; eauto|].
    split; [intros Hin; contradiction|].
    split.
    { intros sp _. rewrite fv. apply elem_of_union. right.
      by apply elem_of_singleton. }
    repeat split; try assumption.
    exists ((Page, url) :: l). rewrite fl, <- app_assoc.
    split; [reflexivity|]. right. exists l. auto.
Qed.

End PageShape.

(* ===================================================================== *)
(** * Internal links and the pages of the crawl *)
(* ===================================================================== *)

Section InternalLinks.
Variable w : world.

(** The test that [find_internal_links] makes on an element. *)
Lemma internal_link_some (self : cloner) (base : string) (e : element) (u : string) :
  internal_link w self base e = Ok (Some u) ↔
  ∃ href,
    el_tag e = "a" ∧ el_get e "href" = Some href ∧
    _normalize_url w self href (Some base) = Ok u ∧ u ≠ "" ∧
    _is_same_domain w self u = Ok true ∧
    any_ext_in non_html_exts (lower u) = false.
Proof.
  unfold internal_link. split.
  - destruct (String.eqb (el_tag e) "a") eqn:Ht; [|discriminate].
    apply String.eqb_eq in Ht.
    destruct (el_get e "href") as [href|]; [|discriminate].
    destruct (_normalize_url w self href (Some base)) as [v|ex] eqn:En;
      [|discriminate].
    cbn [rbind]. destruct (is_empty v) eqn:Ev; [discriminate|].
    destruct (_is_same_domain w self v) as [[]|ex] eqn:Ed;
      try discriminate; cbn [rbind andb].
    destruct (any_ext_in non_html_exts (lower v)) eqn:Ex; [discriminate|].
    cbn [negb]. intros [= <-]. exists href.
    apply is_empty_false in Ev. auto 10.
  - intros (href & Ht & Hh & Hn & Hu & Hd & Hx).
    rewrite Ht, Hh, Hn. cbn [String.eqb Ascii.eqb Bool.eqb rbind].
    apply is_empty_false in Hu. rewrite Hu, Hd. cbn [rbind]. rewrite Hx. reflexivity.
Qed.

Lemma find_internal_links_elem (self : cloner) (base : string) :
  ∀ sp links,
    find_internal_links w self sp base = Ok links →
    ∀ u, u ∈ links ↔ ∃ e, e ∈ sp ∧ internal_link w self base e = Ok (Some u).
Proof.
  induction sp as [|e sp IH]; intros links; cbn [find_internal_links].
  - intros [= <-] u. split.
    + intros H. by apply not_elem_of_empty in H.
    + intros (e & He & _). by apply elem_of_nil in He.
  - destruct (internal_link w self base e) as [o|ex] eqn:He; [|discriminate].
    cbn [rbind].
    destruct (find_internal_links w self sp base) as [ls|ex]; [|discriminate].
    cbn [rbind]. intros [= <-] u. specialize (IH ls eq_refl u).
    destruct o as [v|].
    + rewrite elem_of_union, elem_of_singleton, IH. split.
      * intros [->|(e' & Hin & H)]; [exists e; split; [left|exact He]|].
        exists e'. split; [by right|exact H].
      * intros (e' & Hin & H). apply elem_of_cons in Hin as [->|Hin].
        -- left. congruence.
        -- right. eauto.
    + rewrite IH. split.
      * intros (e' & Hin & H). exists e'. split; [by right|exact H].
      * intros (e' & Hin & H). apply elem_of_cons in Hin as [->|Hin];
          [congruence|eauto].
Qed.

(** X14. The links that [find_internal_links] returns are exactly the
    normalized [href]s of the anchors of the page that are not empty,
    that [_is_same_domain] accepts and whose text, in lower case, holds
    none of [.pdf], [.zip], [.doc], [.xls]. *)
Theorem internal_links_characterized (self : cloner) (sp : soup) (base : string)
    (links : gset string) (u : string) :
  find_internal_links w self sp base = Ok links →
  u ∈ links ↔
  ∃ e href,
    e ∈ sp ∧ el_tag e = "a" ∧ el_get e "href" = Some href ∧
    _normalize_url w self href (Some base) = Ok u ∧ u ≠ "" ∧
    _is_same_domain w self u = Ok true ∧
    any_ext_in non_html_exts (lower u) = false.
Proof.
  intros H. rewrite (find_internal_links_elem self base sp links H u). split.
  - intros (e & He & Hl). apply internal_link_some in Hl as (href & Hl).
    exists e, href. tauto.
  - intros (e & href & He & Hl). exists e. split; [exact He|].
    apply internal_link_some. exists href. exact Hl.
Qed.

(** An anchor that cannot be handled makes the whole search fail. *)
Lemma find_internal_links_raises (self : cloner) (base : string) (e : element) ex :
  ∀ sp, e ∈ sp →
    internal_link w self base e = Raise ex →
    ∃ ex', find_internal_links w self sp base = Raise ex'.
Proof.
  induction sp as [|e' sp IH]; intros Hin He; [by apply elem_of_nil in Hin|].
  cbn [find_internal_links]. apply elem_of_cons in Hin as [<-|Hin].
  - rewrite He. eauto.
  - destruct (internal_link w self base e') as [o|ex1]; [|eauto]. cbn [rbind].
    destruct (IH Hin He) as [ex' ->]. eauto.
Qed.

Lemma set_pop_singleton log (x : string) : set_pop w log {[x]} = Some x.
Proof.
  unfold set_pop. rewrite elements_singleton. f_equal.
  case_bool_decide as H; [|reflexivity]. by apply elem_of_singleton in H.
Qed.

Lemma crawl_stop fuel max_pages todo st r st' :
  crawl_turn w max_pages todo st = Stop r st' →
  crawl w fuel max_pages todo st = Some (r, st').
Proof. intros H. destruct fuel; cbn [crawl]; rewrite H; reflexivity. Qed.

(** X15. [find_internal_links] is called outside any [try]: when the
    first page has been scraped and one of its anchors has an [href]
    that [urllib.parse] rejects, the exception leaves
    [scrape_full_site]; the crawl stops there and the summary is not
    written. *)
Theorem unparsable_href_aborts_crawl (self : cloner) (fuel : nat) (max_pages : Z)
    (sp : soup) (st1 : cloner) (e : element) (href : string) (ex : exn) :
  base_url self ∉ visited_pages self →
  (Z.of_nat (size (visited_pages self)) < max_pages)%Z →
  scrape_page w (base_url self) true self = (Ok (Some sp), st1) →
  e ∈ sp → el_tag e = "a" → el_get e "href" = Some href →
  _normalize_url w st1 href (Some (base_url self)) = Raise ex →
  ∃ ex', scrape_full_site w fuel max_pages self = Some (Raise ex', st1).
Proof.
  intros Hv Hlt Hs He Ht Hh Hn.
  assert (Hl : internal_link w st1 (base_url self) e = Raise ex).
  { unfold internal_link. rewrite Ht, Hh, Hn. reflexivity. }
  destruct (find_internal_links_raises st1 (base_url self) e ex sp He Hl) as [ex' Hf].
  exists ex'. unfold scrape_full_site.
  rewrite (crawl_stop fuel max_pages _ _ (Raise ex') st1); [reflexivity|].
  unfold crawl_turn. rewrite set_pop_singleton.
  apply Z.ltb_lt in Hlt. rewrite Hlt. cbn [negb].
  rewrite (bool_decide_eq_false_2 _ Hv), Hs, Hf. reflexivity.
Qed.

(** A discoverable URL is the start URL or an internal link. *)
Lemma discoverable_internal (self : cloner) (u : string) :
  discoverable w self u →
  u = base_url self ∨
  (u ≠ "" ∧ contains_char u "#" = false ∧
   _is_same_domain w self u = Ok true ∧
   any_ext_in non_html_exts (lower u) = false).
Proof.
  intros H. destruct H as [|url log body links target _ _ _ Hl Ht]; [by left|].
  right.
  apply (find_internal_links_elem self url _ _ Hl) in Ht as (e & _ & He).
  apply internal_link_some in He as (href & _ & _ & Hn & Hu & Hd & Hx).
  split; [exact Hu|]. split; [|split; assumption].
  destruct (normalize_resolved w self href (Some url) target Hn)
    as [->|(j & q & _ & _ & Hq & ->)]; [reflexivity|].
  destruct (urlparse_parts_plain _ _ _ Hq) as (H1 & H2 & H3 & H4 & H5).
  apply urlunparse_plain; assumption.
Qed.

(** X16. The crawl stays on the site: a page that [scrape_full_site]
    requests is the start URL, or a URL without fragment that
    [_is_same_domain] accepts, with the domain of the start, and that
    holds none of [.pdf], [.zip], [.doc], [.xls]. *)
Theorem crawl_stays_on_site (self : cloner) (fuel : nat) (max_pages : Z)
    (r : result unit) (self' : cloner) (u : string) :
  scrape_full_site w fuel max_pages self = Some (r, self') →
  (Page, u) ∈ requests_log self' →
  (Page, u) ∉ requests_log self →
  u = base_url self ∨
  (u ≠ "" ∧ contains_char u "#" = false ∧
   _is_same_domain w self u = Ok true ∧
   any_ext_in non_html_exts (lower u) = false).
Proof.
  intros H Hu Hnew. apply discoverable_internal.
  unfold scrape_full_site in H.
  destruct (crawl w fuel max_pages {[base_url self]} self)
    as [[r1 self1]|] eqn:Hc; [|discriminate].
  destruct (crawl_result_inv w self _ _ _ _ _ _ Hc (crawl_inv_start w self))
    as (_ & _ & _ & Hlog).
  assert (Hu1 : (Page, u) ∈ requests_log self1).
  { destruct r1 as [[]|ex].
    - injection H as H. eapply page_request_after_frame; [|exact Hu].
      eapply keeps_save_summary, H.
    - injection H as <- <-. exact Hu. }
  destruct (Hlog u Hu1) as [Hold|Hd]; [contradiction|exact Hd].
Qed.

(** X17. When the cap is already reached (for instance when it is zero
    or negative), [scrape_full_site] requests nothing: it only writes
    the summary, whatever the number of turns allowed. *)
Theorem reached_cap_fetches_nothing (self : cloner) (fuel : nat) (max_pages : Z) :
  (max_pages ≤ Z.of_nat (size (visited_pages self)))%Z →
  scrape_full_site w fuel max_pages self = Some (_save_summary w self) ∧
  requests_log (snd (_save_summary w self)) = requests_log self ∧
  visited_pages (snd (_save_summary w self)) = visited_pages self.
Proof.
  intros Hle.
  assert (Ht : crawl_turn w max_pages {[base_url self]} self = Stop (Ok ()) self).
  { unfold crawl_turn. rewrite set_pop_singleton.
    apply Z.ltb_ge in Hle. rewrite Hle. reflexivity. }
  unfold scrape_full_site. rewrite (crawl_stop fuel _ _ _ _ _ Ht).
  split; [reflexivity|].
  destruct (_save_summary w self) as [r st'] eqn:E. cbn [snd].
  refine (leaves_save_summary w
            (fun s s' => requests_log s' = requests_log s ∧
                         visited_pages s' = visited_pages s) _ _ _ _ _ _ E).
  - auto.
  - intros s1 s2 s3 [H1 H2] [H3 H4]. split; congruence.
  - intros path c s r' s'. unfold write_file.
    destruct (file_write_ok w (requests_log s) path); intros [= <- <-]; auto.
Qed.

End InternalLinks.

(* ===================================================================== *)
(** * The summary and the start of a run *)
(* ===================================================================== *)

Lemma app_inv_head_s (a x y : string) : a +:+ x = a +:+ y → x = y.
Proof.
  induction a as [|c a IH]; [auto|]. rewrite !app_cons_s. intros [= H]. auto.
Qed.

Lemma endswith_app_css (x : string) : endswith (x +:+ "css") "/" = false.
Proof.
  induction x as [|a x IH]; [reflexivity|]. rewrite app_cons_s.
  change (endswith (String a (x +:+ "css")) "/")
    with (String.eqb (String a (x +:+ "css")) "/" || endswith (x +:+ "css") "/").
  rewrite IH, orb_false_r. cbn [String.eqb].
  destruct (Ascii.eqb a "/"); [|reflexivity].
  destruct x; reflexivity.
Qed.

(** The summary and the file of inline styles are two files. *)
Lemma summary_path_distinct (out : string) :
  path_join out ["scrape_summary.json"] ≠ path_join out ["css"; "inline_styles.css"].
Proof.
  unfold path_join. cbn [fold_left]. unfold path_join2 at 1 3.
  cbn [startswith has_prefix Ascii.eqb Bool.eqb andb].
  assert (Hd : ∀ d, path_join2 (d +:+ "css") "inline_styles.css"
                    = d +:+ "css/inline_styles.css").
  { intros d. unfold path_join2. cbn [startswith has_prefix Ascii.eqb Bool.eqb andb].
    rewrite endswith_app_css, orb_false_r.
    destruct (d +:+ "css") as [|c s] eqn:E.
    - destruct d; discriminate E.
    - cbn [is_empty]. rewrite <- E, !app_assoc_s. reflexivity. }
  destruct (is_empty out || endswith out "/").
  - rewrite Hd. intros H%app_inv_head_s. discriminate H.
  - rewrite <- (app_assoc_s out "/" "css"), Hd, !app_assoc_s.
    intros H%app_inv_head_s. discriminate H.
Qed.

Section Summary.
Variable w : world.

(** What [_save_summary] leaves when it succeeds. *)
Lemma save_summary_outcome (st st' : cloner) :
  _save_summary w st = (Ok (), st') →
  make_summary st' = make_summary st ∧
  inline_styles st' = inline_styles st ∧
  output_dir st' = output_dir st ∧
  files st' !! path_join (output_dir st) ["scrape_summary.json"]
    = Some (Json (make_summary st)) ∧
  (inline_styles st ≠ [] →
   files st' !! path_join (output_dir st) ["css"; "inline_styles.css"]
     = Some (Data (join inline_separator (inline_styles st)))).
Proof.
  unfold _save_summary. intros H.
  apply bind_inv in H as [(sm & s1 & [= <- <-] & H)|(e & _ & [=])].
  apply bind_inv in H as [(out & s1 & [= <- <-] & H)|(e & _ & [=])].
  apply bind_inv in H as [([] & s1 & Hw & H)|(e & _ & [=])].
  apply write_file_inv in Hw as [-> _].
  apply bind_inv in H as [(styles & s2 & [= <- <-] & H)|(e & _ & [=])].
  cbn [inline_styles set_files] in H.
  destruct (inline_styles st) as [|x xs] eqn:Es.
  - injection H as <-. cbn. rewrite Es.
    repeat split; [apply lookup_insert_eq|]. intros []. reflexivity.
  - apply write_file_inv in H as [-> _]. cbn. rewrite Es.
    repeat split.
    + rewrite lookup_insert_ne by (apply not_eq_sym, summary_path_distinct).
      apply lookup_insert_eq.
    + intros _. apply lookup_insert_eq.
Qed.

(** X18. When [scrape_full_site] ends without exception, the file
    [scrape_summary.json] holds the summary of the final object: its
    counts are the lengths of its lists, which have no duplicates and
    are those of the final sets; and when some inline style has been
    collected, [css/inline_styles.css] holds all of them, joined by the
    separator, in the order of collection. *)
Theorem summary_describes_final_state (self : cloner) (fuel : nat)
    (max_pages : Z) (self' : cloner) :
  scrape_full_site w fuel max_pages self = Some (Ok (), self') →
  let s := make_summary self' in
  files self' !! path_join (output_dir self) ["scrape_summary.json"] = Some (Json s) ∧
  sum_base_url s = base_url self ∧
  sum_pages_scraped s = length (sum_visited_pages s) ∧
  NoDup (sum_visited_pages s) ∧
  (∀ u, u ∈ sum_visited_pages s ↔ u ∈ visited_pages self') ∧
  sum_inline_styles_count s = length (inline_styles self') ∧
  (inline_styles self' ≠ [] →
   files self' !! path_join (output_dir self) ["css"; "inline_styles.css"]
     = Some (Data (join inline_separator (inline_styles self')))).
Proof.
  intros H. cbv zeta. unfold scrape_full_site in H.
  destruct (crawl w fuel max_pages {[base_url self]} self)
    as [[[[]|e] s1]|] eqn:Hc; try discriminate.
  injection H as H.
  destruct (crawl_result_inv w self _ _ _ _ _ _ Hc (crawl_inv_start w self))
    as (Hb & _).
  assert (Ho : output_dir s1 = output_dir self).
  { exact (wt_out _ _ (tree_crawl w _ _ _ _ _ _ Hc)). }
  destruct (save_summary_outcome s1 self' H) as (Hs & Hi & _ & Hf & Hcss).
  pose proof (fr_base_url _ _ _ (keeps_save_summary w _ _ _ H)) as Hb'.
  rewrite <- Hs, Ho in Hf. rewrite <- Hi, Ho in Hcss.
  split; [exact Hf|]. unfold make_summary.
  cbn [sum_base_url sum_pages_scraped sum_visited_pages sum_inline_styles_count].
  split; [congruence|]. split; [reflexivity|]. split; [apply NoDup_elements|].
  split; [intros u; apply elem_of_elements|].
  split; [reflexivity|exact Hcss].
Qed.

(** The requests of a run are added at the end of the list. *)
Lemma log_extends_refl (s : cloner) : log_extends s s.
Proof. exists []. by rewrite app_nil_r. Qed.

Lemma log_extends_trans (s1 s2 s3 : cloner) :
  log_extends s1 s2 → log_extends s2 s3 → log_extends s1 s3.
Proof.
  intros [l1 H1] [l2 H2]. exists (l1 ++ l2). rewrite H2, H1, app_assoc. reflexivity.
Qed.

Lemma log_requests_get k url : within log_extends (requests_get w k url).
Proof.
  intros st r st' H. apply requests_get_inv in H as [-> _]. eexists. reflexivity.
Qed.

Lemma log_write_file path c : within log_extends (write_file w path c).
Proof.
  intros st r st'. unfold write_file.
  destruct (file_write_ok w (requests_log st) path); intros [= <- <-];
    exists []; cbn; by rewrite app_nil_r.
Qed.

Lemma log_modify (f : cloner → cloner) :
  (∀ s, requests_log (f s) = requests_log s) → within log_extends (modify f).
Proof. intros Hf st r st' [= <- <-]. exists []. by rewrite Hf, app_nil_r. Qed.

Lemma log_crawl fuel max_pages todo st r st' :
  crawl w fuel max_pages todo st = Some (r, st') → log_extends st st'.
Proof.
  apply (within_crawl w log_extends log_extends_refl log_extends_trans).
  - apply (leaves_download_image w log_extends log_extends_refl log_extends_trans
             log_requests_get log_write_file).
    intros f. apply log_modify. reflexivity.
  - apply (leaves_download_css w log_extends log_extends_refl log_extends_trans
             log_requests_get log_write_file);
      intros; apply log_modify; reflexivity.
  - apply (leaves_download_js w log_extends log_extends_refl log_extends_trans
             log_requests_get log_write_file).
    intros f. apply log_modify. reflexivity.
  - apply (leaves_process_css w log_extends log_extends_refl log_extends_trans
             log_requests_get log_write_file).
    intros f. apply log_modify. reflexivity.
  - apply (leaves_save_page w log_extends log_extends_refl log_extends_trans
             log_write_file).
  - intros sp. apply log_modify. reflexivity.
  - intros u. apply log_requests_get.
  - intros u. apply log_modify. reflexivity.
Qed.

(** X19. A run that may visit a page begins with the request of the
    start URL, [base_url], as a page; everything else is requested
    after it. *)
Theorem crawl_starts_at_base_url (self : cloner) (fuel : nat) (max_pages : Z)
    (r : result unit) (self' : cloner) :
  scrape_full_site w fuel max_pages self = Some (r, self') →
  base_url self ∉ visited_pages self →
  (Z.of_nat (size (visited_pages self)) < max_pages)%Z →
  ∃ l, requests_log self' = requests_log self ++ (Page, base_url self) :: l.
Proof.
  intros H Hv Hlt.
  assert (Hsum : ∀ s r' s', _save_summary w s = (r', s') → log_extends s s').
  { apply (leaves_save_summary w log_extends log_extends_refl log_extends_trans
             log_write_file). }
  assert (∃ r1 s1, crawl w fuel max_pages {[base_url self]} self = Some (r1, s1) ∧
                   log_extends s1 self') as (r1 & s1 & Hc & Hl1).
  { unfold scrape_full_site in H.
    destruct (crawl w fuel max_pages {[base_url self]} self)
      as [[[[]|e] s1]|] eqn:Hc; try discriminate.
    - injection H as H. eexists _, s1. split; [reflexivity|]. eapply Hsum, H.
    - injection H as <- <-. eexists _, s1. split; [reflexivity|].
      apply log_extends_refl. }
  assert (Hturn : ∃ sa, log_extends (visit (base_url self) self) sa ∧
            match crawl_turn w max_pages {[base_url self]} self with
            | Stop _ sb | Next _ sb => sb = sa
            end).
  { unfold crawl_turn. rewrite set_pop_singleton.
    apply Z.ltb_lt in Hlt. rewrite Hlt. cbn [negb].
    rewrite (bool_decide_eq_false_2 _ Hv).
    destruct (http_get w (requests_log self) (base_url self)) as [body|] eqn:Hg.
    - destruct (parser_ok w body) eqn:Hp.
      2:{ rewrite (scrape_page_rejected w _ true self body Hv Hg Hp).
          eexists. split; [|reflexivity]. exists []. by rewrite app_nil_r. }
      destruct (scrape_page_fetched w _ true self body Hv Hg Hp)
        as (o & sa & Hs & [_ _ _ _ _ _ _ (l & fl & _)] & _).
      rewrite Hs. exists sa. split; [exists l; exact fl|].
      destruct o as [sp|]; [|reflexivity].
      destruct (find_internal_links w sa sp (base_url self)); reflexivity.
    - rewrite (scrape_page_fetch_failed w _ true self Hv Hg).
      eexists. split; [|reflexivity]. exists []. by rewrite app_nil_r. }
  destruct Hturn as (sa & [la Hla] & Hturn).
  assert (log_extends sa s1) as [lb Hlb].
  { destruct fuel as [|fuel]; cbn [crawl] in Hc;
      destruct (crawl_turn w max_pages {[base_url self]} self) as [r2 sb|todo sb];
      subst sb; try discriminate.
    - injection Hc as _ <-. apply log_extends_refl.
    - injection Hc as _ <-. apply log_extends_refl.
    - eapply log_crawl, Hc. }
  destruct Hl1 as [lc Hlc].
  exists (la ++ lb ++ lc). rewrite Hlc, Hlb, Hla. cbn.
  rewrite <- !app_assoc. reflexivity.
Qed.

(** X20. The constructor keeps the base URL without its trailing
    slashes and takes the domain from the URL as given; the object
    starts with nothing visited, downloaded or written. *)
Theorem new_cloner_strips_trailing_slashes (b out : string) (self : cloner) :
  new_cloner w b out = Ok self →
  endswith (base_url self) "/" = false ∧
  (∃ t, b = base_url self +:+ t ∧ forallb (is_char "/") t = true) ∧
  (∃ p, url_parse w b = Ok p ∧ domain self = netloc p) ∧
  output_dir self = out ∧
  visited_pages self = ∅ ∧ downloaded_images self = ∅ ∧
  downloaded_css self = ∅ ∧ downloaded_js self = ∅ ∧
  inline_styles self = [] ∧ files self = ∅ ∧ requests_log self = [].
Proof.
  intros H. destruct (new_cloner_inv w _ _ _ H) as (p & Hp & -> & _). cbn.
  split; [apply rstrip_not_endswith|]. split; [|eauto 12].
  clear. induction b as [|a b IH]; [exists ""; split; reflexivity|].
  cbn [rstrip]. destruct IH as (t & Ht & Hall).
  destruct (is_empty (rstrip (is_char "/") b) && is_char "/" a) eqn:E.
  - apply andb_true_iff in E as [E1 E2]. apply is_empty_true in E1.
    rewrite E1 in Ht. rewrite app_nil_l_s in Ht. subst t.
    exists (String a b). split; [reflexivity|]. cbn [forallb].
    rewrite E2, Hall. reflexivity.
  - exists t. rewrite app_cons_s, <- Ht. auto.
Qed.

End Summary.

(* ===================================================================== *)
(** * A fragment does not count *)
(* ===================================================================== *)

Lemma lstrip_app_stop (p : ascii → bool) (s x : string) :
  stops p x → lstrip p (s +:+ x) = lstrip p s +:+ x.
Proof.
  intros Hx. induction s as [|a s IH].
  - rewrite app_nil_l_s. apply lstrip_stops. destruct x; [exact I|exact Hx].
  - rewrite app_cons_s. cbn [lstrip]. destruct (p a); [exact IH|reflexivity].
Qed.

Lemma partition_app_some (c : ascii) (s l r x : string) :
  partition c s = Some (l, r) → partition c (s +:+ x) = Some (l, r +:+ x).
Proof.
  revert l. induction s as [|a s IH]; intros l; [discriminate|].
  rewrite app_cons_s. cbn [partition]. destruct (Ascii.eqb a c).
  - intros [= <- <-]. reflexivity.
  - destruct (partition c s) as [[l' r']|]; [|discriminate].
    intros [= <- <-]. rewrite (IH l' eq_refl). reflexivity.
Qed.

(** When [c] first occurs in what follows [s], the text before it begins
    with [s]. *)
Lemma partition_app_none (c : ascii) (s x : string) :
  partition c s = None →
  partition c (s +:+ x) =
    match partition c x with
    | Some (l, r) => Some (s +:+ l, r)
    | None => None
    end.
Proof.
  induction s as [|a s IH]; intros H.
  - rewrite app_nil_l_s. destruct (partition c x) as [[l r]|]; reflexivity.
  - rewrite app_cons_s. cbn [partition] in *. destruct (Ascii.eqb a c); [discriminate|].
    destruct (partition c s) as [[]|]; [discriminate|]. rewrite (IH eq_refl).
    destruct (partition c x) as [[l r]|]; reflexivity.
Qed.

Lemma has_prefix_app_stop (p u x : string) (c : ascii) :
  contains_char p c = false →
  has_prefix p (u +:+ String c x) = has_prefix p u.
Proof.
  revert u. induction p as [|a p IH]; intros u Hp; [reflexivity|].
  cbn [contains_char] in Hp. apply orb_false_iff in Hp as [Ha Hp].
  destruct u as [|b u].
  - rewrite app_nil_l_s. cbn [has_prefix]. rewrite Ha. reflexivity.
  - rewrite app_cons_s. cbn [has_prefix]. rewrite (IH u Hp). reflexivity.
Qed.

Lemma span_app_stop (p : ascii → bool) (s x : string) :
  stops p x →
  span p (s +:+ x) = (fst (span p s), snd (span p s) +:+ x).
Proof.
  intros Hx. induction s as [|a s IH].
  - rewrite app_nil_l_s. destruct x as [|c x]; [reflexivity|].
    cbn [span]. cbn in Hx. rewrite Hx. reflexivity.
  - rewrite app_cons_s. cbn [span]. destruct (p a); [|reflexivity].
    rewrite IH. destruct (span p s) as [l r]. reflexivity.
Qed.

Lemma is_empty_app_hash (u g : string) : is_empty (u +:+ String "#" g) = false.
Proof. destruct u; reflexivity. Qed.

(** ** [urlsplit] *)

Lemma split_scheme_fragment (u g d : string) :
  split_scheme (u +:+ String "#" g) d =
    (fst (split_scheme u d), snd (split_scheme u d) +:+ String "#" g).
Proof.
  unfold split_scheme. destruct (partition ":" u) as [[pre rest]|] eqn:Hp.
  - rewrite (partition_app_some _ _ _ _ (String "#" g) Hp).
    destruct pre as [|c0 pre]; [reflexivity|].
    destruct (is_alpha c0 && forallb scheme_char (String c0 pre)); reflexivity.
  - rewrite (partition_app_none _ _ (String "#" g) Hp).
    destruct (partition ":" (String "#" g)) as [[l r]|] eqn:Hx; [|reflexivity].
    cbn [partition] in Hx. change (Ascii.eqb "#" ":") with false in Hx.
    destruct (partition ":" g) as [[l' r']|]; [|discriminate].
    injection Hx as <- <-.
    destruct (u +:+ String "#" l') as [|c0 pre] eqn:E; [reflexivity|].
    replace (forallb scheme_char (String c0 pre)) with false;
      [rewrite andb_false_r; reflexivity|].
    rewrite <- E, forallb_app_s. cbn [forallb].
    change (scheme_char "#") with false. rewrite andb_false_r. reflexivity.
Qed.

Lemma split_netloc_fragment (host_ok : string → bool) (u g : string) :
  split_netloc host_ok (u +:+ String "#" g) =
    (let? nu := split_netloc host_ok u in
     Ok (fst nu, snd nu +:+ String "#" g)).
Proof.
  unfold split_netloc. rewrite has_prefix_app_stop by reflexivity.
  destruct (has_prefix "//" u) eqn:Hp; [|reflexivity].
  apply has_prefix_spec in Hp as [t ->]. unfold _splitnetloc.
  rewrite app_assoc_s.
  change (drop 2 ("//" +:+ t +:+ String "#" g)) with (t +:+ String "#" g).
  change (drop 2 ("//" +:+ t)) with t.
  rewrite span_app_stop by reflexivity.
  destruct (span netloc_char t) as [nl r]. cbn [fst snd].
  destruct (netloc_check host_ok nl) as [[]|e]; reflexivity.
Qed.

Lemma split_tail_fragment (sch nl u g : string) :
  ss_scheme (split_tail sch nl (u +:+ String "#" g)) = ss_scheme (split_tail sch nl u) ∧
  ss_netloc (split_tail sch nl (u +:+ String "#" g)) = ss_netloc (split_tail sch nl u) ∧
  ss_path (split_tail sch nl (u +:+ String "#" g)) = ss_path (split_tail sch nl u) ∧
  ss_query (split_tail sch nl (u +:+ String "#" g)) = ss_query (split_tail sch nl u).
Proof.
  unfold split_tail. destruct (partition "#" u) as [[a fr]|] eqn:Hp.
  - rewrite (partition_app_some _ _ _ _ (String "#" g) Hp).
    destruct (partition "?" a) as [[p q]|]; repeat split.
  - rewrite (partition_app "#" u g (partition_none_inv _ _ Hp)).
    destruct (partition "?" u) as [[p q]|]; repeat split.
Qed.

(** ** [urlparse] *)

Lemma urlparse_fragment (host_ok : string → bool) (u g d : string) :
  same_but_fragment (urlparse host_ok u d) (urlparse host_ok (u +:+ String "#" g) d).
Proof.
  unfold urlparse. rewrite !urlsplit_steps.
  rewrite lstrip_app_stop by reflexivity.
  rewrite remove_unsafe_app, remove_unsafe_cons by reflexivity.
  set (u1 := remove_unsafe (lstrip c0_control_or_space u)).
  set (d1 := remove_unsafe (strip c0_control_or_space d)).
  set (g1 := remove_unsafe g).
  rewrite split_scheme_fragment.
  destruct (split_scheme u1 d1) as [sch u2]. cbn [fst snd].
  rewrite split_netloc_fragment.
  destruct (split_netloc host_ok u2) as [[nl u3]|e]; [|reflexivity].
  cbn [rbind fst snd].
  destruct (split_tail_fragment sch nl u3 g1) as (E1 & E2 & E3 & E4).
  rewrite E1, E3. unfold same_but_fragment.
  destruct (in_list _ _ && _); [destruct (_splitparams _)|];
    unfold replace_fragment; cbn [scheme netloc path params query];
    rewrite E2, E4; reflexivity.
Qed.

Lemma same_but_fragment_sym r r' : same_but_fragment r r' → same_but_fragment r' r.
Proof. destruct r, r'; cbn; auto. Qed.

Lemma same_but_fragment_trans r1 r2 r3 :
  same_but_fragment r1 r2 → same_but_fragment r2 r3 → same_but_fragment r1 r3.
Proof. destruct r1, r2, r3; cbn; try tauto; congruence. Qed.

Lemma same_but_fragment_refl r : same_but_fragment r r.
Proof. destruct r; reflexivity. Qed.

Lemma urlparse_same_core (host_ok : string → bool) (j j' d : string) :
  same_before_fragment j j' →
  same_but_fragment (urlparse host_ok j d) (urlparse host_ok j' d).
Proof.
  intros (core & t & t' & -> & -> & Ht & Ht').
  assert (H : ∀ x, stops (fun c => negb (Ascii.eqb c "#")) x →
            same_but_fragment (urlparse host_ok core d)
                              (urlparse host_ok (core +:+ x) d)).
  { intros [|c x] Hx.
    - rewrite app_nil_r_s. apply same_but_fragment_refl.
    - cbn in Hx. apply negb_false_iff, Ascii.eqb_eq in Hx. subst c.
      apply urlparse_fragment. }
  eapply same_but_fragment_trans; [apply same_but_fragment_sym, H, Ht|apply H, Ht'].
Qed.

(** ** [urlunparse] and [urljoin] *)

Lemma urlunparse_fragment (s nl pa pr qu fr : string) :
  urlunparse (mkParse s nl pa pr qu fr) =
    urlunparse (mkParse s nl pa pr qu "")
    +:+ (if is_empty fr then "" else String "#" fr).
Proof.
  unfold urlunparse, urlunsplit. cbn [scheme netloc path params query fragment].
  destruct fr as [|c fr]; cbn [is_empty negb]; [by rewrite app_nil_r_s|].
  reflexivity.
Qed.

Lemma urlunparse_same_core (s nl pa pr qu fr fr' : string) :
  same_before_fragment (urlunparse (mkParse s nl pa pr qu fr))
                       (urlunparse (mkParse s nl pa pr qu fr')).
Proof.
  exists (urlunparse (mkParse s nl pa pr qu "")),
         (if is_empty fr then "" else String "#" fr),
         (if is_empty fr' then "" else String "#" fr').
  split; [apply urlunparse_fragment|]. split; [apply urlunparse_fragment|].
  split; [destruct fr|destruct fr']; reflexivity.
Qed.

Lemma urljoin_fragment (host_ok : string → bool) (b u g : string) :
  u ≠ "" →
  match urljoin host_ok b u, urljoin host_ok b (u +:+ String "#" g) with
  | Ok j, Ok j' => same_before_fragment j j'
  | Raise e, Raise e' => e = e'
  | _, _ => False
  end.
Proof.
  intros Hu. apply is_empty_false in Hu.
  assert (Hraw : same_before_fragment u (u +:+ String "#" g)).
  { exists u, "", (String "#" g). rewrite app_nil_r_s. repeat split. }
  unfold urljoin. rewrite is_empty_app_hash, Hu.
  destruct (is_empty b); [exact Hraw|].
  destruct (urlparse host_ok b "") as [pb|e]; [|reflexivity]. cbn [rbind].
  pose proof (urlparse_fragment host_ok u g (scheme pb)) as Hp.
  destruct (urlparse host_ok u (scheme pb)) as [[s nl pa pr qu fr]|e],
           (urlparse host_ok (u +:+ String "#" g) (scheme pb))
             as [[s' nl' pa' pr' qu' fr']|e'];
    cbn in Hp; try contradiction; [|exact Hp].
  injection Hp as <- <- <- <- <-. cbn [rbind scheme netloc path params query fragment].
  repeat match goal with
         | |- context [if ?c then _ else _] => destruct c
         end;
    first [ exact Hraw | apply urlunparse_same_core ].
Qed.

(** X21. A fragment does not count: a URL followed by [#] and any text
    is normalized as the URL itself, whatever the base (the URL is not
    empty: on the empty text [_normalize_url] returns the empty text,
    while [#top] alone names the base page). *)
Theorem fragment_does_not_count (w : world) (self : cloner) (u g : string)
    (base : option string) :
  u ≠ "" →
  _normalize_url w self (u +:+ String "#" g) base = _normalize_url w self u base.
Proof.
  intros Hu. unfold _normalize_url. rewrite is_empty_app_hash.
  unfold startswith. rewrite !has_prefix_app_stop by reflexivity.
  fold (startswith u "data:") (startswith u "javascript:").
  pose proof (proj2 (is_empty_false u) Hu) as He. rewrite He. cbn [orb].
  destruct (startswith u "data:" || startswith u "javascript:"); [reflexivity|].
  fold (effective_base self base).
  pose proof (urljoin_fragment (bracketed_host_ok w) (effective_base self base) u g Hu)
    as Hj.
  destruct (urljoin (bracketed_host_ok w) (effective_base self base) u) as [j|e],
           (urljoin (bracketed_host_ok w) (effective_base self base)
              (u +:+ String "#" g)) as [j'|e'];
    try contradiction; [|by subst].
  cbn [rbind]. unfold url_parse.
  pose proof (urlparse_same_core (bracketed_host_ok w) j j' "" Hj) as Hp.
  destruct (urlparse (bracketed_host_ok w) j "") as [p|e],
           (urlparse (bracketed_host_ok w) j' "") as [p'|e'];
    cbn in Hp; try contradiction; cbn [rbind]; congruence.
Qed.

Lemma fragment_does_not_count_witness :
  _normalize_url offline (cloner_for offline "https://example.com/" "output")
    ("../a/b.html?x=1" +:+ String "#" "section-2")
    (Some "https://example.com/docs/index.html")
  = _normalize_url offline (cloner_for offline "https://example.com/" "output")
      "../a/b.html?x=1" (Some "https://example.com/docs/index.html").
Proof. apply fragment_does_not_count. discriminate. Defined.

(* ===================================================================== *)
(** * Nothing is forgotten *)
(* ===================================================================== *)

Lemma only_adds_refl (s : cloner) : only_adds s s.
Proof.
  split; try reflexivity; auto; exists []; by rewrite app_nil_r.
Qed.

Lemma only_adds_trans (s1 s2 s3 : cloner) :
  only_adds s1 s2 → only_adds s2 s3 → only_adds s1 s3.
Proof.
  intros [b1 d1 o1 v1 i1 c1 j1 r1 (ls1 & y1) f1 (l1 & g1)]
         [b2 d2 o2 v2 i2 c2 j2 r2 (ls2 & y2) f2 (l2 & g2)].
  split; try congruence; try (etrans; eassumption); auto.
  - exists (ls1 ++ ls2). rewrite y2, y1, app_assoc. reflexivity.
  - exists (l1 ++ l2). rewrite g2, g1, app_assoc. reflexivity.
Qed.

Section OnlyAdds.
Variable w : world.

Lemma oa_requests_get k url : within only_adds (requests_get w k url).
Proof.
  intros st r st' H. apply requests_get_inv in H as [-> _].
  split; try reflexivity; auto; [exists []; by rewrite app_nil_r|].
  eexists. reflexivity.
Qed.

Lemma oa_write_file path c : within only_adds (write_file w path c).
Proof.
  intros st r st'. unfold write_file.
  destruct (file_write_ok w (requests_log st) path); intros [= <- <-];
    [|apply only_adds_refl].
  split; try reflexivity; auto; try (exists []; by rewrite app_nil_r).
  cbn. apply insert_keeps_files.
Qed.

Lemma oa_add_image url :
  within only_adds (modify (set_downloaded_images (fun s => s ∪ {[url]}))).
Proof.
  intros st r st' [= <- <-].
  split; try reflexivity; auto; try (exists []; by rewrite app_nil_r).
  cbn. apply union_subseteq_l.
Qed.

Lemma oa_add_css url :
  within only_adds (modify (set_downloaded_css (fun s => s ∪ {[url]}))).
Proof.
  intros st r st' [= <- <-].
  split; try reflexivity; auto; try (exists []; by rewrite app_nil_r).
  cbn. apply union_subseteq_l.
Qed.

Lemma oa_add_js url :
  within only_adds (modify (set_downloaded_js (fun s => s ∪ {[url]}))).
Proof.
  intros st r st' [= <- <-].
  split; try reflexivity; auto; try (exists []; by rewrite app_nil_r).
  cbn. apply union_subseteq_l.
Qed.

Lemma oa_add_visited url :
  within only_adds (modify (set_visited_pages (fun s => s ∪ {[url]}))).
Proof.
  intros st r st' [= <- <-].
  split; try reflexivity; auto; try (exists []; by rewrite app_nil_r).
  cbn. apply union_subseteq_l.
Qed.

Lemma oa_add_rules url l :
  within only_adds (modify (set_all_css_rules (insert url l))).
Proof.
  intros st r st' [= <- <-].
  split; try reflexivity; auto; try (exists []; by rewrite app_nil_r).
  cbn. intros u H. destruct (decide (url = u)) as [<-|Hne].
  - rewrite lookup_insert_eq. eauto.
  - rewrite lookup_insert_ne by exact Hne. exact H.
Qed.

Lemma oa_extract sp : within only_adds (extract_inline_css sp).
Proof.
  intros st r st' [= <- <-].
  split; try reflexivity; auto; try (exists []; by rewrite app_nil_r).
  eexists. reflexivity.
Qed.

(** X22. [scrape_full_site] forgets nothing: when it ends, with or
    without exception, the configuration is unchanged, every page that
    was visited and every URL that was downloaded before the run still
    is, no file and no entry of [all_css_rules] has been removed, and
    the inline styles and the requests made before the run begin those
    of the final object.  A second run on the same object therefore
    starts from what the first one left. *)
Theorem scrape_full_site_only_adds (fuel : nat) (max_pages : Z) (st : cloner)
    (r : result unit) (st' : cloner) :
  scrape_full_site w fuel max_pages st = Some (r, st') → only_adds st st'.
Proof.
  apply (within_scrape_full_site w only_adds only_adds_refl only_adds_trans).
  - exact (leaves_download_image w only_adds only_adds_refl only_adds_trans
             oa_requests_get oa_write_file oa_add_image).
  - exact (leaves_download_css w only_adds only_adds_refl only_adds_trans
             oa_requests_get oa_write_file oa_add_image oa_add_css oa_add_rules).
  - exact (leaves_download_js w only_adds only_adds_refl only_adds_trans
             oa_requests_get oa_write_file oa_add_js).
  - exact (leaves_process_css w only_adds only_adds_refl only_adds_trans
             oa_requests_get oa_write_file oa_add_image).
  - exact (leaves_save_page w only_adds only_adds_refl only_adds_trans oa_write_file).
  - exact oa_extract.
  - intros u. apply oa_requests_get.
  - exact oa_add_visited.
  - exact (leaves_save_summary w only_adds only_adds_refl only_adds_trans
             oa_write_file).
Qed.

(** X23. A page that [scrape_page] has returned is not fetched again.
    Its URL is in [visited_pages]; in any later state of the object
    (one that has only added to it, as every run does), a call of
    [scrape_page] for that URL returns [None] at once, and a turn of the
    crawl that takes the URL from the frontier ends the loop at the cap
    or drops the URL, each time without any request or change. *)
Theorem fetched_page_is_not_fetched_again (url : string) (b b' : bool)
    (st : cloner) (sp : soup) (st' : cloner) :
  scrape_page w url b st = (Ok (Some sp), st') →
  url ∈ visited_pages st' ∧
  ∀ st2, only_adds st' st2 →
    scrape_page w url b' st2 = (Ok None, st2) ∧
    ∀ max_pages todo,
      set_pop w (requests_log st2) todo = Some url →
      crawl_turn w max_pages todo st2 = Stop (Ok ()) st2 ∨
      crawl_turn w max_pages todo st2 = Next (todo ∖ {[url]}) st2.
Proof.
  intros H.
  assert (Hin : url ∈ visited_pages st').
  { destruct (scrape_page_outcome w url b st _ st' H)
      as [(_ & [=] & _)|[(_ & [=] & _)|(_ & body & r1 & _ & _ & Ha & _)]].
    rewrite (fr_visited _ _ _ (keeps_after_visit w url b _ _ _ _ Ha)). cbn.
    apply elem_of_union. right. by apply elem_of_singleton. }
  split; [exact Hin|]. intros st2 Hadd.
  assert (Hin2 : url ∈ visited_pages st2) by (apply (oa_visited _ _ Hadd), Hin).
  split; [apply scrape_page_seen, Hin2|].
  intros max_pages todo Hpop. unfold crawl_turn. rewrite Hpop.
  destruct (negb _); [by left|]. right.
  rewrite (bool_decide_eq_true_2 _ Hin2). reflexivity.
Qed.

End OnlyAdds.

(* ===================================================================== *)
(** * Normalized URLs are absolute *)
(* ===================================================================== *)

(** The URL that [urljoin] returns for a base with a scheme of
    [uses_relative] is parsed with a scheme. *)
Lemma urljoin_has_scheme (host_ok : string → bool) (b url j : string)
    (pb q : ParseResult) :
  urlparse host_ok b "" = Ok pb →
  scheme pb ≠ "" →
  in_list (scheme pb) uses_relative = true →
  url ≠ "" →
  urljoin host_ok b url = Ok j →
  urlparse host_ok j "" = Ok q →
  valid_scheme (scheme q).
Proof.
  intros Hb Hs Hrel Hu Hj Hq.
  assert (Hvb : valid_scheme (scheme pb)).
  { destruct (urlparse_scheme_cases host_ok b pb Hb); [contradiction|assumption]. }
  assert (Hne : scheme q ≠ "" → valid_scheme (scheme q)).
  { intros H. destruct (urlparse_scheme_cases host_ok j q Hq); [contradiction|assumption]. }
  assert (Hbuilt : ∀ nl pa pr qu fr,
            j = urlunparse (mkParse (scheme pb) nl pa pr qu fr) → scheme q = scheme pb).
  { intros nl pa pr qu fr ->.
    destruct (urlunparse_scheme_text (scheme pb) nl pa pr qu fr Hs) as [rest E].
    rewrite E in Hq. apply (urlparse_of_scheme_text host_ok _ rest "" q Hvb Hq). }
  unfold urljoin in Hj.
  destruct (is_empty b) eqn:Eb.
  { apply is_empty_true in Eb. subst b. vm_compute in Hb. injection Hb as <-.
    contradiction Hs. reflexivity. }
  apply is_empty_false in Hu. rewrite Hu, Hb in Hj. cbn [rbind] in Hj.
  destruct (urlparse host_ok url (scheme pb)) as [[su nl pa pr qu fr]|e] eqn:Eu;
    [|discriminate].
  cbn [rbind scheme netloc path params query fragment] in Hj.
  destruct (String.eqb su (scheme pb)) eqn:Es; cbn [negb orb] in Hj.
  - apply String.eqb_eq in Es. subst su. rewrite Hrel in Hj. cbn [negb] in Hj.
    apply Hne.
    repeat match type of Hj with
           | (if ?c then _ else _) = _ => destruct c
           end;
      injection Hj as Hj; symmetry in Hj; rewrite (Hbuilt _ _ _ _ _ Hj); exact Hs.
  - injection Hj as <-. apply Hne. intros H0.
    apply String.eqb_neq in Es. apply Es.
    rewrite <- (clean_scheme (scheme pb) (or_intror Hvb)).
    exact (urlparse_scheme_default host_ok url (scheme pb) _ q Eu Hq H0).
Qed.

(** X24. [_normalize_url] makes the URL absolute: when the base has a
    scheme in which relative references are resolved ([http], [https],
    ...), a non-empty result is a scheme, a colon and the rest. *)
Theorem normalized_url_is_absolute (w : world) (self : cloner) (url : string)
    (base : option string) (v : string) (pb : ParseResult) :
  _normalize_url w self url base = Ok v →
  v ≠ "" →
  url_parse w (effective_base self base) = Ok pb →
  scheme pb ≠ "" →
  in_list (scheme pb) uses_relative = true →
  ∃ s rest, valid_scheme s ∧ v = s +:+ String ":" rest.
Proof.
  intros H Hv Hb Hs Hrel.
  destruct (normalize_resolved w self url base v H)
    as [->|(j & q & Hu & Hj & Hq & ->)]; [contradiction|].
  apply is_empty_false in Hu.
  pose proof (urljoin_has_scheme _ _ _ _ _ _ Hb Hs Hrel Hu Hj Hq) as Hvq.
  destruct q as [s nl pa pr qu fr]. cbn [scheme] in Hvq.
  assert (Hs0 : s ≠ "") by (destruct Hvq as (Ha & _); destruct s; [contradiction|discriminate]).
  destruct (urlunparse_scheme_text s nl pa pr qu "" Hs0) as [rest E].
  exists s, rest. split; [exact Hvq|exact E].
Qed.

Lemma scrape_full_site_only_adds_witness :
  ∃ st',
    scrape_full_site (stylesheet_scenario "PNG") 1 50
      (cloner_for (stylesheet_scenario "PNG") "https://example.test/" "output")
      = Some (Ok (), st') ∧
    only_adds
      (cloner_for (stylesheet_scenario "PNG") "https://example.test/" "output") st'.
Proof.
  eexists. split; [vm_compute; reflexivity|].
  apply (scrape_full_site_only_adds (stylesheet_scenario "PNG") 1 50%Z _ (Ok ())).
  vm_compute. reflexivity.
Defined.

Lemma fetched_page_is_not_fetched_again_witness :
  ∃ sp st',
    scrape_page broken_image_world "https://example.com" true
      (cloner_for broken_image_world "https://example.com/" "output")
      = (Ok (Some sp), st') ∧
    "https://example.com" ∈ visited_pages st' ∧
    scrape_page broken_image_world "https://example.com" false st' = (Ok None, st').
Proof.
  eexists _, _. split; [vm_compute; reflexivity|].
  edestruct (fetched_page_is_not_fetched_again broken_image_world
               "https://example.com" true false
               (cloner_for broken_image_world "https://example.com/" "output"))
    as [Hin Hlater].
  - vm_compute. reflexivity.
  - split; [exact Hin|]. exact (proj1 (Hlater _ (only_adds_refl _))).
Defined.

Lemma normalized_url_is_absolute_witness :
  ∃ s rest, valid_scheme s ∧ "https://cdn.example.net/lib.js" = s +:+ String ":" rest.
Proof.
  apply (normalized_url_is_absolute offline
           (cloner_for offline "https://example.com/" "output")
           "//cdn.example.net/lib.js#v2" (Some "https://example.com/docs/index.html")
           "https://cdn.example.net/lib.js"
           (mkParse "https" "example.com" "/docs/index.html" "" "" "")).
  - vm_compute. reflexivity.
  - discriminate.
  - vm_compute. reflexivity.
  - discriminate.
  - reflexivity.
Defined.

(* ===================================================================== *)
(** * The statements above, on the scenarios *)
(* ===================================================================== *)

Lemma files_stay_in_output_tree_witness :
  ∃ st',
    scrape_full_site (stylesheet_scenario "PNG") 1 50
      (cloner_for (stylesheet_scenario "PNG") "https://example.test/" "output")
      = Some (Ok (), st') ∧
    writes_in_tree
      (cloner_for (stylesheet_scenario "PNG") "https://example.test/" "output") st'.
Proof.
  eexists. split; [vm_compute; reflexivity|].
  apply (proj2 (files_stay_in_output_tree (stylesheet_scenario "PNG")
                  (cloner_for (stylesheet_scenario "PNG") "https://example.test/"
                     "output")) 1 50%Z (Ok ())).
  vm_compute. reflexivity.
Defined.

Lemma downloads_are_mirrored_witness :
  ∃ st',
    scrape_full_site (stylesheet_scenario "PNG") 1 50
      (cloner_for (stylesheet_scenario "PNG") "https://example.test/" "output")
      = Some (Ok (), st') ∧
    mirrored (stylesheet_scenario "PNG") st'.
Proof.
  eexists. split; [vm_compute; reflexivity|].
  destruct (downloads_are_mirrored (stylesheet_scenario "PNG")) as (Hnew & _ & Hrun).
  apply (Hrun (cloner_for (stylesheet_scenario "PNG") "https://example.test/" "output")
           1 50%Z (Ok ())).
  - apply (Hnew "https://example.test/" "output"). vm_compute. reflexivity.
  - vm_compute. reflexivity.
Defined.

Lemma recorded_download_returns_its_file_witness :
  ∃ st',
    scrape_full_site (stylesheet_scenario "PNG") 1 50
      (cloner_for (stylesheet_scenario "PNG") "https://example.test/" "output")
      = Some (Ok (), st') ∧
    ∃ f,
      download_image (stylesheet_scenario "PNG") "https://example.test/img/bg.png" st'
        = (Ok f, st') ∧
      f ≠ "" ∧
      is_Some (files st' !! path_join (output_dir st') ["images"; f]).
Proof.
  eexists. split; [vm_compute; reflexivity|].
  apply (proj1 (recorded_download_returns_its_file (stylesheet_scenario "PNG") _
                  "https://example.test/img/bg.png"
                  (km_scrape_full_site (stylesheet_scenario "PNG") 1 50%Z
                     (cloner_for (stylesheet_scenario "PNG")
                        "https://example.test/" "output") (Ok ()) _
                     ltac:(vm_compute; reflexivity)
                     (new_cloner_mirrored (stylesheet_scenario "PNG")
                        "https://example.test/" "output" _
                        ltac:(vm_compute; reflexivity))))).
  apply (bool_decide_eq_true_1 _). vm_compute. reflexivity.
Defined.

Lemma page_styles_are_recorded_witness :
  ∃ r st',
    scrape_page styled_world "https://example.com" true
      (cloner_for styled_world "https://example.com/" "output") = (r, st') ∧
    "https://example.com" ∈ visited_pages st' ∧
    inline_styles st' = ["h1{color:red}"; "p{margin:0}"].
Proof.
  eexists _, _. split; [vm_compute; reflexivity|].
  edestruct (page_styles_are_recorded styled_world "https://example.com" true
               (cloner_for styled_world "https://example.com/" "output"))
    as (Hrec & _ & Hpage).
  - apply (bool_decide_eq_false_1 _). vm_compute. reflexivity.
  - vm_compute. reflexivity.
  - assert (Hin := Hpage _ eq_refl). split; [exact Hin|].
    destruct (Hrec Hin) as (body & Hg & _ & Hs).
    vm_compute in Hg. injection Hg as <-. exact Hs.
Defined.

Lemma returned_page_is_the_rewritten_page_witness :
  ∃ sp' st',
    scrape_page (stylesheet_scenario "PNG") "https://example.test" true
      (cloner_for (stylesheet_scenario "PNG") "https://example.test/" "output")
      = (Ok (Some sp'), st') ∧
    ∃ body,
      http_get (stylesheet_scenario "PNG") [] "https://example.test" = Some body ∧
      Forall2 rewritten (html_parser (stylesheet_scenario "PNG") body) sp' ∧
      (true = true →
       ∃ f, _get_filename_from_url (stylesheet_scenario "PNG")
              "https://example.test" "page_" = Ok f ∧
            files st' !! path_join "output" ["html"; f]
              = Some (Data (prettify (stylesheet_scenario "PNG") sp'))).
Proof.
  eexists _, _. split; [vm_compute; reflexivity|].
  apply (returned_page_is_the_rewritten_page (stylesheet_scenario "PNG")
           "https://example.test" true
           (cloner_for (stylesheet_scenario "PNG") "https://example.test/" "output")).
  vm_compute. reflexivity.
Defined.

Lemma scrape_page_marks_only_its_url_witness :
  ∃ r st',
    scrape_page broken_image_world "https://example.com" true
      (cloner_for broken_image_world "https://example.com/" "output") = (r, st') ∧
    (visited_pages st'
       = visited_pages (cloner_for broken_image_world "https://example.com/" "output") ∨
     (("https://example.com"
         ∉ visited_pages (cloner_for broken_image_world "https://example.com/" "output")) ∧
      visited_pages st'
        = visited_pages (cloner_for broken_image_world "https://example.com/" "output")
          ∪ {[ "https://example.com" ]} ∧
      ∃ body,
        http_get broken_image_world
          (requests_log (cloner_for broken_image_world "https://example.com/" "output"))
          "https://example.com" = Some body ∧
        parser_ok broken_image_world body = true)).
Proof.
  eexists _, _. split; [vm_compute; reflexivity|].
  apply (scrape_page_marks_only_its_url broken_image_world
           "https://example.com" true
           (cloner_for broken_image_world "https://example.com/" "output")
           (Ok (Some [img "logo.png"]))).
  vm_compute. reflexivity.
Defined.

Lemma internal_links_characterized_witness :
  "https://example.com/p1" ∈
    ({[ "https://example.com/p1"; "https://example.com/p2" ]} : gset string) ↔
  ∃ e href,
    e ∈ map anchor ["https://example.com/p1"; "https://example.com/p2"] ∧
    el_tag e = "a" ∧ el_get e "href" = Some href ∧
    _normalize_url two_level_world
      (cloner_for two_level_world "https://example.com/" "output")
      href (Some "https://example.com") = Ok "https://example.com/p1" ∧
    "https://example.com/p1" ≠ "" ∧
    _is_same_domain two_level_world
      (cloner_for two_level_world "https://example.com/" "output")
      "https://example.com/p1" = Ok true ∧
    any_ext_in non_html_exts (lower "https://example.com/p1") = false.
Proof.
  apply (internal_links_characterized two_level_world
           (cloner_for two_level_world "https://example.com/" "output")
           (map anchor ["https://example.com/p1"; "https://example.com/p2"])
           "https://example.com").
  vm_compute. reflexivity.
Defined.

Lemma unparsable_href_aborts_crawl_witness :
  ∃ ex' st1,
    scrape_full_site bad_href_world 5 50
      (cloner_for bad_href_world "https://example.com/" "output")
    = Some (Raise ex', st1).
Proof.
  assert (∃ st1,
            scrape_page bad_href_world "https://example.com" true
              (cloner_for bad_href_world "https://example.com/" "output")
            = (Ok (Some (map anchor ["/about"; "http://["])), st1)) as [st1 Hs].
  { eexists. vm_compute. reflexivity. }
  destruct (unparsable_href_aborts_crawl bad_href_world
              (cloner_for bad_href_world "https://example.com/" "output")
              5 50%Z (map anchor ["/about"; "http://["]) st1
              (anchor "http://[") "http://[" ValueError) as [ex' H].
  - apply (bool_decide_eq_false_1 _). vm_compute. reflexivity.
  - vm_compute. reflexivity.
  - exact Hs.
  - right. left.
  - reflexivity.
  - apply lookup_singleton_eq.
  - vm_compute in Hs. injection Hs as <-. vm_compute. reflexivity.
  - exists ex', st1. exact H.
Defined.

Lemma crawl_stays_on_site_witness :
  ∃ self',
    scrape_full_site two_level_world 4 50
      (cloner_for two_level_world "https://example.com/" "output")
      = Some (Ok (), self') ∧
    ("https://example.com/p3" = "https://example.com" ∨
     ("https://example.com/p3" ≠ "" ∧
      contains_char "https://example.com/p3" "#" = false ∧
      _is_same_domain two_level_world
        (cloner_for two_level_world "https://example.com/" "output")
        "https://example.com/p3" = Ok true ∧
      any_ext_in non_html_exts (lower "https://example.com/p3") = false)).
Proof.
  eexists. split; [vm_compute; reflexivity|].
  eapply (crawl_stays_on_site two_level_world
           (cloner_for two_level_world "https://example.com/" "output")
           4 50%Z (Ok ()) _ "https://example.com/p3").
  - vm_compute. reflexivity.
  - vm_compute. right. right. left.
  - intros H. vm_compute in H. by apply elem_of_nil in H.
Defined.

Lemma reached_cap_fetches_nothing_witness :
  scrape_full_site two_level_world 0 0
    (cloner_for two_level_world "https://example.com/" "output")
  = Some (_save_summary two_level_world
            (cloner_for two_level_world "https://example.com/" "output")) ∧
  requests_log (snd (_save_summary two_level_world
                       (cloner_for two_level_world "https://example.com/" "output")))
  = [] ∧
  visited_pages (snd (_save_summary two_level_world
                        (cloner_for two_level_world "https://example.com/" "output")))
  = ∅.
Proof.
  apply (reached_cap_fetches_nothing two_level_world
           (cloner_for two_level_world "https://example.com/" "output") 0 0%Z).
  vm_compute. discriminate.
Defined.

Lemma summary_describes_final_state_witness :
  ∃ self',
    scrape_full_site styled_world 1 50
      (cloner_for styled_world "https://example.com/" "output")
      = Some (Ok (), self') ∧
    let s := make_summary self' in
    files self' !! path_join "output" ["scrape_summary.json"] = Some (Json s) ∧
    sum_base_url s = "https://example.com" ∧
    sum_pages_scraped s = length (sum_visited_pages s) ∧
    NoDup (sum_visited_pages s) ∧
    (∀ u, u ∈ sum_visited_pages s ↔ u ∈ visited_pages self') ∧
    sum_inline_styles_count s = length (inline_styles self') ∧
    (inline_styles self' ≠ [] →
     files self' !! path_join "output" ["css"; "inline_styles.css"]
       = Some (Data (join inline_separator (inline_styles self')))).
Proof.
  eexists. split; [vm_compute; reflexivity|].
  apply (summary_describes_final_state styled_world
           (cloner_for styled_world "https://example.com/" "output") 1 50%Z).
  vm_compute. reflexivity.
Defined.

Lemma crawl_starts_at_base_url_witness :
  ∃ self',
    scrape_full_site two_level_world 4 50
      (cloner_for two_level_world "https://example.com/" "output")
      = Some (Ok (), self') ∧
    ∃ l, requests_log self' =
           requests_log (cloner_for two_level_world "https://example.com/" "output")
           ++ (Page, base_url (cloner_for two_level_world "https://example.com/"
                                 "output")) :: l.
Proof.
  eexists. split; [vm_compute; reflexivity|].
  apply (crawl_starts_at_base_url two_level_world
           (cloner_for two_level_world "https://example.com/" "output")
           4 50%Z (Ok ())).
  - vm_compute. reflexivity.
  - apply (bool_decide_eq_false_1 _). vm_compute. reflexivity.
  - vm_compute. reflexivity.
Defined.

Lemma new_cloner_strips_trailing_slashes_witness :
  ∃ self,
    new_cloner offline "https://example.com///" "output" = Ok self ∧
    endswith (base_url self) "/" = false ∧
    (∃ t, "https://example.com///" = base_url self +:+ t ∧
          forallb (is_char "/") t = true) ∧
    (∃ p, url_parse offline "https://example.com///" = Ok p ∧
          domain self = netloc p) ∧
    output_dir self = "output" ∧
    visited_pages self = ∅ ∧ downloaded_images self = ∅ ∧
    downloaded_css self = ∅ ∧ downloaded_js self = ∅ ∧
    inline_styles self = [] ∧ files self = ∅ ∧ requests_log self = [].
Proof.
  eexists. split; [vm_compute; reflexivity|].
  apply (new_cloner_strips_trailing_slashes offline "https://example.com///" "output").
  vm_compute. reflexivity.
Defined.

(* ===================================================================== *)
(** * The entry point *)
(* ===================================================================== *)

Lemma mkdirs_forallb (w : world) (ds : list string) :
  mkdirs w ds = if List.forallb (mkdir_ok w) ds then Ok () else Raise OSError.
Proof.
  induction ds as [|d ds IH]; [reflexivity|]. cbn [mkdirs List.forallb].
  destruct (mkdir_ok w d); [exact IH|reflexivity].
Qed.

(** X25. [main].  When one of the seven directories of the output tree
    cannot be made, the constructor raises [OSError] and nothing is
    requested.  Otherwise, whatever the network answers: the object is
    the cloner of [https://ox-fleetcare.com]; the run ends; it visits at
    most 50 pages; every page it requests is the start URL or a URL
    whose network location is [ox-fleetcare.com],
    [www.ox-fleetcare.com] or empty; it writes only inside the tree of
    [output], and what it records as downloaded is on the disk. *)
Theorem main_stays_within_bounds (w : world) :
  let self := mkCloner "https://ox-fleetcare.com" "ox-fleetcare.com" "output"
                ∅ ∅ ∅ ∅ ∅ [] ∅ [] in
  let dirs := ["output"; "output/images"; "output/css"; "output/js";
               "output/html"; "output/fonts"; "output/assets"] in
  (List.forallb (mkdir_ok w) dirs = false → ∀ fuel, main w fuel = Raise OSError) ∧
  (List.forallb (mkdir_ok w) dirs = true →
   new_cloner w "https://ox-fleetcare.com/" "output" = Ok self ∧
   (∀ fuel, main w fuel = Ok (scrape_full_site w fuel 50 self)) ∧
   (∃ fuel r st', main w fuel = Ok (Some (r, st'))) ∧
   (∀ fuel r st',
      main w fuel = Ok (Some (r, st')) →
      size (visited_pages st') ≤ 50 ∧
      (∀ u, (Page, u) ∈ requests_log st' →
         u = "https://ox-fleetcare.com" ∨
         ∃ p, url_parse w u = Ok p ∧
              (netloc p = "ox-fleetcare.com" ∨ netloc p = "" ∨
               netloc p = "www.ox-fleetcare.com")) ∧
      writes_in_tree self st' ∧ mirrored w st')).
Proof.
  intros self dirs.
  assert (Hctor : new_cloner w "https://ox-fleetcare.com/" "output" =
            if List.forallb (mkdir_ok w) dirs then Ok self else Raise OSError).
  { unfold new_cloner.
    change (url_parse w "https://ox-fleetcare.com/")
      with (Ok (mkParse "https" "ox-fleetcare.com" "/" "" "" "")).
    cbn [rbind]. unfold _create_directories. rewrite mkdirs_forallb.
    change (directories _) with dirs.
    destruct (List.forallb (mkdir_ok w) dirs); reflexivity. }
  split.
  { intros Hdirs fuel. unfold main. cbv zeta. rewrite Hctor, Hdirs. reflexivity. }
  intros Hdirs. rewrite Hdirs in Hctor. rename Hctor into Hnew.
  assert (Hmain : ∀ fuel, main w fuel = Ok (scrape_full_site w fuel 50 self)).
  { intros fuel. unfold main. cbv zeta. rewrite Hnew. reflexivity. }
  split; [exact Hnew|]. split; [exact Hmain|].
  split.
  - destruct (crawl_terminates w 50 _ _ {[base_url self]} self
                (Nat.le_refl _) (Nat.le_refl _)) as (fuel & r & s1 & Hc).
    exists fuel. rewrite Hmain. unfold scrape_full_site. rewrite Hc.
    destruct r as [[]|e]; [|eauto]. destruct (_save_summary w s1) as [r' st']. eauto.
  - intros fuel r st'. rewrite Hmain. intros [= H].
    split; [|split; [|split]].
    + destruct (scrape_full_site_result w _ _ _ _ _ H) as (r1 & s1 & Hc & Hv).
      pose proof (crawl_result_bound w _ _ _ _ _ _ Hc) as Hb.
      rewrite Hv. change (size (visited_pages self)) with (size (∅ : gset string)) in Hb.
      rewrite size_empty in Hb. lia.
    + intros u Hu.
      assert (Hd : discoverable w self u).
      { unfold scrape_full_site in H.
        destruct (crawl w fuel 50 {[base_url self]} self) as [[r1 s1]|] eqn:Hc;
          [|discriminate].
        destruct (crawl_result_inv w self _ _ _ _ _ _ Hc (crawl_inv_start w self))
          as (_ & _ & _ & Hlog).
        assert (Hu1 : (Page, u) ∈ requests_log s1).
        { destruct r1 as [[]|ex].
          - injection H as H. eapply page_request_after_frame; [|exact Hu].
            eapply keeps_save_summary, H.
          - injection H as <- <-. exact Hu. }
        destruct (Hlog u Hu1) as [Hold|Hd]; [|exact Hd].
        by apply elem_of_nil in Hold. }
      destruct (discoverable_internal w self u Hd) as [->|(_ & _ & Hsame & _)];
        [by left|]. right.
      unfold _is_same_domain in Hsame.
      destruct (url_parse w u) as [p|e]; [|discriminate]. cbn [rbind] in Hsame.
      exists p. split; [reflexivity|]. injection Hsame as Hsame.
      change (domain self) with "ox-fleetcare.com" in Hsame.
      change (replace "ox-fleetcare.com" "www." "") with "ox-fleetcare.com" in Hsame.
      change ("www." +:+ "ox-fleetcare.com") with "www.ox-fleetcare.com" in Hsame.
      repeat (apply orb_true_iff in Hsame as [Hsame|Hsame]);
        apply String.eqb_eq in Hsame; auto.
    + eapply tree_scrape_full_site, H.
    + exact (km_scrape_full_site w _ _ _ _ _ H
               (new_cloner_mirrored w _ _ _ Hnew)).
Qed.

Lemma main_stays_within_bounds_witness :
  ∃ st', main offline 1 = Ok (Some (Ok (), st')) ∧ size (visited_pages st') ≤ 50.
Proof.
  destruct (proj2 (main_stays_within_bounds offline) eq_refl)
    as (_ & _ & _ & Hall).
  eexists. split; [vm_compute; reflexivity|].
  apply (Hall 1 (Ok ())). vm_compute. reflexivity.
Defined.

(* ===================================================================== *)
(** * The picture of a style sheet *)
(* ===================================================================== *)

Lemma endswith_app_nonslash (x t : string) :
  t ≠ "" → endswith t "/" = false → endswith (x +:+ t) "/" = false.
Proof.
  intros Ht He. induction x as [|a x IH]; [rewrite app_nil_l_s; exact He|].
  rewrite app_cons_s.
  change (endswith (String a (x +:+ t)) "/")
    with (String.eqb (String a (x +:+ t)) "/" || endswith (x +:+ t) "/").
  rewrite IH, orb_false_r. cbn [String.eqb].
  destruct (Ascii.eqb a "/"); [|reflexivity].
  destruct x as [|b x]; [|reflexivity]. rewrite app_nil_l_s.
  destruct t; [congruence|reflexivity].
Qed.

(** The file of a style sheet and the file of a picture are two files. *)
Lemma css_image_paths_distinct (out n1 n2 : string) :
  path_join out ["css"; "style_" +:+ n1] ≠ path_join out ["images"; "img_" +:+ n2].
Proof.
  unfold path_join. cbn [fold_left].
  change ("style_" +:+ n1) with (String "s" ("tyle_" +:+ n1)).
  change ("img_" +:+ n2) with (String "i" ("mg_" +:+ n2)).
  assert (Hd : ∀ d sub c name,
            sub ≠ "" → endswith sub "/" = false → Ascii.eqb c "/" = false →
            path_join2 (d +:+ sub) (String c name)
              = d +:+ sub +:+ "/" +:+ String c name).
  { intros d sub c name Hne He Hc. unfold path_join2, startswith.
    cbn [has_prefix]. rewrite Ascii.eqb_sym, Hc. cbn [andb].
    rewrite (endswith_app_nonslash d sub Hne He), orb_false_r.
    destruct (d +:+ sub) as [|c0 s0] eqn:E.
    - destruct d; [rewrite app_nil_l_s in E; congruence|discriminate E].
    - cbn [is_empty]. rewrite <- E, !app_assoc_s. reflexivity. }
  unfold path_join2 at 2 4.
  change (startswith "css" "/") with false.
  change (startswith "images" "/") with false. cbv iota.
  destruct (is_empty out || endswith out "/").
  - rewrite !Hd by (discriminate || reflexivity).
    intros H%app_inv_head_s. discriminate H.
  - rewrite <- (app_assoc_s out "/" "css"), <- (app_assoc_s out "/" "images").
    rewrite !Hd by (discriminate || reflexivity). rewrite !app_assoc_s.
    intros H%app_inv_head_s. discriminate H.
Qed.

Lemma filename_has_prefix (w : world) (url prefix f : string) :
  _get_filename_from_url w url prefix = Ok f → ∃ name, f = prefix +:+ name.
Proof.
  unfold _get_filename_from_url. destruct (url_parse w url); [|discriminate].
  cbn [rbind]. intros [= <-]. eauto.
Qed.

(** A text just before [url(] does not make a match begin earlier. *)
Lemma has_prefix_url_boundary (t s : string) :
  t ≠ "" → has_prefix "url(" t = false → has_prefix "url(" s = true →
  has_prefix "url(" (t +:+ s) = false.
Proof.
  intros Ht Hp Hs. apply has_prefix_spec in Hs as [x ->].
  change ("url(" +:+ x) with (String "u" (String "r" (String "l" (String "(" x)))).
  destruct t as [|a [|b [|c [|d t]]]]; [congruence|..];
    rewrite ?app_cons_s, ?app_nil_l_s; cbn [has_prefix] in *.
  - destruct (Ascii.eqb "u" a); reflexivity.
  - destruct (Ascii.eqb "u" a), (Ascii.eqb "r" b); reflexivity.
  - destruct (Ascii.eqb "u" a), (Ascii.eqb "r" b), (Ascii.eqb "l" c); reflexivity.
  - exact Hp.
Qed.

Section StylesheetPicture.
Variable w : world.

Lemma css_sub_plain css_url s st :
  contains s "url(" = false → css_sub w css_url 0 s st = (Ok s, st).
Proof.
  induction s as [|a s IH]; intros H; [reflexivity|].
  change (contains (String a s) "url(")
    with (has_prefix "url(" (String a s) || contains s "url(") in H.
  apply orb_false_iff in H as [H1 H2].
  cbn [css_sub]. unfold match_url. rewrite H1. unfold bind.
  rewrite (IH H2). reflexivity.
Qed.

Lemma css_sub_skip css_url g s st :
  css_sub w css_url (String.length g) (g +:+ s) st = css_sub w css_url 0 s st.
Proof.
  induction g as [|a g IH]; [rewrite app_nil_l_s; reflexivity|].
  rewrite app_cons_s. cbn [String.length css_sub]. exact IH.
Qed.

(** The text before the first [url(] is copied. *)
Lemma css_sub_prefix css_url pre s st :
  contains pre "url(" = false →
  has_prefix "url(" s = true →
  css_sub w css_url 0 (pre +:+ s) st =
    (let* x := css_sub w css_url 0 s in ret (pre +:+ x)) st.
Proof.
  intros Hpre Hs. induction pre as [|a pre IH].
  - rewrite app_nil_l_s. unfold bind.
    destruct (css_sub w css_url 0 s st) as [[x|e] st']; [|reflexivity].
    unfold ret. rewrite app_nil_l_s. reflexivity.
  - change (contains (String a pre) "url(")
      with (has_prefix "url(" (String a pre) || contains pre "url(") in Hpre.
    apply orb_false_iff in Hpre as [H1 H2].
    rewrite app_cons_s. cbn [css_sub]. unfold match_url.
    rewrite <- app_cons_s.
    rewrite (has_prefix_url_boundary (String a pre) s) by (discriminate || assumption).
    unfold bind at 1. rewrite (IH H2). unfold bind.
    destruct (css_sub w css_url 0 s st) as [[x|e] st']; [|reflexivity].
    unfold ret. rewrite app_cons_s. reflexivity.
Qed.

(** A text with one reference: the text before it and the text after it
    are copied, and the reference is what [replace_url] makes of it. *)
Lemma css_sub_one_match css_url pre g0 g post st r st' :
  contains pre "url(" = false →
  contains post "url(" = false →
  match_url (g0 +:+ post) = Some (g0, g) →
  replace_url w css_url g0 g st = (Ok r, st') →
  css_sub w css_url 0 (pre +:+ g0 +:+ post) st = (Ok (pre +:+ r +:+ post), st').
Proof.
  intros Hpre Hpost Hm Hr.
  assert (Hp : has_prefix "url(" (g0 +:+ post) = true).
  { unfold match_url in Hm.
    destruct (has_prefix "url(" (g0 +:+ post)); [reflexivity|discriminate]. }
  rewrite (css_sub_prefix css_url pre _ st Hpre Hp). unfold bind.
  destruct (match_url_prefix _ _ _ Hm) as [Hne _].
  destruct g0 as [|c g0]; [congruence|].
  rewrite app_cons_s in Hm |- *. cbn [css_sub]. rewrite Hm.
  unfold bind. rewrite Hr. cbn [String.length Nat.sub]. rewrite Nat.sub_0_r.
  rewrite css_sub_skip, (css_sub_plain css_url post st' Hpost). reflexivity.
Qed.

(** [download_css] on a style sheet that is fetched, named, processed
    and written. *)
Lemma download_css_saved url st body f css sb :
  url ∉ downloaded_css st →
  http_get w (requests_log st) url = Some body →
  _get_filename_from_url w url "style_" = Ok f →
  _process_css_urls w body url
    (set_requests_log (fun l => l ++ [(Stylesheet, url)]) st) = (Ok css, sb) →
  file_write_ok w (requests_log sb) (path_join (output_dir st) ["css"; f]) = true →
  download_css w url st =
    (Ok f,
     set_downloaded_css (fun s => s ∪ {[url]})
       (set_all_css_rules (insert url [css])
          (set_files (insert (path_join (output_dir st) ["css"; f]) (Data css)) sb))).
Proof.
  intros Hn Hg Hf Hp Hw. unfold download_css, bind at 1, gets.
  rewrite (bool_decide_eq_false_2 _ Hn).
  unfold try_except, bind, requests_get, lift, gets. rewrite Hg, Hf.
  cbn [output_dir set_requests_log]. rewrite Hp.
  unfold write_file. rewrite Hw. reflexivity.
Qed.

(** C7 (amended). A page has a style sheet link whose reference,
    resolved against the URL of the page, is [css_url]; the text served
    there names a picture through [url(../img/bg.png)] and holds no
    other [url(].  The picture is resolved against [css_url], the URL of
    the style sheet itself, and neither against the page nor against the
    site: [pic] is what is requested.  When the picture is served, it is
    saved in [images/] under the flattened name of [pic] and the style
    sheet is saved in [css/] with its reference rewritten to that file;
    when it is not, the style sheet is saved as it was served.  In both
    cases the link is pointed at the saved style sheet.  For a style
    sheet of path [/styles.css] and a picture of path [/img/bg.png] the
    files are [css/style_styles.css] and [images/img_img_bg.png]: the
    directory [img] is part of the flattened name. *)
Theorem stylesheet_picture_is_mirrored (page href css_url pic pre post : string)
    (cssname imgname : string) (e : element) (st : cloner) :
  is_stylesheet_link e = true →
  el_get e "href" = Some href →
  _normalize_url w st href (Some page) = Ok css_url →
  css_url ≠ "" →
  _normalize_url w st "../img/bg.png" (Some css_url) = Ok pic →
  any_ext_in image_exts (lower pic) = true →
  _get_filename_from_url w css_url "style_" = Ok cssname →
  _get_filename_from_url w pic "img_" = Ok imgname →
  contains pre "url(" = false →
  contains post "url(" = false →
  css_url ∉ downloaded_css st →
  pic ∉ downloaded_images st →
  http_get w (requests_log st) css_url
    = Some (pre +:+ "url(../img/bg.png)" +:+ post) →
  (∀ log path, file_write_ok w log path = true) →
  let log1 := requests_log st ++ [(Stylesheet, css_url)] in
  let css_file := path_join (output_dir st) ["css"; cssname] in
  let img_file := path_join (output_dir st) ["images"; imgname] in
  (∀ png, http_get w log1 pic = Some png →
     ∃ st',
       css_step w page e st = (Ok (el_set e "href" ("../css/" +:+ cssname)), st') ∧
       requests_log st' = log1 ++ [(Image, pic)] ∧
       files st' !! css_file
         = Some (Data (pre +:+ ("url(../images/" +:+ imgname +:+ ")") +:+ post)) ∧
       files st' !! img_file = Some (Data png)) ∧
  (http_get w log1 pic = None →
     ∃ st',
       css_step w page e st = (Ok (el_set e "href" ("../css/" +:+ cssname)), st') ∧
       requests_log st' = log1 ++ [(Image, pic)] ∧
       files st' !! css_file = Some (Data (pre +:+ "url(../img/bg.png)" +:+ post)) ∧
       files st' !! img_file = files st !! img_file) ∧
  (∀ p, url_parse w css_url = Ok p → path p = "/styles.css" →
        cssname = "style_styles.css") ∧
  (∀ q, url_parse w pic = Ok q → path q = "/img/bg.png" →
        imgname = "img_img_bg.png").
Proof.
  intros Hl Hh Hn Hcss Hnp Hext Hfc Hfi Hpre Hpost Hnew Hnewp Hg Hw
         log1 css_file img_file.
  set (s1 := set_requests_log (fun l => l ++ [(Stylesheet, css_url)]) st).
  assert (Hhref : is_empty href = false).
  { destruct href; [|reflexivity]. cbn in Hn. congruence. }
  assert (Hcss' : is_empty css_url = false) by (apply is_empty_false, Hcss).
  assert (Hpic : is_empty pic = false).
  { destruct pic; [discriminate Hext|reflexivity]. }
  assert (Hcn : is_empty cssname = false).
  { apply is_empty_false. eapply filename_nonempty; [|exact Hfc]. discriminate. }
  assert (Hin : is_empty imgname = false).
  { apply is_empty_false. eapply filename_nonempty; [|exact Hfi]. discriminate. }
  assert (Hm : match_url ("url(../img/bg.png)" +:+ post)
               = Some ("url(../img/bg.png)", "../img/bg.png"))
    by (vm_compute; reflexivity).
  assert (Hdist : css_file ≠ img_file).
  { destruct (filename_has_prefix w _ _ _ Hfc) as [n1 E1].
    destruct (filename_has_prefix w _ _ _ Hfi) as [n2 E2].
    unfold css_file, img_file. rewrite E1, E2. apply css_image_paths_distinct. }
  (* what the style sheet loop does, given what [replace_url] does *)
  assert (Hstep : ∀ r sb,
    replace_url w css_url "url(../img/bg.png)" "../img/bg.png" s1 = (Ok r, sb) →
    css_step w page e st =
      (Ok (el_set e "href" ("../css/" +:+ cssname)),
       set_downloaded_css (fun s => s ∪ {[css_url]})
         (set_all_css_rules (insert css_url [pre +:+ r +:+ post])
            (set_files (insert css_file (Data (pre +:+ r +:+ post))) sb)))).
  { intros r sb Hr. unfold css_step. rewrite Hl, Hh, Hhref.
    unfold bind at 1, normalize. rewrite Hn, Hcss'.
    unfold bind.
    rewrite (download_css_saved css_url st _ cssname (pre +:+ r +:+ post) sb
               Hnew Hg Hfc); [rewrite Hcn; reflexivity| |apply Hw].
    apply (css_sub_one_match css_url pre _ _ post s1 r sb Hpre Hpost Hm Hr). }
  (* what [replace_url] does, given what [download_image] does *)
  assert (Hrep : ∀ f sb,
    download_image w pic s1 = (Ok f, sb) →
    replace_url w css_url "url(../img/bg.png)" "../img/bg.png" s1 =
      (Ok (if negb (is_empty f) then "url(../images/" +:+ f +:+ ")"
           else "url(../img/bg.png)"), sb)).
  { intros f sb Hd. unfold replace_url.
    change (startswith "../img/bg.png" "data:" ||
            startswith "../img/bg.png" "../images/") with false. cbv iota.
    unfold bind at 1, normalize.
    change (_normalize_url w s1 "../img/bg.png" (Some css_url))
      with (_normalize_url w st "../img/bg.png" (Some css_url)).
    rewrite Hnp, Hpic, Hext. unfold bind. rewrite Hd.
    destruct (negb (is_empty f)); reflexivity. }
  pose proof (download_image_new w pic s1 Hnewp) as Hd. cbv zeta in Hd.
  change (requests_log s1) with log1 in Hd. rewrite Hfi in Hd.
  split; [|split; [|split]].
  - intros png Hgp. rewrite Hgp, Hw in Hd.
    specialize (Hrep _ _ Hd). rewrite Hin in Hrep. cbn [negb] in Hrep.
    eexists. split; [exact (Hstep _ _ Hrep)|]. cbn.
    split; [reflexivity|]. split; [apply lookup_insert_eq|].
    rewrite lookup_insert_ne by exact Hdist. apply lookup_insert_eq.
  - intros Hgp. rewrite Hgp in Hd.
    specialize (Hrep _ _ Hd). cbn [is_empty negb] in Hrep.
    eexists. split; [exact (Hstep _ _ Hrep)|]. cbn.
    split; [reflexivity|]. split; [apply lookup_insert_eq|].
    apply lookup_insert_ne, Hdist.
  - intros p Hp Hpath. unfold _get_filename_from_url in Hfc.
    rewrite Hp in Hfc. cbn [rbind] in Hfc. rewrite Hpath in Hfc.
    vm_compute in Hfc. congruence.
  - intros q Hq Hpath. unfold _get_filename_from_url in Hfi.
    rewrite Hq in Hfi. cbn [rbind] in Hfi. rewrite Hpath in Hfi.
    vm_compute in Hfi. congruence.
Qed.

End StylesheetPicture.

(** On [nested_stylesheet_world] the page, the site and the style sheet
    lie in three directories: the picture requested is the one next to
    the style sheet. *)
Lemma stylesheet_picture_is_mirrored_witness :
  ∃ st',
    css_step (nested_stylesheet_world "PNG") "https://example.test/shop/"
      (stylesheet_link "../static/css/styles.css")
      (cloner_for (nested_stylesheet_world "PNG") "https://example.test/" "output")
    = (Ok (el_set (stylesheet_link "../static/css/styles.css") "href"
             "../css/style_static_css_styles.css"), st') ∧
    requests_log st' =
      [(Stylesheet, "https://example.test/static/css/styles.css");
       (Image, "https://example.test/static/img/bg.png")] ∧
    files st' !! "output/css/style_static_css_styles.css"
      = Some (Data "body{background:url(../images/img_static_img_bg.png)}") ∧
    files st' !! "output/images/img_static_img_bg.png" = Some (Data "PNG").
Proof.
  refine (proj1 (stylesheet_picture_is_mirrored (nested_stylesheet_world "PNG")
            "https://example.test/shop/" "../static/css/styles.css"
            "https://example.test/static/css/styles.css"
            "https://example.test/static/img/bg.png"
            "body{background:" "}"
            "style_static_css_styles.css" "img_static_img_bg.png"
            (stylesheet_link "../static/css/styles.css")
            (cloner_for (nested_stylesheet_world "PNG") "https://example.test/" "output")
            _ _ _ _ _ _ _ _ _ _ _ _ _ _) "PNG" _).
  - reflexivity.
  - apply lookup_singleton_eq.
  - vm_compute. reflexivity.
  - discriminate.
  - vm_compute. reflexivity.
  - vm_compute. reflexivity.
  - vm_compute. reflexivity.
  - vm_compute. reflexivity.
  - vm_compute. reflexivity.
  - vm_compute. reflexivity.
  - apply (bool_decide_eq_false_1 _). vm_compute. reflexivity.
  - apply (bool_decide_eq_false_1 _). vm_compute. reflexivity.
  - vm_compute. reflexivity.
  - intros log path. reflexivity.
  - vm_compute. reflexivity.
Defined.
